(** * Conversation memory manager of the KickAI chat (lib/memory)

    A shallow embedding of the TypeScript sources

      - lib/memory/config.ts              (loadMemoryConfig, validateConfig)
      - lib/memory/config-validator.ts    (validateMemoryConfig, performConfigHealthCheck)
      - lib/memory/utils.ts               (createEmptySession, updateSessionActivity, validateSessionData)
      - lib/memory/summarization-utils.ts (needsSummarization, getMessagesToSummarize, getRecentMessages)
      - lib/memory/session-storage.ts     (class SessionStorage)
      - lib/memory/memory-manager.ts      (class SummaryMemoryManager)
      - lib/memory/error-handler.ts       (MemoryErrorLogger, handle...Error)
      - lib/memory/corruption-recovery.ts (validateSessionIntegrity, repairSessionData,
                                           detectAndRecoverCorruption)

    JavaScript numbers are carried as [Z] (all the numbers of these modules
    are counters, lengths and millisecond timestamps), with a separate NaN
    where the code can produce one.  Strings are sequences of code units
    below 128.  Objects that the code mutates in place (session records
    and their arrays) live in an explicit heap, exceptions are values of an
    error monad, and [new Date()] reads a wall clock carried by the state. *)

From Stdlib Require Import QArith ZArith List Bool Ascii String Lia Permutation Sorted.
From stdpp Require Import base tactics option list sorting strings pretty.

Set Warnings "-register-all".

Local Open Scope string_scope.
Local Open Scope list_scope.
Local Open Scope Z_scope.

(** ** JavaScript built-ins used by the sources *)

(** [Array.prototype.slice(start, end)]: a negative index counts from the
    end, indices are clamped to the array, an absent [end] is the length. *)
Definition rel_index (len i : Z) : Z :=
  if i <? 0 then Z.max (len + i) 0 else Z.min i len.

Definition js_slice {A : Type} (start : Z) (stop : option Z) (l : list A) : list A :=
  let len := Z.of_nat (length l) in
  let k := rel_index len start in
  let final := match stop with None => len | Some e => rel_index len e end in
  take (Z.to_nat (final - k)) (drop (Z.to_nat k) l).

(** White space of [String.prototype.trim] and of [parseInt], restricted to
    the code units below 128: TAB, LF, VT, FF, CR and SPACE. *)
Definition is_ws (c : ascii) : bool :=
  let n := nat_of_ascii c in
  ((9 <=? n)%nat && (n <=? 13)%nat) || (n =? 32)%nat.

Fixpoint trim_start (s : string) : string :=
  match s with
  | EmptyString => EmptyString
  | String c s' => if is_ws c then trim_start s' else s
  end.

Fixpoint trim_end (s : string) : string :=
  match s with
  | EmptyString => EmptyString
  | String c s' =>
      match trim_end s' with
      | EmptyString => if is_ws c then EmptyString else String c EmptyString
      | t => String c t
      end
  end.

Definition js_trim (s : string) : string := trim_end (trim_start s).

(** A number that may be NaN. *)
Inductive JsNum : Type :=
| NaN
| Num (z : Z).

Definition digit_of (c : ascii) : option Z :=
  let n := nat_of_ascii c in
  if (48 <=? n)%nat && (n <=? 57)%nat then Some (Z.of_nat (n - 48)) else None.

Fixpoint parse_digits (s : string) (acc : option Z) : option Z :=
  match s with
  | EmptyString => acc
  | String c s' =>
      match digit_of c with
      | Some d => parse_digits s' (Some (10 * default 0 acc + d))
      | None => acc
      end
  end.

(** [parseInt(s, 10)]: leading white space is skipped, one sign is read,
    then the longest run of decimal digits; NaN when there is no digit. *)
Definition parseInt10 (s : string) : JsNum :=
  let unsigned r := match parse_digits r None with Some n => Num n | None => NaN end in
  match trim_start s with
  | String "-"%char r =>
      match parse_digits r None with Some n => Num (- n) | None => NaN end
  | String "+"%char r => unsigned r
  | r => unsigned r
  end.

(** Truthiness of a string: every string but the empty one. *)
Definition truthy_string (s : string) : bool :=
  match s with EmptyString => false | _ => true end.

(** [parsed > 0 && parsed <= hi]; both comparisons are false on NaN. *)
Definition positive_up_to (parsed : JsNum) (hi : Z) : bool :=
  match parsed with
  | NaN => false
  | Num p => (0 <? p) && (p <=? hi)
  end.

Definition num_or (parsed : JsNum) (dflt : Z) : Z :=
  match parsed with NaN => dflt | Num p => p end.

(** ** config.ts *)

Record MemoryConfig : Type := mkConfig {
  memoryThreshold : Z;
  recentMessagesLimit : Z;
  sessionTimeoutHours : Z;
  maxSessions : Z;
  geminiApiKey : option string
}.

Definition DEFAULT_CONFIG : MemoryConfig :=
  {| memoryThreshold := 10;
     recentMessagesLimit := 6;
     sessionTimeoutHours := 24;
     maxSessions := 1000;
     geminiApiKey := None |}.

(** The part of [process.env] that [loadMemoryConfig] reads; [None] is an
    unset variable. *)
Record Env : Type := mkEnv {
  MEMORY_THRESHOLD : option string;
  RECENT_MESSAGES_LIMIT : option string;
  SESSION_TIMEOUT_HOURS : option string;
  MAX_SESSIONS : option string;
  GEMINI_API_KEY : option string
}.

(** One [if (raw) { const parsed = parseInt(raw, 10); if (parsed > 0 &&
    parsed <= hi) field = parsed; else console.warn(...) }] block: the
    field keeps the value it had (the default) unless the variable is set,
    non-empty and parses into the range. *)
Definition load_block (raw : option string) (hi : Z) (current : Z) : Z :=
  match raw with
  | Some s =>
      if truthy_string s then
        let parsed := parseInt10 s in
        if positive_up_to parsed hi then num_or parsed current else current
      else current
  | None => current
  end.

Definition loadMemoryConfig (env : Env) : MemoryConfig :=
  let config := DEFAULT_CONFIG in
  {| memoryThreshold := load_block (MEMORY_THRESHOLD env) 100 (memoryThreshold config);
     recentMessagesLimit := load_block (RECENT_MESSAGES_LIMIT env) 20 (recentMessagesLimit config);
     sessionTimeoutHours := load_block (SESSION_TIMEOUT_HOURS env) 168 (sessionTimeoutHours config);
     maxSessions := load_block (MAX_SESSIONS env) 10000 (maxSessions config);
     geminiApiKey := GEMINI_API_KEY env |}.

Definition validateConfig (config : MemoryConfig) : bool :=
  (0 <? memoryThreshold config) &&
  (0 <? recentMessagesLimit config) &&
  (0 <? sessionTimeoutHours config) &&
  (0 <? maxSessions config) &&
  (recentMessagesLimit config <? memoryThreshold config).

(** ** config-validator.ts *)

Inductive ConfigError : Type :=
| ThresholdNotPositive       (* 'Memory threshold must be greater than 0' *)
| RecentLimitNotPositive     (* 'Recent messages limit must be greater than 0' *)
| RecentLimitNotBelowThreshold (* 'Recent messages limit must be less than memory threshold' *)
| TimeoutNotPositive         (* 'Session timeout must be greater than 0' *)
| MaxSessionsNotPositive.    (* 'Max sessions must be greater than 0' *)

Inductive ConfigWarning : Type :=
| ThresholdVeryLow | ThresholdVeryHigh | RecentLimitVeryLow
| TimeoutVeryShort | TimeoutVeryLong
| MaxSessionsVeryLow | MaxSessionsVeryHigh
| ApiKeyMissing | ApiKeyTooShort
| RecentLimitTooClose.

Inductive ConfigRecommendation : Type :=
| SetApiKey | WidenGap | RaiseRecentLimit | MonitorResources.

Record ConfigValidationResult : Type := mkValidation {
  cv_isValid : bool;
  cv_errors : list ConfigError;
  cv_warnings : list ConfigWarning;
  cv_recommendations : list ConfigRecommendation
}.

(** [l / t > 4/5] and [l / t < 3/10] for the quotient of two integers as
    the division computes it: an infinity of the sign of [l] when [t = 0]
    and [l <> 0], NaN (all comparisons false) for [0 / 0]. *)
Definition ratio_gt_08 (l t : Z) : bool :=
  if t =? 0 then 0 <? l
  else if 0 <? t then 4 * t <? 5 * l else 5 * l <? 4 * t.

Definition ratio_lt_03 (l t : Z) : bool :=
  if t =? 0 then l <? 0
  else if 0 <? t then 10 * l <? 3 * t else 3 * t <? 10 * l.

Definition validateMemoryConfig (config : MemoryConfig) : ConfigValidationResult :=
  let mt := memoryThreshold config in
  let rl := recentMessagesLimit config in
  let st := sessionTimeoutHours config in
  let ms := maxSessions config in
  let e1 := if mt <=? 0 then [ThresholdNotPositive] else [] in
  let w1 := if mt <=? 0 then []
            else if mt <? 5 then [ThresholdVeryLow]
            else if 50 <? mt then [ThresholdVeryHigh] else [] in
  let e2 := if rl <=? 0 then [RecentLimitNotPositive]
            else if mt <=? rl then [RecentLimitNotBelowThreshold] else [] in
  let w2 := if rl <=? 0 then []
            else if mt <=? rl then []
            else if rl <? 3 then [RecentLimitVeryLow] else [] in
  let e3 := if st <=? 0 then [TimeoutNotPositive] else [] in
  let w3 := if st <=? 0 then []
            else if st <? 1 then [TimeoutVeryShort]
            else if 168 <? st then [TimeoutVeryLong] else [] in
  let e4 := if ms <=? 0 then [MaxSessionsNotPositive] else [] in
  let w4 := if ms <=? 0 then []
            else if ms <? 10 then [MaxSessionsVeryLow]
            else if 10000 <? ms then [MaxSessionsVeryHigh] else [] in
  let no_key := match geminiApiKey config with
                | None => true
                | Some k => negb (truthy_string k)
                end in
  let w5 := if no_key then [ApiKeyMissing]
            else match geminiApiKey config with
                 | Some k => if (String.length k <? 20)%nat then [ApiKeyTooShort] else []
                 | None => []
                 end in
  let r5 := if no_key then [SetApiKey] else [] in
  let w6 := if ratio_gt_08 rl mt then [RecentLimitTooClose] else [] in
  let r6 := if ratio_gt_08 rl mt then [WidenGap]
            else if ratio_lt_03 rl mt then [RaiseRecentLimit] else [] in
  let r7 := if 100000 <? mt * ms then [MonitorResources] else [] in
  let errors := e1 ++ e2 ++ e3 ++ e4 in
  {| cv_isValid := (length errors =? 0)%nat;
     cv_errors := errors;
     cv_warnings := w1 ++ w2 ++ w3 ++ w4 ++ w5 ++ w6;
     cv_recommendations := r5 ++ r6 ++ r7 |}.

Inductive Health : Type := healthy | warning | critical.

(** [performConfigHealthCheck]: the overall level; [initializeMemorySystem]
    answers [success: false] on [critical] and leaves [memoryConfig] as
    loaded. *)
Definition performConfigHealthCheck (config : MemoryConfig) : Health :=
  let validation := validateMemoryConfig config in
  if (0 <? length (cv_errors validation))%nat then critical
  else if (0 <? length (cv_warnings validation))%nat then warning
  else healthy.

(** ** Exceptions and state *)

Inductive JsError : Type :=
| Error (message : string)
| TypeError (message : string)
| ReferenceError (message : string).

Definition error_message (e : JsError) : string :=
  match e with
  | Error m => m
  | TypeError m => m
  | ReferenceError m => m
  end.

(** The outcome of a call: a value, or a thrown exception (for an [async]
    method, a rejected promise). *)
Inductive Res (A : Type) : Type :=
| Ok (a : A)
| Throw (e : JsError).
Arguments Ok {A} a.
Arguments Throw {A} e.

(** A computation over a state [S]: the state it leaves is kept also when
    it throws, as the mutations done before a [throw] are. *)
Definition M (S A : Type) : Type := S -> Res A * S.

Definition ret {S A : Type} (a : A) : M S A := fun s => (Ok a, s).

Definition throw {S A : Type} (e : JsError) : M S A := fun s => (Throw e, s).

Definition bind {S A B : Type} (m : M S A) (k : A -> M S B) : M S B :=
  fun s =>
    match m s with
    | (Ok a, s') => k a s'
    | (Throw e, s') => (Throw e, s')
    end.

(** [try { body } catch (error) { handler }] *)
Definition try_catch {S A : Type} (body : M S A) (handler : JsError -> M S A) : M S A :=
  fun s =>
    match body s with
    | (Ok a, s') => (Ok a, s')
    | (Throw e, s') => handler e s'
    end.

Declare Scope js_scope.
Delimit Scope js_scope with js.
Notation "x <- c1 ;; c2" := (bind c1 (fun x => c2))
  (at level 100, c1 at next level, right associativity) : js_scope.
Notation "c1 ;; c2" := (bind c1 (fun _ => c2))
  (at level 100, right associativity) : js_scope.
Local Open Scope js_scope.

Fixpoint mapM {S A B : Type} (f : A -> M S B) (l : list A) : M S (list B) :=
  match l with
  | [] => ret []
  | x :: l' => y <- f x ;; ys <- mapM f l' ;; ret (y :: ys)
  end.

Fixpoint foldM {S A B : Type} (f : B -> A -> M S B) (l : list A) (b : B) : M S B :=
  match l with
  | [] => ret b
  | x :: l' => b' <- f b x ;; foldM f l' b'
  end.

(** ** A JavaScript [Map] with string keys: entries in insertion order *)

Fixpoint map_get {V : Type} (k : string) (m : list (string * V)) : option V :=
  match m with
  | [] => None
  | (k', v) :: m' => if String.eqb k k' then Some v else map_get k m'
  end.

Definition map_has {V : Type} (k : string) (m : list (string * V)) : bool :=
  match map_get k m with Some _ => true | None => false end.

(** [set] keeps the position of an existing key and appends a new one. *)
Fixpoint map_set {V : Type} (k : string) (v : V) (m : list (string * V)) : list (string * V) :=
  match m with
  | [] => [(k, v)]
  | (k', v') :: m' =>
      if String.eqb k k' then (k, v) :: m' else (k', v') :: map_set k v m'
  end.

Fixpoint map_delete {V : Type} (k : string) (m : list (string * V)) : list (string * V) :=
  match m with
  | [] => []
  | (k', v') :: m' =>
      if String.eqb k k' then m' else (k', v') :: map_delete k m'
  end.

(** ** types.ts *)

Inductive Role : Type := user | assistant.

Record Message : Type := mkMessage {
  msg_id : string;
  role : Role;
  content : string;
  timestamp : Z
}.

(** A session object on the heap: [messages] and [summaries] hold
    references to arrays, so that [push] on them is seen through every
    alias of the object. *)
Record SessionData : Type := mkSession {
  sessionId : string;
  messages : nat;
  summaries : nat;
  lastActivity : Z;
  messageCount : Z
}.

Record ConversationContext : Type := mkContext {
  c_summaries : nat;
  recentMessages : nat;
  totalMessages : Z
}.

Record SummaryGenerator : Type := mkGenerator {
  isAvailable : bool;
  generateSummary : list Message -> Res string
}.

(** ** error-handler.ts *)

Inductive ErrorType : Type :=
| ty_storage | ty_summarization | ty_session | ty_validation | ty_api.

Record MemoryError : Type := mkMemoryError {
  me_type : ErrorType;
  me_message : string;
  me_sessionId : option string;
  me_originalError : option JsError;
  me_timestamp : Z
}.

(** ** The process state *)

Record World : Type := mkWorld {
  objects : list SessionData;          (* session objects, by reference *)
  messageArrays : list (list Message); (* Message[] arrays, by reference *)
  stringArrays : list (list string);   (* string[] arrays, by reference *)
  sessions : list (string * nat);      (* SessionStorage.sessions *)
  errors : list MemoryError;           (* MemoryErrorLogger.errors *)
  wall : nat -> Z;                     (* the time the n-th [new Date()] reads *)
  ticks : nat                          (* how many times the clock was read *)
}.

Definition set_objects (x : list SessionData) (w : World) : World :=
  mkWorld x (messageArrays w) (stringArrays w) (sessions w) (errors w) (wall w) (ticks w).
Definition set_messageArrays (x : list (list Message)) (w : World) : World :=
  mkWorld (objects w) x (stringArrays w) (sessions w) (errors w) (wall w) (ticks w).
Definition set_stringArrays (x : list (list string)) (w : World) : World :=
  mkWorld (objects w) (messageArrays w) x (sessions w) (errors w) (wall w) (ticks w).
Definition set_sessions (x : list (string * nat)) (w : World) : World :=
  mkWorld (objects w) (messageArrays w) (stringArrays w) x (errors w) (wall w) (ticks w).
Definition set_errors (x : list MemoryError) (w : World) : World :=
  mkWorld (objects w) (messageArrays w) (stringArrays w) (sessions w) x (wall w) (ticks w).
Definition set_ticks (x : nat) (w : World) : World :=
  mkWorld (objects w) (messageArrays w) (stringArrays w) (sessions w) (errors w) (wall w) x.

(** The state of a process that has just started. *)
Definition boot (clock : nat -> Z) : World := mkWorld [] [] [] [] [] clock 0.

(** A reference that the heap does not hold cannot be built by the
    sources; the model answers it with a [TypeError]. *)
Definition dangling {A : Type} : M World A := throw (TypeError "dangling reference").

(** [new Date()] *)
Definition newDate : M World Z :=
  fun w => (Ok (wall w (ticks w)), set_ticks (S (ticks w)) w).

Definition allocSession (o : SessionData) : M World nat :=
  fun w => (Ok (length (objects w)), set_objects (objects w ++ [o]) w).

Definition allocMessages (l : list Message) : M World nat :=
  fun w => (Ok (length (messageArrays w)), set_messageArrays (messageArrays w ++ [l]) w).

Definition allocStrings (l : list string) : M World nat :=
  fun w => (Ok (length (stringArrays w)), set_stringArrays (stringArrays w ++ [l]) w).

Definition readSession (r : nat) : M World SessionData :=
  fun w => match objects w !! r with Some o => (Ok o, w) | None => dangling w end.

Definition modifySession (r : nat) (f : SessionData -> SessionData) : M World unit :=
  fun w =>
    match objects w !! r with
    | Some o => (Ok tt, set_objects (<[r := f o]> (objects w)) w)
    | None => dangling w
    end.

Definition readMessages (a : nat) : M World (list Message) :=
  fun w => match messageArrays w !! a with Some l => (Ok l, w) | None => dangling w end.

Definition readStrings (a : nat) : M World (list string) :=
  fun w => match stringArrays w !! a with Some l => (Ok l, w) | None => dangling w end.

(** [array.push(x)], in place *)
Definition pushMessage (a : nat) (x : Message) : M World unit :=
  fun w =>
    match messageArrays w !! a with
    | Some l => (Ok tt, set_messageArrays (<[a := l ++ [x]]> (messageArrays w)) w)
    | None => dangling w
    end.

Definition pushString (a : nat) (x : string) : M World unit :=
  fun w =>
    match stringArrays w !! a with
    | Some l => (Ok tt, set_stringArrays (<[a := l ++ [x]]> (stringArrays w)) w)
    | None => dangling w
    end.

Definition with_lastActivity (d : Z) (o : SessionData) : SessionData :=
  mkSession (sessionId o) (messages o) (summaries o) d (messageCount o).
Definition with_messageCount (n : Z) (o : SessionData) : SessionData :=
  mkSession (sessionId o) (messages o) (summaries o) (lastActivity o) n.
Definition with_messages (a : nat) (o : SessionData) : SessionData :=
  mkSession (sessionId o) a (summaries o) (lastActivity o) (messageCount o).

(** [MemoryErrorLogger.logError]: the entry is stamped and appended, and
    the log is cut to its last [maxErrors = 100] entries. *)
Definition logError (t : ErrorType) (message : string) (sid : option string)
    (original : option JsError) : M World unit :=
  d <- newDate ;;
  fun w =>
    let all := errors w ++ [mkMemoryError t message sid original d] in
    let kept := if (100 <? length all)%nat then js_slice (-100) None all else all in
    (Ok tt, set_errors kept w).

Definition handleStorageError (error : JsError) (sid : string) : M World unit :=
  logError ty_storage ("Storage operation failed: " +:+ error_message error) (Some sid) (Some error).

Definition handleSummarizationError (error : JsError) (sid : string) : M World unit :=
  logError ty_summarization ("Summarization failed: " +:+ error_message error) (Some sid) (Some error).

(** ** utils.ts *)

Definition createEmptySession (sid : string) : M World nat :=
  ms <- allocMessages [] ;;
  ss <- allocStrings [] ;;
  d <- newDate ;;
  allocSession (mkSession sid ms ss d 0).

Definition updateSessionActivity (session : nat) : M World unit :=
  d <- newDate ;;
  modifySession session (with_lastActivity d).

(** [validateSessionData] on a session object typed as the sources type
    it: the string, date and number tests are settled by the types, the
    two [Array.isArray] tests ask the heap. *)
Definition validateSessionData (data : nat) : M World bool :=
  o <- readSession data ;;
  fun w =>
    (Ok (bool_decide (is_Some (messageArrays w !! messages o)) &&
         bool_decide (is_Some (stringArrays w !! summaries o))), w).

(** ** summarization-utils.ts, session-storage.ts, memory-manager.ts *)

(** [Array.prototype.sort] with the comparator [a.lastActivity.getTime() -
    b.lastActivity.getTime()]: the sort is stable, so its result is the one
    of a stable insertion sort. *)
Fixpoint insert_by_activity (x : SessionData) (l : list SessionData) : list SessionData :=
  match l with
  | [] => [x]
  | y :: l' =>
      if lastActivity x <=? lastActivity y then x :: y :: l'
      else y :: insert_by_activity x l'
  end.

Definition sort_by_activity (l : list SessionData) : list SessionData :=
  foldr insert_by_activity [] l.

Record Stats : Type := mkStats {
  totalSessions : Z;
  st_totalMessages : Z;
  totalSummaries : Z;
  oldestSession : option Z;
  newestSession : option Z
}.

(** [Math.min(...xs)] and [Math.max(...xs)] of a non-empty list *)
Definition math_min (x : Z) (xs : list Z) : Z := foldl Z.min x xs.
Definition math_max (x : Z) (xs : list Z) : Z := foldl Z.max x xs.

Section Manager.

(** [memoryConfig], the module constant of config.ts, and
    [summaryGenerator], the singleton behind the [SummaryGenerator]
    interface. *)
Variable memoryConfig : MemoryConfig.
Variable summaryGenerator : SummaryGenerator.

Definition needsSummarization (session : SessionData) : bool :=
  memoryThreshold memoryConfig <=? messageCount session.

Definition getMessagesToSummarize (msgs : list Message) : list Message :=
  let messagesToKeep := recentMessagesLimit memoryConfig in
  if Z.of_nat (length msgs) <=? messagesToKeep then []
  else js_slice 0 (Some (- messagesToKeep)) msgs.

Definition getRecentMessages (msgs : list Message) : list Message :=
  let messagesToKeep := recentMessagesLimit memoryConfig in
  js_slice (- messagesToKeep) None msgs.

(** *** class SessionStorage *)

Definition getSession (sid : string) : M World nat :=
  fun w =>
    match map_get sid (sessions w) with
    | None =>
        (session <- createEmptySession sid ;;
         (fun w' => (Ok tt, set_sessions (map_set sid session (sessions w')) w')) ;;
         ret session) w
    | Some session =>
        (updateSessionActivity session ;; ret session) w
    end.

Definition hasSession (sid : string) : M World bool :=
  fun w => (Ok (map_has sid (sessions w)), w).

Definition updateSession (sid : string) (sessionData : nat) : M World unit :=
  valid <- validateSessionData sessionData ;;
  if negb valid then throw (Error ("Invalid session data for session " +:+ sid))
  else
    updateSessionActivity sessionData ;;
    fun w => (Ok tt, set_sessions (map_set sid sessionData (sessions w)) w).

Definition deleteSession (sid : string) : M World bool :=
  fun w => (Ok (map_has sid (sessions w)), set_sessions (map_delete sid (sessions w)) w).

Definition clearSession (sid : string) : M World unit :=
  emptySession <- createEmptySession sid ;;
  fun w => (Ok tt, set_sessions (map_set sid emptySession (sessions w)) w).

Definition getAllSessionIds : M World (list string) :=
  fun w => (Ok (map fst (sessions w)), w).

(** [Array.from(this.sessions.values())], with the objects read *)
Definition getAllSessions : M World (list SessionData) :=
  fun w => mapM readSession (map snd (sessions w)) w.

Definition getSessionCount : M World Z :=
  fun w => (Ok (Z.of_nat (length (sessions w))), w).

Definition getInactiveSessions : M World (list SessionData) :=
  now <- newDate ;;
  let timeoutMs := sessionTimeoutHours memoryConfig * 60 * 60 * 1000 in
  all <- getAllSessions ;;
  ret (filter (fun s => timeoutMs < now - lastActivity s) all).

Definition storage_cleanupInactiveSessions : M World Z :=
  inactiveSessions <- getInactiveSessions ;;
  foldM (fun removedCount s =>
           deleted <- deleteSession (sessionId s) ;;
           ret (if deleted : bool then removedCount + 1 else removedCount))
        inactiveSessions 0.

Definition enforceSessionLimit : M World Z :=
  currentCount <- getSessionCount ;;
  let maxSessions := maxSessions memoryConfig in
  if currentCount <=? maxSessions then ret 0
  else
    all <- getAllSessions ;;
    let sortedSessions := sort_by_activity all in
    let sessionsToRemove := currentCount - maxSessions in
    foldM (fun removedCount (i : nat) =>
             match sortedSessions !! i with
             | None => throw (TypeError "Cannot read properties of undefined (reading 'sessionId')")
             | Some s =>
                 deleted <- deleteSession (sessionId s) ;;
                 ret (if deleted : bool then removedCount + 1 else removedCount)
             end)
          (seq 0 (Z.to_nat sessionsToRemove)) 0.

Definition getStats : M World Stats :=
  all <- getAllSessions ;;
  match all with
  | [] => ret (mkStats 0 0 0 None None)
  | s0 :: rest =>
      lens <- mapM (fun s => l <- readStrings (summaries s) ;; ret (Z.of_nat (length l))) all ;;
      let totalMessages := foldl (fun sum s => sum + messageCount s) 0 all in
      let totalSummaries := foldl (fun sum n => sum + n) 0 lens in
      let activities := map lastActivity rest in
      ret (mkStats (Z.of_nat (length all)) totalMessages totalSummaries
                   (Some (math_min (lastActivity s0) activities))
                   (Some (math_max (lastActivity s0) activities)))
  end.

(** *** class SummaryMemoryManager *)

(** The [catch] clause of [triggerSummarization] builds the context
    object [{ operation, messagesCount: session.messages.length }] for
    [handleSummarizationError].  [session] is declared with [const]
    inside the [try] block and is not in scope in the [catch] block (no
    other binding of that name exists in the module): evaluating the
    argument raises a [ReferenceError] before the handler is entered. *)
Definition triggerSummarization_catch (error : JsError) (sid : string) : M World unit :=
  throw (ReferenceError "session is not defined").

(** [calculateSummarizationStats] and [formatSummarizationReport] only
    feed [console.log]; they read the session and leave it as it is. *)
Definition triggerSummarization (sid : string) : M World unit :=
  try_catch
    (session <- getSession sid ;;
     o <- readSession session ;;
     if negb (needsSummarization o) then ret tt
     else if negb (isAvailable summaryGenerator) then ret tt
     else
       msgs <- readMessages (messages o) ;;
       let messagesToSummarize := getMessagesToSummarize msgs in
       if (length messagesToSummarize =? 0)%nat then ret tt
       else
         fun w =>
           match generateSummary summaryGenerator messagesToSummarize with
           | Throw e => (Throw e, w)
           | Ok summary =>
               (if truthy_string summary && (0 <? String.length (js_trim summary))%nat then
                  pushString (summaries o) summary ;;
                  o' <- readSession session ;;
                  current <- readMessages (messages o') ;;
                  kept <- allocMessages (getRecentMessages current) ;;
                  modifySession session (with_messages kept)
                else ret tt) w
           end)
    (fun error => triggerSummarization_catch error sid).

Definition addMessage (sid : string) (message : Message) : M World unit :=
  try_catch
    (session <- getSession sid ;;
     o <- readSession session ;;
     pushMessage (messages o) message ;;
     modifySession session (fun o => with_messageCount (messageCount o + 1) o) ;;
     updateSessionActivity session ;;
     o' <- readSession session ;;
     (if needsSummarization o' then triggerSummarization sid else ret tt) ;;
     updateSession sid session)
    (fun error => handleStorageError error sid ;; throw error).

Definition getContext (sid : string) : M World ConversationContext :=
  try_catch
    (session <- getSession sid ;;
     o <- readSession session ;;
     msgs <- readMessages (messages o) ;;
     recent <- allocMessages (js_slice (- recentMessagesLimit memoryConfig) None msgs) ;;
     sums <- readStrings (summaries o) ;;
     sums_copy <- allocStrings sums ;;
     recent_elems <- readMessages recent ;;
     recent_copy <- allocMessages recent_elems ;;
     o' <- readSession session ;;
     ret (mkContext sums_copy recent_copy (messageCount o')))
    (fun error =>
       handleStorageError error sid ;;
       sums <- allocStrings [] ;;
       recent <- allocMessages [] ;;
       ret (mkContext sums recent 0)).

Definition manager_clearSession (sid : string) : M World unit :=
  try_catch (clearSession sid) (fun error => throw error).

Definition cleanupInactiveSessions : M World unit :=
  try_catch
    (storage_cleanupInactiveSessions ;; enforceSessionLimit ;; ret tt)
    (fun error => ret tt).

Definition getMemoryStats : M World Stats := getStats.

End Manager.

(** ** What a session id stands for in a state *)

(** The stored record with its arrays read: what the caller of the store
    observes. *)
Record SessionView : Type := mkView {
  v_sessionId : string;
  v_messages : list Message;
  v_summaries : list string;
  v_lastActivity : Z;
  v_messageCount : Z
}.

Definition view_at (w : World) (r : nat) : option SessionView :=
  match objects w !! r with
  | None => None
  | Some o =>
      match messageArrays w !! messages o, stringArrays w !! summaries o with
      | Some ms, Some ss =>
          Some (mkView (sessionId o) ms ss (lastActivity o) (messageCount o))
      | _, _ => None
      end
  end.

Definition stored (w : World) (sid : string) : option SessionView :=
  match map_get sid (sessions w) with
  | None => None
  | Some r => view_at w r
  end.

(** The session id is unseen, or its record and arrays are on the heap. *)
Definition session_ok (w : World) (sid : string) : bool :=
  match map_get sid (sessions w) with
  | None => true
  | Some r => bool_decide (is_Some (view_at w r))
  end.

(** Every stored record is on the heap with its arrays, under the key
    that is its [sessionId], and no key occurs twice. *)
Definition store_ok (w : World) : bool :=
  forallb (fun kv : string * nat =>
             match view_at w (snd kv) with
             | Some v => String.eqb (fst kv) (v_sessionId v)
             | None => false
             end) (sessions w)
  && bool_decide (NoDup (map fst (sessions w))).

Definition views (w : World) : list SessionView :=
  omap (fun kv : string * nat => view_at w (snd kv)) (sessions w).

(** Contents of the arrays a context refers to. *)
Definition context_messages (w : World) (c : ConversationContext) : option (list Message) :=
  messageArrays w !! recentMessages c.
Definition context_summaries (w : World) (c : ConversationContext) : option (list string) :=
  stringArrays w !! c_summaries c.

(** ** corruption-recovery.ts

    The corruption guard is written against records whose fields may hold
    any value ([validateSessionData(data: any)], [validateMessage(message:
    any)]).  Its model keeps a stored record as a plain object with
    dynamically typed fields; values inside are compared and tested, never
    mutated through an alias, so they are carried by value. *)

Inductive JsVal : Type :=
| VUndefined
| VNull
| VBool (b : bool)
| VNum (n : JsNum)
| VStr (s : string)
| VDate (time : JsNum)             (* a Date; NaN is the Invalid Date *)
| VArr (elems : list JsVal)
| VObj (fields : list (string * JsVal)).

(** A plain object: its own properties, in creation order. *)
Definition Obj : Type := list (string * JsVal).

Definition truthy (v : JsVal) : bool :=
  match v with
  | VUndefined | VNull => false
  | VBool b => b
  | VNum NaN => false
  | VNum (Num z) => negb (z =? 0)
  | VStr s => truthy_string s
  | VDate _ | VArr _ | VObj _ => true
  end.

(** [v.name] for a [v] that is neither [null] nor [undefined]; the names
    read by the sources ([sessionId], [messages], [id], [role], ...) are
    own properties of plain objects only. *)
Definition field (v : JsVal) (name : string) : JsVal :=
  match v with
  | VObj fs => default VUndefined (map_get name fs)
  | _ => VUndefined
  end.

Definition is_string (v : JsVal) : bool := match v with VStr _ => true | _ => false end.
Definition is_number (v : JsVal) : bool := match v with VNum _ => true | _ => false end.
Definition is_array (v : JsVal) : bool := match v with VArr _ => true | _ => false end.
Definition is_date (v : JsVal) : bool := match v with VDate _ => true | _ => false end.

(** [isNaN(v.getTime())] for a Date [v] *)
Definition time_isNaN (v : JsVal) : bool :=
  match v with VDate (Num _) => false | _ => true end.

(** [v.length] *)
Definition js_length (v : JsVal) : JsVal :=
  match v with
  | VArr l => VNum (Num (Z.of_nat (length l)))
  | VStr s => VNum (Num (Z.of_nat (String.length s)))
  | _ => VUndefined
  end.

(** [a === b]; two objects are equal only when they are the same object,
    which two values read from different places here never are. *)
Definition strict_eq (a b : JsVal) : bool :=
  match a, b with
  | VUndefined, VUndefined => true
  | VNull, VNull => true
  | VBool x, VBool y => Bool.eqb x y
  | VNum (Num x), VNum (Num y) => x =? y
  | VStr x, VStr y => String.eqb x y
  | _, _ => false
  end.

(** Indices of the elements of an array that fail a test, as [forEach]
    visits them. *)
Fixpoint failing_from {A : Type} (ok : A -> bool) (l : list A) (i : nat) : list nat :=
  match l with
  | [] => []
  | x :: l' => (if ok x then [] else [i]) ++ failing_from ok l' (S i)
  end.

Inductive Issue : Type :=
| InvalidStructure                     (* 'Invalid session data structure' *)
| InvalidSessionId                     (* 'Invalid or missing session ID' *)
| MessagesNotArray                     (* 'Messages is not an array' *)
| InvalidMessageAt (index : nat)       (* 'Invalid message at index i' *)
| SummariesNotArray                    (* 'Summaries is not an array' *)
| InvalidSummaryAt (index : nat)       (* 'Invalid summary at index i' *)
| CountMismatch (count actual : JsVal) (* 'Message count mismatch: count=.., actual=..' *)
| InvalidTimestamp                     (* 'Invalid last activity timestamp' *)
| SessionDoesNotExist.                 (* 'Session does not exist' *)

Inductive Action : Type :=
| GeneratedSessionId                   (* 'Generated new session ID' *)
| ResetMessages                        (* 'Reset messages array' *)
| RemovedInvalidMessages (n : Z)       (* 'Removed n invalid messages' *)
| ResetSummaries                       (* 'Reset summaries array' *)
| RemovedInvalidSummaries (n : Z)      (* 'Removed n invalid summaries' *)
| CorrectedMessageCount                (* 'Corrected message count' *)
| ResetLastActivity                    (* 'Reset last activity timestamp' *)
| CreatedNewEmptySession               (* 'Created new empty session' *)
| CompleteReset                        (* 'Complete session reset - repair failed' *)
| EmergencyReset                       (* 'Emergency session reset due to recovery error' *)
| FailedToRecover.                     (* 'Failed to recover session' *)

Record Integrity : Type := mkIntegrity {
  isValid : bool;
  issues : list Issue
}.

Record CorruptionReport : Type := mkReport {
  rp_sessionId : string;
  isCorrupted : bool;
  rp_issues : list Issue;
  recovered : bool;
  recoveryActions : list Action
}.

Module Guard.

(** utils.ts, on any value *)
Definition validateSessionData (data : JsVal) : bool :=
  truthy data &&
  is_string (field data "sessionId") &&
  is_array (field data "messages") &&
  is_array (field data "summaries") &&
  is_date (field data "lastActivity") &&
  is_number (field data "messageCount").

Definition validateMessage (message : JsVal) : bool :=
  truthy message &&
  is_string (field message "id") &&
  match js_length (field message "id") with
  | VNum (Num n) => 0 <? n
  | _ => false
  end &&
  (strict_eq (field message "role") (VStr "user") ||
   strict_eq (field message "role") (VStr "assistant")) &&
  is_string (field message "content") &&
  is_date (field message "timestamp") &&
  negb (time_isNaN (field message "timestamp")).

(** [summary && typeof summary === 'string' && summary.trim().length > 0] *)
Definition validSummary (summary : JsVal) : bool :=
  truthy summary &&
  match summary with
  | VStr s => (0 <? String.length (js_trim s))%nat
  | _ => false
  end.

Definition validateSessionIntegrity (session : JsVal) : Integrity :=
  if negb (validateSessionData session) then mkIntegrity false [InvalidStructure]
  else
    let i1 :=
      if negb (truthy (field session "sessionId")) || negb (is_string (field session "sessionId"))
      then [InvalidSessionId] else [] in
    let i2 :=
      match field session "messages" with
      | VArr l => map InvalidMessageAt (failing_from validateMessage l 0)
      | _ => [MessagesNotArray]
      end in
    let i3 :=
      match field session "summaries" with
      | VArr l => map InvalidSummaryAt (failing_from validSummary l 0)
      | _ => [SummariesNotArray]
      end in
    let i4 :=
      if negb (strict_eq (field session "messageCount") (js_length (field session "messages")))
      then [CountMismatch (field session "messageCount") (js_length (field session "messages"))]
      else [] in
    let i5 :=
      if negb (is_date (field session "lastActivity")) || time_isNaN (field session "lastActivity")
      then [InvalidTimestamp] else [] in
    let all := i1 ++ i2 ++ i3 ++ i4 ++ i5 in
    mkIntegrity (length all =? 0)%nat all.

(** The state the guard runs in: the store, the clock, the random
    source behind [Math.random().toString(36).substr(2, 9)], and the
    error log. *)
Record State : Type := mkState {
  sessions : list (string * Obj);
  errors : list MemoryError;
  wall : nat -> Z;
  ticks : nat;
  random : nat -> string;
  draws : nat
}.

Definition set_sessions (x : list (string * Obj)) (s : State) : State :=
  mkState x (errors s) (wall s) (ticks s) (random s) (draws s).

(** [new Date()] and [Date.now()] *)
Definition newDate : M State Z :=
  fun s => (Ok (wall s (ticks s)),
            mkState (sessions s) (errors s) (wall s) (S (ticks s)) (random s) (draws s)).

Definition randomSuffix : M State string :=
  fun s => (Ok (random s (draws s)),
            mkState (sessions s) (errors s) (wall s) (ticks s) (random s) (S (draws s))).

Definition handleSessionError (error : JsError) (sid : string) : M State unit :=
  d <- newDate ;;
  fun s =>
    let all := errors s ++ [mkMemoryError ty_session
                              ("Session operation failed: " +:+ error_message error)
                              (Some sid) (Some error) d] in
    let kept := if (100 <? length all)%nat then js_slice (-100) None all else all in
    (Ok tt, mkState (sessions s) kept (wall s) (ticks s) (random s) (draws s)).

Definition createEmptySession (sid : string) : M State Obj :=
  d <- newDate ;;
  ret [("sessionId", VStr sid);
       ("messages", VArr []);
       ("summaries", VArr []);
       ("lastActivity", VDate (Num d));
       ("messageCount", VNum (Num 0))].

(** session-storage.ts.  The store holds plain objects, which are
    truthy: [getSession] finds the record of a known id and touches it
    in place. *)
Definition hasSession (sid : string) : M State bool :=
  fun s => (Ok (map_has sid (sessions s)), s).

Definition getSession (sid : string) : M State Obj :=
  fun s =>
    match map_get sid (sessions s) with
    | None =>
        (session <- createEmptySession sid ;;
         (fun s' => (Ok tt, set_sessions (map_set sid session (sessions s')) s')) ;;
         ret session) s
    | Some session =>
        (d <- newDate ;;
         let touched := map_set "lastActivity" (VDate (Num d)) session in
         (fun s' => (Ok tt, set_sessions (map_set sid touched (sessions s')) s')) ;;
         ret touched) s
    end.

Definition updateSession (sid : string) (sessionData : Obj) : M State unit :=
  if negb (validateSessionData (VObj sessionData))
  then throw (Error ("Invalid session data for session " +:+ sid))
  else
    d <- newDate ;;
    let touched := map_set "lastActivity" (VDate (Num d)) sessionData in
    fun s => (Ok tt, set_sessions (map_set sid touched (sessions s)) s).

(** [repairSessionData]: works on the copy [{ ...session }]. *)
Definition repairSessionData (session : Obj) : M State (Obj * list Action) :=
  let repaired := session in
  step1 <-
    (if negb (truthy (field (VObj repaired) "sessionId")) then
       now <- newDate ;;
       r <- randomSuffix ;;
       ret (map_set "sessionId" (VStr ("recovered_" +:+ pretty now +:+ "_" +:+ r)) repaired,
            [GeneratedSessionId])
     else ret (repaired, [])) ;;
  let '(repaired, a1) := step1 in
  let '(repaired, a2) :=
    match field (VObj repaired) "messages" with
    | VArr l =>
        let validMessages := filter (fun m => validateMessage m = true) l in
        if negb (length validMessages =? length l)%nat then
          (map_set "messages" (VArr validMessages) repaired,
           [RemovedInvalidMessages
              (Z.of_nat (length validMessages) - Z.of_nat (length validMessages))])
        else (repaired, [])
    | _ => (map_set "messages" (VArr []) repaired, [ResetMessages])
    end in
  let '(repaired, a3) :=
    match field (VObj repaired) "summaries" with
    | VArr l =>
        let validSummaries := filter (fun x => validSummary x = true) l in
        if negb (length validSummaries =? length l)%nat then
          (map_set "summaries" (VArr validSummaries) repaired,
           [RemovedInvalidSummaries
              (Z.of_nat (length validSummaries) - Z.of_nat (length validSummaries))])
        else (repaired, [])
    | _ => (map_set "summaries" (VArr []) repaired, [ResetSummaries])
    end in
  let '(repaired, a4) :=
    if negb (strict_eq (field (VObj repaired) "messageCount")
                       (js_length (field (VObj repaired) "messages")))
    then (map_set "messageCount" (js_length (field (VObj repaired) "messages")) repaired,
          [CorrectedMessageCount])
    else (repaired, []) in
  step5 <-
    (if negb (is_date (field (VObj repaired) "lastActivity"))
        || time_isNaN (field (VObj repaired) "lastActivity")
     then
       d <- newDate ;;
       ret (map_set "lastActivity" (VDate (Num d)) repaired, [ResetLastActivity])
     else ret (repaired, [])) ;;
  let '(repaired, a5) := step5 in
  ret (repaired, a1 ++ a2 ++ a3 ++ a4 ++ a5).

(** The local variable [report] of [detectAndRecoverCorruption] is
    assigned step by step and is read again by the [catch] clause, so it
    is part of the state while the function runs. *)
Definition lift {A : Type} (m : M State A) : M (State * CorruptionReport) A :=
  fun sr =>
    match m (fst sr) with
    | (x, s') => (x, (s', snd sr))
    end.

Definition modify_report (f : CorruptionReport -> CorruptionReport)
  : M (State * CorruptionReport) unit :=
  fun sr => (Ok tt, (fst sr, f (snd sr))).

Definition the_report : M (State * CorruptionReport) CorruptionReport :=
  fun sr => (Ok (snd sr), sr).

Definition set_isCorrupted (b : bool) (r : CorruptionReport) : CorruptionReport :=
  mkReport (rp_sessionId r) b (rp_issues r) (recovered r) (recoveryActions r).
Definition set_issues (l : list Issue) (r : CorruptionReport) : CorruptionReport :=
  mkReport (rp_sessionId r) (isCorrupted r) l (recovered r) (recoveryActions r).
Definition set_recovered (b : bool) (r : CorruptionReport) : CorruptionReport :=
  mkReport (rp_sessionId r) (isCorrupted r) (rp_issues r) b (recoveryActions r).
Definition set_recoveryActions (l : list Action) (r : CorruptionReport) : CorruptionReport :=
  mkReport (rp_sessionId r) (isCorrupted r) (rp_issues r) (recovered r) l.

Definition detect_body (sid : string) : M (State * CorruptionReport) CorruptionReport :=
  try_catch
    (known <- lift (hasSession sid) ;;
     if negb known then
       modify_report (fun r => set_issues (rp_issues r ++ [SessionDoesNotExist]) r) ;;
       emptySession <- lift (createEmptySession sid) ;;
       lift (updateSession sid emptySession) ;;
       modify_report (set_recovered true) ;;
       modify_report (fun r => set_recoveryActions (recoveryActions r ++ [CreatedNewEmptySession]) r) ;;
       the_report
     else
       session <- lift (getSession sid) ;;
       let validation := validateSessionIntegrity (VObj session) in
       (if negb (isValid validation) then
          modify_report (set_isCorrupted true) ;;
          modify_report (set_issues (issues validation)) ;;
          repair <- lift (repairSessionData session) ;;
          let repairedValidation := validateSessionIntegrity (VObj (fst repair)) in
          if isValid repairedValidation then
            lift (updateSession sid (fst repair)) ;;
            modify_report (set_recovered true) ;;
            modify_report (set_recoveryActions (snd repair))
          else
            emptySession <- lift (createEmptySession sid) ;;
            lift (updateSession sid emptySession) ;;
            modify_report (set_recovered true) ;;
            modify_report (set_recoveryActions [CompleteReset])
        else ret tt) ;;
       the_report)
    (fun error =>
       lift (handleSessionError error sid) ;;
       try_catch
         (emptySession <- lift (createEmptySession sid) ;;
          lift (updateSession sid emptySession) ;;
          modify_report (set_recovered true) ;;
          modify_report (set_recoveryActions [EmergencyReset]))
         (fun resetError =>
            modify_report (set_recovered false) ;;
            modify_report (set_recoveryActions [FailedToRecover])) ;;
       the_report).

Definition detectAndRecoverCorruption (sid : string) : M State CorruptionReport :=
  fun s =>
    match detect_body sid (s, mkReport sid false [] false []) with
    | (x, (s', _)) => (x, s')
    end.

(** A record in which everything but the count is as the guard wants
    it: a non-empty string id, arrays of valid messages and of valid
    summaries, a valid date, a number for the count. *)
Definition well_formed (o : Obj) : bool :=
  validateSessionData (VObj o) &&
  truthy (field (VObj o) "sessionId") &&
  match field (VObj o) "messages" with
  | VArr l => forallb validateMessage l
  | _ => false
  end &&
  match field (VObj o) "summaries" with
  | VArr l => forallb validSummary l
  | _ => false
  end &&
  negb (time_isNaN (field (VObj o) "lastActivity")).

End Guard.

(** The plain object that a stored record of the manager is. *)
Definition raw_message (m : Message) : JsVal :=
  VObj [("id", VStr (msg_id m));
        ("role", VStr (match role m with user => "user" | assistant => "assistant" end));
        ("content", VStr (content m));
        ("timestamp", VDate (Num (timestamp m)))].

Definition raw_session (v : SessionView) : Obj :=
  [("sessionId", VStr (v_sessionId v));
   ("messages", VArr (map raw_message (v_messages v)));
   ("summaries", VArr (map VStr (v_summaries v)));
   ("lastActivity", VDate (Num (v_lastActivity v)));
   ("messageCount", VNum (Num (v_messageCount v)))].

(** Session [sid] is the object [o] at reference [r], its arrays holding
    [ms] and [ss]. *)
Definition At (w : World) (sid : string) (r : nat) (o : SessionData)
    (ms : list Message) (ss : list string) : Prop :=
  map_get sid (sessions w) = Some r /\
  objects w !! r = Some o /\
  messageArrays w !! messages o = Some ms /\
  stringArrays w !! summaries o = Some ss.

Definition view_of (o : SessionData) (ms : list Message) (ss : list string) : SessionView :=
  mkView (sessionId o) ms ss (lastActivity o) (messageCount o).

(** ** Concrete inputs used by the examples below *)

Definition env_unset : Env := mkEnv None None None None None.

(** Only [MEMORY_THRESHOLD=5] is set: in its range, below the default
    [recentMessagesLimit] of 6. *)
Definition env_threshold_5 : Env := mkEnv (Some "5") None None None None.

Definition sample_clock (n : nat) : Z := 1000 + Z.of_nat n.

Definition sample_message (n : nat) : Message :=
  mkMessage ("m" +:+ pretty n) (if Nat.even n then assistant else user) "osu" (Z.of_nat n).

(** Generators: one that answers, one whose call fails, one that is not
    configured. *)
Definition generator_ok : SummaryGenerator :=
  mkGenerator true (fun _ => Ok "SUMMARY-1").
Definition generator_failing : SummaryGenerator :=
  mkGenerator true (fun _ => Throw (Error "Summary generation failed: Rate limit exceeded")).
Definition generator_off : SummaryGenerator :=
  mkGenerator false
    (fun _ => Throw (Error "SummaryGenerator is not available - API key not configured or initialization failed")).

(** [addMessage] for each message of a list, in order, stopping at the
    first call that throws. *)
Definition addMessages (cfg : MemoryConfig) (gen : SummaryGenerator) (sid : string)
    (msgs : list Message) : M World unit :=
  foldM (fun _ m => addMessage cfg gen sid m) msgs tt.

(** Session "s1" after its first nine messages, under the default
    configuration. *)
Definition world_nine : World :=
  snd (addMessages (loadMemoryConfig env_unset) generator_ok "s1"
         (map sample_message (seq 1 9)) (boot sample_clock)).

(** Session "s1" after ten messages and one successful summarization. *)
Definition world_summarized : World :=
  snd (addMessages (loadMemoryConfig env_unset) generator_ok "s1"
         (map sample_message (seq 1 10)) (boot sample_clock)).

(** What a summarization attempt makes of a session with lifetime count
    [count], messages [ms] and summaries [ss]: the outcome of the call,
    the messages and the summaries it leaves.  [triggerSummarization] is
    proved below to do exactly this to the stored record. *)
Definition summarization_outcome (cfg : MemoryConfig) (gen : SummaryGenerator)
    (count : Z) (ms : list Message) (ss : list string)
  : Res unit * list Message * list string :=
  if negb (memoryThreshold cfg <=? count) then (Ok tt, ms, ss)
  else if negb (isAvailable gen) then (Ok tt, ms, ss)
  else if (length (getMessagesToSummarize cfg ms) =? 0)%nat then (Ok tt, ms, ss)
  else
    match generateSummary gen (getMessagesToSummarize cfg ms) with
    | Throw e => (Throw (ReferenceError "session is not defined"), ms, ss)
    | Ok summary =>
        if truthy_string summary && (0 <? String.length (js_trim summary))%nat
        then (Ok tt, getRecentMessages cfg ms, ss ++ [summary])
        else (Ok tt, ms, ss)
    end.

(** Session "s1" after twelve messages while the generator was not
    configured: nothing was summarized. *)
Definition world_twelve : World :=
  snd (addMessages (loadMemoryConfig env_unset) generator_off "s1"
         (map sample_message (seq 1 12)) (boot sample_clock)).

(** The state [getContext] leaves for a session it finds: the record is
    touched, and three arrays are new, the slice and the two copies. *)
Definition after_getContext_known (cfg : MemoryConfig) (w : World) (r : nat)
    (o : SessionData) (ms : list Message) (ss : list string) : World :=
  let recent := js_slice (- recentMessagesLimit cfg) None ms in
  mkWorld (<[r := with_lastActivity (wall w (ticks w)) o]> (objects w))
          (messageArrays w ++ [recent; recent])
          (stringArrays w ++ [ss])
          (sessions w) (errors w) (wall w) (S (ticks w)).

(** The state [getContext] leaves for an unseen id: an empty record with
    its two arrays is created and stored, then read as above. *)
Definition after_getContext_unseen (w : World) (sid : string) : World :=
  mkWorld (objects w ++ [mkSession sid (length (messageArrays w)) (length (stringArrays w))
                           (wall w (ticks w)) 0])
          (messageArrays w ++ [[]; []; []])
          (stringArrays w ++ [[]; []])
          (map_set sid (length (objects w)) (sessions w))
          (errors w) (wall w) (S (ticks w)).

(** A caller writes [xs] and [ys] into the arrays of a context. *)
Definition overwrite_context (c : ConversationContext) (xs : list Message)
    (ys : list string) (w : World) : World :=
  set_messageArrays (<[recentMessages c := xs]> (messageArrays w))
    (set_stringArrays (<[c_summaries c := ys]> (stringArrays w)) w).

Definition touched (t : Z) (v : SessionView) : SessionView :=
  mkView (v_sessionId v) (v_messages v) (v_summaries v) t (v_messageCount v).

(** Every stored record is on the heap with its arrays. *)
Definition heap_ok (w : World) : bool :=
  forallb (fun kv : string * nat => bool_decide (is_Some (view_at w (snd kv)))) (sessions w).

Definition sum_Z (l : list Z) : Z := foldr Z.add 0 l.

(** The view of an object whose arrays are on the heap. *)
Definition view_obj (w : World) (o : SessionData) : SessionView :=
  view_of o (default [] (messageArrays w !! messages o))
            (default [] (stringArrays w !! summaries o)).

(** The order of the eviction sort. *)
Definition by_activity (a b : SessionData) : Prop := lastActivity a <= lastActivity b.

(** The body of the eviction loop, for the session at hand. *)
Definition evict_one (removedCount : Z) (s : SessionData) : M World Z :=
  deleted <- deleteSession (sessionId s) ;;
  ret (if deleted : bool then removedCount + 1 else removedCount).

(** [MAX_SESSIONS=3], and four sessions touched in the order a, b, c, d. *)
Definition env_cap_3 : Env := mkEnv None None None (Some "3") None.

Definition world_four : World :=
  snd ((getSession "a" ;; getSession "b" ;; getSession "c" ;; getSession "d")
         (boot sample_clock)).

(** [session.lastActivity = new Date()] on a plain object. *)
Definition touch (d : Z) (o : Obj) : Obj := map_set "lastActivity" (VDate (Num d)) o.

(** The state [getSession] leaves when it finds the record [rec]. *)
Definition guard_touched (sid : string) (rec : Obj) (s : Guard.State) : Guard.State :=
  Guard.mkState (map_set sid (touch (Guard.wall s (Guard.ticks s)) rec) (Guard.sessions s))
    (Guard.errors s) (Guard.wall s) (S (Guard.ticks s)) (Guard.random s) (Guard.draws s).

(** Scenario 5 of the specification: the second message has no
    [timestamp]. *)
Definition record_missing_timestamp : Obj :=
  [("sessionId", VStr "s1");
   ("messages",
    VArr [raw_message (sample_message 1);
          VObj [("id", VStr "m2"); ("role", VStr "assistant"); ("content", VStr "osu")]]);
   ("summaries", VArr []);
   ("lastActivity", VDate (Num 7));
   ("messageCount", VNum (Num 2))].

Definition guard_state_corrupted : Guard.State :=
  Guard.mkState [("s1", record_missing_timestamp)] [] sample_clock 0 (fun _ => "k3v9x2m1q") 0.

(** The record of a summarized session: six messages kept, ten counted. *)
Definition record_summarized : Obj :=
  raw_session (mkView "s1" (map sample_message (seq 5 6)) ["SUMMARY-1"] 1030 10).

(** The record [createEmptySession] builds at time [d]. *)
Definition empty_record (sid : string) (d : Z) : Obj :=
  [("sessionId", VStr sid);
   ("messages", VArr []);
   ("summaries", VArr []);
   ("lastActivity", VDate (Num d));
   ("messageCount", VNum (Num 0))].

Definition guard_tick (s : Guard.State) : Guard.State :=
  Guard.mkState (Guard.sessions s) (Guard.errors s) (Guard.wall s) (S (Guard.ticks s))
    (Guard.random s) (Guard.draws s).

(** [store_ok] as a proposition. *)
Definition StoreOK (w : World) : Prop :=
  NoDup (map fst (sessions w)) /\
  forall k r, (k, r) ∈ sessions w ->
    exists o, objects w !! r = Some o /\ sessionId o = k /\
              (messages o < length (messageArrays w))%nat /\
              (summaries o < length (stringArrays w))%nat.

(** A computation keeps a property of the state, whether it returns or
    throws. *)
Definition keeps {A : Type} (I : World -> Prop) (m : M World A) : Prop :=
  forall w, I w -> I (m w).2.

(** The store is in order and session [sid] is the object at [r]. *)
Definition Holding (sid : string) (r : nat) (w : World) : Prop :=
  StoreOK w /\ map_get sid (sessions w) = Some r.

(** The calls a client of the manager can make. *)
Inductive ManagerCall : Type :=
| CallAddMessage (sid : string) (message : Message)
| CallGetContext (sid : string)
| CallClearSession (sid : string)
| CallCleanupInactiveSessions
| CallGetMemoryStats
| CallHasSession (sid : string).

Definition after_call (cfg : MemoryConfig) (gen : SummaryGenerator) (w : World)
    (c : ManagerCall) : World :=
  match c with
  | CallAddMessage sid message => (addMessage cfg gen sid message w).2
  | CallGetContext sid => (getContext cfg sid w).2
  | CallClearSession sid => (manager_clearSession sid w).2
  | CallCleanupInactiveSessions => (cleanupInactiveSessions cfg w).2
  | CallGetMemoryStats => (getMemoryStats w).2
  | CallHasSession sid => (hasSession sid w).2
  end.

(** The state after a sequence of calls on a fresh process. *)
Definition after_calls (cfg : MemoryConfig) (gen : SummaryGenerator) (clock : nat -> Z)
    (cs : list ManagerCall) : World :=
  foldl (after_call cfg gen) (boot clock) cs.

(** A computation that keeps the store in order and does not touch the
    map of sessions. *)
Definition quiet {A : Type} (m : M World A) : Prop :=
  forall w, StoreOK w -> StoreOK (m w).2 /\ sessions (m w).2 = sessions w.

(** ** Validators of the configuration

    summarization-utils.ts [validateSummarizationConfig] and
    config-validator.ts [validateEnvironmentVariables].  The error texts of
    [validateSummarizationConfig] are those of [validateMemoryConfig]. *)

Record SummarizationConfigCheck : Type := mkSummarizationConfigCheck {
  sc_isValid : bool;
  sc_errors : list ConfigError
}.

Definition validateSummarizationConfig (config : MemoryConfig) : SummarizationConfigCheck :=
  let e1 := if memoryThreshold config <=? 0 then [ThresholdNotPositive] else [] in
  let e2 := if recentMessagesLimit config <=? 0 then [RecentLimitNotPositive] else [] in
  let e3 := if memoryThreshold config <=? recentMessagesLimit config
            then [RecentLimitNotBelowThreshold] else [] in
  let errors := e1 ++ e2 ++ e3 in
  {| sc_isValid := (length errors =? 0)%nat; sc_errors := errors |}.

Inductive EnvIssue : Type :=
| NotAValidNumber              (* 'Not a valid number' *)
| BelowMinimum (min : Z)       (* 'Below minimum value min' *)
| AboveMaximum (max : Z)       (* 'Above maximum value max' *)
| TooShort (minLength : Z).    (* 'Too short (minimum n characters)' *)

Record InvalidVar : Type := mkInvalidVar {
  iv_name : string;
  iv_value : string;
  iv_issue : EnvIssue
}.

Inductive EnvSuggestion : Type :=
| SuggestGeminiKey             (* 'Set GEMINI_API_KEY to enable conversation summarization' *)
| SuggestDefaultsUsed.         (* 'Missing environment variables will use default values' *)

Record EnvReport : Type := mkEnvReport {
  er_valid : list string;
  er_invalid : list InvalidVar;
  er_missing : list string;
  er_suggestions : list EnvSuggestion
}.

(** An entry of the table [envVars]: [{ name, current, type: 'number',
    min, max }] or [{ name, current, type: 'string', minLength }]. *)
Inductive EnvVarType : Type :=
| NumberVar (min max : Z)
| StringVar (minLength : Z).

Record EnvVar : Type := mkEnvVar {
  ev_name : string;
  ev_current : option string;
  ev_type : EnvVarType
}.

Definition envVars (env : Env) : list EnvVar :=
  [mkEnvVar "MEMORY_THRESHOLD" (MEMORY_THRESHOLD env) (NumberVar 1 100);
   mkEnvVar "RECENT_MESSAGES_LIMIT" (RECENT_MESSAGES_LIMIT env) (NumberVar 1 20);
   mkEnvVar "SESSION_TIMEOUT_HOURS" (SESSION_TIMEOUT_HOURS env) (NumberVar 1 168);
   mkEnvVar "MAX_SESSIONS" (MAX_SESSIONS env) (NumberVar 1 10000);
   mkEnvVar "GEMINI_API_KEY" (GEMINI_API_KEY env) (StringVar 20)].

(** The body of the loop over [envVars]: one push, to [missing], to
    [invalid] or to [valid].  [envVar.min && parsed < envVar.min] tests
    the bound only when it is not 0. *)
Definition check_envVar (r : EnvReport) (envVar : EnvVar) : EnvReport :=
  let name := ev_name envVar in
  let to_invalid value issue :=
    mkEnvReport (er_valid r) (er_invalid r ++ [mkInvalidVar name value issue])
                (er_missing r) (er_suggestions r) in
  let to_valid :=
    mkEnvReport (er_valid r ++ [name]) (er_invalid r) (er_missing r) (er_suggestions r) in
  match ev_current envVar with
  | None =>
      mkEnvReport (er_valid r) (er_invalid r) (er_missing r ++ [name]) (er_suggestions r)
  | Some current =>
      if negb (truthy_string current) then
        mkEnvReport (er_valid r) (er_invalid r) (er_missing r ++ [name]) (er_suggestions r)
      else
        match ev_type envVar with
        | NumberVar min max =>
            match parseInt10 current with
            | NaN => to_invalid current NotAValidNumber
            | Num parsed =>
                if negb (min =? 0) && (parsed <? min) then to_invalid current (BelowMinimum min)
                else if negb (max =? 0) && (max <? parsed) then to_invalid current (AboveMaximum max)
                else to_valid
            end
        | StringVar minLength =>
            if negb (minLength =? 0) && (Z.of_nat (String.length current) <? minLength)
            then to_invalid (substring 0 10 current +:+ "...") (TooShort minLength)
            else to_valid
        end
  end.

Definition validateEnvironmentVariables (env : Env) : EnvReport :=
  let r := foldl check_envVar (mkEnvReport [] [] [] []) (envVars env) in
  let s1 := if bool_decide ("GEMINI_API_KEY" ∈ er_missing r) then [SuggestGeminiKey] else [] in
  let s2 := if (0 <? length (er_missing r))%nat then [SuggestDefaultsUsed] else [] in
  mkEnvReport (er_valid r) (er_invalid r) (er_missing r) (s1 ++ s2).

(** What the loop of [validateEnvironmentVariables] decides for one
    entry of its table. *)
Inductive EnvVarStatus : Type :=
| EnvValid
| EnvInvalid (value : string) (issue : EnvIssue)
| EnvMissing.

Definition envVar_status (envVar : EnvVar) : EnvVarStatus :=
  match ev_current envVar with
  | None => EnvMissing
  | Some current =>
      if negb (truthy_string current) then EnvMissing
      else
        match ev_type envVar with
        | NumberVar min max =>
            match parseInt10 current with
            | NaN => EnvInvalid current NotAValidNumber
            | Num parsed =>
                if negb (min =? 0) && (parsed <? min) then EnvInvalid current (BelowMinimum min)
                else if negb (max =? 0) && (max <? parsed) then EnvInvalid current (AboveMaximum max)
                else EnvValid
            end
        | StringVar minLength =>
            if negb (minLength =? 0) && (Z.of_nat (String.length current) <? minLength)
            then EnvInvalid (substring 0 10 current +:+ "...") (TooShort minLength)
            else EnvValid
        end
  end.

(** ** summarization-utils.ts: statistics of a session *)

Record SummarizationStats : Type := mkSummarizationStats {
  ss_totalMessages : Z;
  ss_messagesToSummarize : Z;
  ss_recentMessages : Z;
  ss_summariesCount : Z;
  ss_needsSummarization : bool
}.

Section SummarizationUtils.

Variable memoryConfig : MemoryConfig.

Definition calculateSummarizationStats (session : nat) : M World SummarizationStats :=
  o <- readSession session ;;
  msgs <- readMessages (messages o) ;;
  sums <- readStrings (summaries o) ;;
  let messagesToSummarize := getMessagesToSummarize memoryConfig msgs in
  let recentMessages := getRecentMessages memoryConfig msgs in
  ret (mkSummarizationStats (messageCount o)
         (Z.of_nat (length messagesToSummarize))
         (Z.of_nat (length recentMessages))
         (Z.of_nat (length sums))
         (needsSummarization memoryConfig o)).

End SummarizationUtils.

(** A clock that jumps by more than a day after its first reading, and
    two sessions, "a" created before the jump and "b" after it. *)
Definition clock_with_gap (n : nat) : Z :=
  match n with O => 1000 | _ => 100000000 + Z.of_nat n end.

Definition world_stale : World :=
  snd ((getSession "a" ;; getSession "b") (boot clock_with_gap)).

(** The state [clearSession] leaves: a fresh record with its two arrays,
    stored under the id. *)
Definition after_clearSession (w : World) (sid : string) : World :=
  mkWorld (objects w ++ [mkSession sid (length (messageArrays w)) (length (stringArrays w))
                           (wall w (ticks w)) 0])
          (messageArrays w ++ [[]])
          (stringArrays w ++ [[]])
          (map_set sid (length (objects w)) (sessions w))
          (errors w) (wall w) (S (ticks w)).

(** ** error-handler.ts: the statistics of the log and the health check *)

(** The string a [type] is, as the key of [errorsByType]. *)
Definition type_name (t : ErrorType) : string :=
  match t with
  | ty_storage => "storage"
  | ty_summarization => "summarization"
  | ty_session => "session"
  | ty_validation => "validation"
  | ty_api => "api"
  end.

Record ErrorStats : Type := mkErrorStats {
  totalErrors : Z;
  errorsByType : list (string * Z);   (* a plain object: keys in creation order *)
  recentErrors : list MemoryError;
  lastError : option MemoryError
}.

(** [errorsByType[error.type] = (errorsByType[error.type] || 0) + 1] *)
Definition count_error (errorsByType : list (string * Z)) (error : MemoryError)
  : list (string * Z) :=
  map_set (type_name (me_type error))
          (default 0 (map_get (type_name (me_type error)) errorsByType) + 1)
          errorsByType.

Definition logger_getStats : M World ErrorStats :=
  fun w =>
    let errorsByType := foldl count_error [] (errors w) in
    (Ok (mkErrorStats (Z.of_nat (length (errors w))) errorsByType
           (js_slice (-10) None (errors w)) (last (errors w))), w).

#[global] Instance ErrorType_eq_dec : EqDecision ErrorType.
Proof. solve_decision. Defined.

Definition clearErrors : M World unit :=
  fun w => (Ok tt, set_errors [] w).

Definition getErrorsByType (t : ErrorType) : M World (list MemoryError) :=
  fun w => (Ok (filter (fun error => me_type error = t) (errors w)), w).

Definition getErrorsBySession (sid : string) : M World (list MemoryError) :=
  fun w => (Ok (filter (fun error => me_sessionId error = Some sid) (errors w)), w).

Inductive HealthIssue : Type :=
| HighErrorRate (errorRate : Q)        (* 'High error rate: r errors/minute' *)
| MultipleCriticalErrors (n : Z).      (* 'Multiple critical errors: n in last 10 minutes' *)

Record SystemHealth : Type := mkSystemHealth {
  sh_healthy : bool;
  sh_issues : list HealthIssue;
  sh_errorRate : Q
}.

Definition isMemorySystemHealthy : M World SystemHealth :=
  stats <- logger_getStats ;;
  now <- newDate ;;
  let tenMinutesAgo := now - 10 * 60 * 1000 in
  let recent := filter (fun error => tenMinutesAgo < me_timestamp error) (recentErrors stats) in
  let errorRate := (inject_Z (Z.of_nat (length recent)) / 10)%Q in
  let i1 := if negb (Qle_bool errorRate 1) then [HighErrorRate errorRate] else [] in
  let criticalErrors :=
    filter (fun error => me_type error = ty_storage \/ me_type error = ty_api) recent in
  let i2 := if (3 <? length criticalErrors)%nat
            then [MultipleCriticalErrors (Z.of_nat (length criticalErrors))] else [] in
  let issues := i1 ++ i2 in
  ret (mkSystemHealth (length issues =? 0)%nat issues errorRate).

(** ** session-operations.ts *)

Inductive ClearMessage : Type :=
| InvalidSessionIdProvided        (* 'Invalid session ID provided' *)
| ClearingVerificationFailed      (* 'Session clearing verification failed' *)
| ClearedRemoving (messageCount summariesCount : Z)
    (* 'Session cleared successfully. Removed m messages and s summaries.' *)
| ClearedSuccessfully             (* 'Session cleared successfully.' *)
| FailedToClear (reason : string) (* 'Failed to clear session: reason' *)
| ResetVerificationFailed         (* 'Session reset verification failed' *)
| ResetRemoving (messageCount summariesCount : Z)
    (* 'Session reset successfully. Removed m messages and s summaries.' *)
| ResetSuccessfully               (* 'Session reset successfully.' *)
| FailedToReset (reason : string). (* 'Failed to reset session: reason' *)

Record PreviousStats : Type := mkPreviousStats {
  ps_messageCount : Z;
  ps_summariesCount : Z
}.

Record SessionClearResult : Type := mkClearResult {
  cr_success : bool;
  cr_sessionId : string;
  cr_message : ClearMessage;
  cr_previousStats : option PreviousStats
}.

Inductive StateIssue : Type :=
| SessionIdIsEmpty                (* 'Session ID is empty' *)
| SessionNotExisting              (* 'Session does not exist' *)
| InvalidTotalCount               (* 'Invalid total message count' *)
| EmptySummariesFound             (* 'Empty summaries found' *)
| InvalidMessagesFound            (* 'Invalid messages found' *)
| ValidationError (reason : string). (* 'Validation error: reason' *)

Record SessionStateStats : Type := mkStateStats {
  sst_messageCount : Z;
  sst_summariesCount : Z;
  sst_recentMessagesCount : Z
}.

Record SessionStateReport : Type := mkStateReport {
  sr_isValid : bool;
  sr_issues : list StateIssue;
  sr_stats : SessionStateStats
}.

(** A local variable that a [catch] clause reads after the [try] block
    has assigned it: it is carried beside the state. *)
Definition with_local {S L A : Type} (m : M S A) : M (S * L) A :=
  fun sl =>
    match m (fst sl) with
    | (x, s') => (x, (s', snd sl))
    end.

Definition modify_local {S L : Type} (f : L -> L) : M (S * L) unit :=
  fun sl => (Ok tt, (fst sl, f (snd sl))).

Definition read_local {S L : Type} : M (S * L) L :=
  fun sl => (Ok (snd sl), sl).

Definition run_local {S L A : Type} (init : L) (m : M (S * L) A) : M S A :=
  fun s =>
    match m (s, init) with
    | (x, (s', _)) => (x, s')
    end.

Section SessionOperations.

Variable memoryConfig : MemoryConfig.

Definition clearSessionWithConfirmation (sid : string) : M World SessionClearResult :=
  try_catch
    (if negb (truthy_string sid) then
       ret (mkClearResult false "" InvalidSessionIdProvided None)
     else
       known <- hasSession sid ;;
       previousStats <-
         (if known : bool then
            context <- getContext memoryConfig sid ;;
            sums <- readStrings (c_summaries context) ;;
            ret (Some (mkPreviousStats (totalMessages context) (Z.of_nat (length sums))))
          else ret None) ;;
       manager_clearSession sid ;;
       contextAfter <- getContext memoryConfig sid ;;
       sumsAfter <- readStrings (c_summaries contextAfter) ;;
       let isCleared := (totalMessages contextAfter =? 0) && (length sumsAfter =? 0)%nat in
       if negb isCleared then
         ret (mkClearResult false sid ClearingVerificationFailed previousStats)
       else
         ret (mkClearResult true sid
                match previousStats with
                | Some p => ClearedRemoving (ps_messageCount p) (ps_summariesCount p)
                | None => ClearedSuccessfully
                end
                previousStats))
    (fun error => ret (mkClearResult false sid (FailedToClear (error_message error)) None)).

Definition resetSession (sid : string) : M World SessionClearResult :=
  try_catch
    (clearResult <- clearSessionWithConfirmation sid ;;
     if negb (cr_success clearResult) then ret clearResult
     else
       context <- getContext memoryConfig sid ;;
       sums <- readStrings (c_summaries context) ;;
       recent <- readMessages (recentMessages context) ;;
       let isFresh := (totalMessages context =? 0) && (length sums =? 0)%nat
                      && (length recent =? 0)%nat in
       if negb isFresh then
         ret (mkClearResult false sid ResetVerificationFailed (cr_previousStats clearResult))
       else
         ret (mkClearResult (cr_success clearResult) (cr_sessionId clearResult)
                match cr_previousStats clearResult with
                | Some p => ResetRemoving (ps_messageCount p) (ps_summariesCount p)
                | None => ResetSuccessfully
                end
                (cr_previousStats clearResult)))
    (fun error => ret (mkClearResult false sid (FailedToReset (error_message error)) None)).

(** [issues] is filled by the [try] block and read by the [catch]
    clause. *)
Definition validateSessionState (sid : string) : M World SessionStateReport :=
  run_local []
    (try_catch
       ((if negb (truthy_string sid)
         then modify_local (fun issues => issues ++ [SessionIdIsEmpty]) else ret tt) ;;
        known <- with_local (hasSession sid) ;;
        (if negb known
         then modify_local (fun issues => issues ++ [SessionNotExisting]) else ret tt) ;;
        context <- with_local (getContext memoryConfig sid) ;;
        (if totalMessages context <? 0
         then modify_local (fun issues => issues ++ [InvalidTotalCount]) else ret tt) ;;
        sums <- with_local (readStrings (c_summaries context)) ;;
        (if existsb (fun s => negb (truthy_string s) || (String.length (js_trim s) =? 0)%nat) sums
         then modify_local (fun issues => issues ++ [EmptySummariesFound]) else ret tt) ;;
        recent <- with_local (readMessages (recentMessages context)) ;;
        (if existsb (fun m => negb (truthy_string (msg_id m)) || negb (truthy_string (content m)))
                    recent
         then modify_local (fun issues => issues ++ [InvalidMessagesFound]) else ret tt) ;;
        issues <- read_local ;;
        ret (mkStateReport (length issues =? 0)%nat issues
               (mkStateStats (totalMessages context) (Z.of_nat (length sums))
                             (Z.of_nat (length recent)))))
       (fun error =>
          modify_local (fun issues => issues ++ [ValidationError (error_message error)]) ;;
          issues <- read_local ;;
          ret (mkStateReport false issues (mkStateStats 0 0 0)))).

End SessionOperations.

(** ** The steps of [repairSessionData]

    The five blocks of the function, one after the other, each on the
    record the one before has left. *)

Definition repair_sessionId (repaired : Obj) : M Guard.State (Obj * list Action) :=
  if negb (truthy (field (VObj repaired) "sessionId")) then
    now <- Guard.newDate ;;
    r <- Guard.randomSuffix ;;
    ret (map_set "sessionId" (VStr ("recovered_" +:+ pretty now +:+ "_" +:+ r)) repaired,
         [GeneratedSessionId])
  else ret (repaired, []).

Definition repair_messages (repaired : Obj) : Obj * list Action :=
  match field (VObj repaired) "messages" with
  | VArr l =>
      let validMessages := filter (fun m => Guard.validateMessage m = true) l in
      if negb (length validMessages =? length l)%nat then
        (map_set "messages" (VArr validMessages) repaired,
         [RemovedInvalidMessages
            (Z.of_nat (length validMessages) - Z.of_nat (length validMessages))])
      else (repaired, [])
  | _ => (map_set "messages" (VArr []) repaired, [ResetMessages])
  end.

Definition repair_summaries (repaired : Obj) : Obj * list Action :=
  match field (VObj repaired) "summaries" with
  | VArr l =>
      let validSummaries := filter (fun x => Guard.validSummary x = true) l in
      if negb (length validSummaries =? length l)%nat then
        (map_set "summaries" (VArr validSummaries) repaired,
         [RemovedInvalidSummaries
            (Z.of_nat (length validSummaries) - Z.of_nat (length validSummaries))])
      else (repaired, [])
  | _ => (map_set "summaries" (VArr []) repaired, [ResetSummaries])
  end.

Definition repair_messageCount (repaired : Obj) : Obj * list Action :=
  if negb (strict_eq (field (VObj repaired) "messageCount")
                     (js_length (field (VObj repaired) "messages")))
  then (map_set "messageCount" (js_length (field (VObj repaired) "messages")) repaired,
        [CorrectedMessageCount])
  else (repaired, []).

Definition repair_lastActivity (repaired : Obj) : M Guard.State (Obj * list Action) :=
  if negb (is_date (field (VObj repaired) "lastActivity"))
     || time_isNaN (field (VObj repaired) "lastActivity")
  then
    d <- Guard.newDate ;;
    ret (map_set "lastActivity" (VDate (Num d)) repaired, [ResetLastActivity])
  else ret (repaired, []).

(** A record with the fields the guard accepts, the id apart. *)
Definition repaired_fields (o : Obj) : Prop :=
  exists (msgs sums : list JsVal) (t : Z),
    field (VObj o) "messages" = VArr msgs /\
    forallb Guard.validateMessage msgs = true /\
    field (VObj o) "summaries" = VArr sums /\
    forallb Guard.validSummary sums = true /\
    field (VObj o) "messageCount" = VNum (Num (Z.of_nat (length msgs))) /\
    field (VObj o) "lastActivity" = VDate (Num t).

(** ** corruption-recovery.ts: the check of the whole store *)

(** The issues of a report of [performSystemCorruptionCheck]: those of
    [detectAndRecoverCorruption], or the one its own [catch] clause
    writes. *)
Inductive SystemIssue : Type :=
| Reported (issue : Issue)
| FailedToPerformCheck.        (* 'Failed to perform corruption check' *)

Record SystemReport : Type := mkSystemReport {
  sy_sessionId : string;
  sy_isCorrupted : bool;
  sy_issues : list SystemIssue;
  sy_recovered : bool;
  sy_recoveryActions : list Action
}.

Definition system_report (report : CorruptionReport) : SystemReport :=
  mkSystemReport (rp_sessionId report) (isCorrupted report) (map Reported (rp_issues report))
                 (recovered report) (recoveryActions report).

Record SystemCheck : Type := mkSystemCheck {
  chk_totalSessions : Z;
  corruptedSessions : Z;
  recoveredSessions : Z;
  reports : list SystemReport
}.

Definition guard_getAllSessionIds : M Guard.State (list string) :=
  fun s => (Ok (map fst (Guard.sessions s)), s).

(** The body of the loop over the ids: [reports], [corruptedSessions]
    and [recoveredSessions] are the variables it updates. *)
Definition check_one (acc : list SystemReport * Z * Z) (sid : string)
  : M Guard.State (list SystemReport * Z * Z) :=
  let '(reports, corruptedSessions, recoveredSessions) := acc in
  try_catch
    (report <- Guard.detectAndRecoverCorruption sid ;;
     ret (reports ++ [system_report report],
          if isCorrupted report then corruptedSessions + 1 else corruptedSessions,
          if recovered report then recoveredSessions + 1 else recoveredSessions))
    (fun error =>
       ret (reports ++ [mkSystemReport sid true [FailedToPerformCheck] false []],
            corruptedSessions + 1, recoveredSessions)).

Definition performSystemCorruptionCheck : M Guard.State SystemCheck :=
  allSessionIds <- guard_getAllSessionIds ;;
  acc <- foldM check_one allSessionIds ([], 0, 0) ;;
  let '(reports, corruptedSessions, recoveredSessions) := acc in
  ret (mkSystemCheck (Z.of_nat (length allSessionIds)) corruptedSessions recoveredSessions
                     reports).

(** Every record of the store passes the guard. *)
Definition all_valid (s : Guard.State) : Prop :=
  forall k rec, map_get k (Guard.sessions s) = Some rec ->
    isValid (Guard.validateSessionIntegrity (VObj rec)) = true.

(** ** summary-generator.ts: class SummaryGenerator *)

(** [s.includes(sub)] *)
Definition js_includes (s sub : string) : bool :=
  match index 0 sub s with Some _ => true | None => false end.

Section SummaryGeneratorClass.

Variable memoryConfig : MemoryConfig.

(** The two calls into the Gemini SDK: the constructor of the client,
    and the text of the model's answer to the prompt built from the
    messages ([createSummaryPrompt(formatMessagesForSummary(messages))]),
    or the error either of them throws. *)
Variable newClient : string -> Res unit.
Variable generateContent : list Message -> Res string.

(** [initialize], run by the constructor: the value it leaves in
    [isInitialized], with [genAI] set exactly when it is true. *)
Definition initialize : bool :=
  match geminiApiKey memoryConfig with
  | Some key =>
      if truthy_string key then
        match newClient key with
        | Ok _ => true
        | Throw _ => false
        end
      else false
  | None => false
  end.

Definition class_isAvailable : bool := initialize.

Definition class_generateSummary (messages : list Message) : Res string :=
  if negb class_isAvailable then
    Throw (Error "SummaryGenerator is not available - API key not configured or initialization failed")
  else if (length messages =? 0)%nat then Ok ""
  else
    let attempt :=
      match generateContent messages with
      | Ok summary =>
          if negb (truthy_string summary) || (String.length (js_trim summary) =? 0)%nat
          then Throw (Error "Empty summary generated")
          else Ok (js_trim summary)
      | Throw error => Throw error
      end in
    match attempt with
    | Ok summary => Ok summary
    | Throw error =>
        let message := error_message error in
        if js_includes message "API key" then
          Throw (Error "Summary generation failed: Invalid API key")
        else if js_includes message "safety" then
          Throw (Error "Summary generation failed: Content safety violation")
        else if js_includes message "quota" || js_includes message "rate limit" then
          Throw (Error "Summary generation failed: Rate limit exceeded")
        else
          Throw (Error ("Summary generation failed: " +:+
                        (if truthy_string message then message else "Unknown error")))
    end.

(** The singleton [summaryGenerator], behind the interface the manager
    uses. *)
Definition class_summaryGenerator : SummaryGenerator :=
  mkGenerator class_isAvailable class_generateSummary.

End SummaryGeneratorClass.

(** A string that is empty or begins with a character that is not white
    space. *)
Definition starts_clean (s : string) : bool :=
  match s with
  | EmptyString => true
  | String c _ => negb (is_ws c)
  end.

(** * Session ids *)

(** Regular expressions, as far as the pattern of [validateSessionId]
    needs them.  [regex_test r s] is [/^r$/.test(s)], computed with
    derivatives. *)
Inductive Regex : Type :=
| re_none
| re_eps
| re_class (p : ascii -> bool)
| re_seq (r1 r2 : Regex)
| re_alt (r1 r2 : Regex)
| re_star (r : Regex).

Fixpoint nullable (r : Regex) : bool :=
  match r with
  | re_none => false
  | re_eps => true
  | re_class _ => false
  | re_seq r1 r2 => nullable r1 && nullable r2
  | re_alt r1 r2 => nullable r1 || nullable r2
  | re_star _ => true
  end.

Fixpoint deriv (c : ascii) (r : Regex) : Regex :=
  match r with
  | re_none => re_none
  | re_eps => re_none
  | re_class p => if p c then re_eps else re_none
  | re_seq r1 r2 =>
      if nullable r1
      then re_alt (re_seq (deriv c r1) r2) (deriv c r2)
      else re_seq (deriv c r1) r2
  | re_alt r1 r2 => re_alt (deriv c r1) (deriv c r2)
  | re_star r1 => re_seq (deriv c r1) (re_star r1)
  end.

Fixpoint regex_test (r : Regex) (s : string) : bool :=
  match s with
  | EmptyString => nullable r
  | String c s' => regex_test (deriv c r) s'
  end.

(** The strings a regular expression matches as a whole. *)
Inductive matches : Regex -> string -> Prop :=
| matches_eps : matches re_eps ""
| matches_class p c : p c = true -> matches (re_class p) (String c "")
| matches_seq r1 r2 s1 s2 :
    matches r1 s1 -> matches r2 s2 -> matches (re_seq r1 r2) (s1 +:+ s2)
| matches_alt_l r1 r2 s : matches r1 s -> matches (re_alt r1 r2) s
| matches_alt_r r1 r2 s : matches r2 s -> matches (re_alt r1 r2) s
| matches_star_nil r : matches (re_star r) ""
| matches_star_cons r s1 s2 :
    matches r s1 -> matches (re_star r) s2 -> matches (re_star r) (s1 +:+ s2).

Definition re_plus (r : Regex) : Regex := re_seq r (re_star r).

Fixpoint re_lit (s : string) : Regex :=
  match s with
  | EmptyString => re_eps
  | String c s' => re_seq (re_class (Ascii.eqb c)) (re_lit s')
  end.

(** [\d] and [[a-z0-9]] *)
Definition is_digit (c : ascii) : bool :=
  let n := nat_of_ascii c in (48 <=? n)%nat && (n <=? 57)%nat.

Definition is_lower_alnum (c : ascii) : bool :=
  let n := nat_of_ascii c in
  ((97 <=? n)%nat && (n <=? 122)%nat) || is_digit c.

Fixpoint all_chars (p : ascii -> bool) (s : string) : bool :=
  match s with
  | EmptyString => true
  | String c s' => p c && all_chars p s'
  end.

(** [/^session_\d+_[a-z0-9]+$/] *)
Definition sessionIdPattern : Regex :=
  re_seq (re_lit "session_")
    (re_seq (re_plus (re_class is_digit))
       (re_seq (re_lit "_") (re_plus (re_class is_lower_alnum)))).

Inductive SessionIdError : Type :=
| IdRequired            (* 'Session ID is required' *)
| IdInvalidFormat       (* 'Session ID has invalid format' *)
| IdInvalidLength       (* 'Session ID has invalid length' *)
| IdInvalidCharacters.  (* 'Session ID contains invalid characters' *)

Record SessionIdValidation : Type := mkSessionIdValidation {
  sv_isValid : bool;
  sv_errors : list SessionIdError
}.

Definition backslash : string := String (ascii_of_nat 92) EmptyString.

Definition validateSessionId (sessionId : string) : SessionIdValidation :=
  let errors :=
    if negb (truthy_string sessionId) then [IdRequired]
    else
      (if negb (regex_test sessionIdPattern sessionId) then [IdInvalidFormat] else []) ++
      (if (String.length sessionId <? 20)%nat || (50 <? String.length sessionId)%nat
       then [IdInvalidLength] else []) ++
      (if js_includes sessionId ".." || js_includes sessionId "/"
          || js_includes sessionId backslash
       then [IdInvalidCharacters] else []) in
  mkSessionIdValidation (length errors =? 0)%nat errors.

(** utils.ts: [`session_${Date.now()}_${Math.random().toString(36).substr(2, 9)}`] *)
Definition generateSessionId : M Guard.State string :=
  now <- Guard.newDate ;;
  r <- Guard.randomSuffix ;;
  ret ("session_" +:+ pretty now +:+ "_" +:+ r).

(** The loop of [generateUniqueSessionId]: [None] when no attempt
    returned. *)
Fixpoint unique_attempts (attempts : nat) : M Guard.State (option string) :=
  match attempts with
  | O => ret None
  | S rest =>
      sessionId <- generateSessionId ;;
      known <- Guard.hasSession sessionId ;;
      if negb known then ret (Some sessionId) else unique_attempts rest
  end.

(** [generateUniqueSessionId], for a whole number of attempts.  The draw
    of the fallback is [Math.random().toString(36).substr(2, 12)]. *)
Definition generateUniqueSessionId (maxAttempts : Z) : M Guard.State string :=
  found <- unique_attempts (Z.to_nat maxAttempts) ;;
  match found with
  | Some sessionId => ret sessionId
  | None =>
      timestamp <- Guard.newDate ;;
      extraRandom <- Guard.randomSuffix ;;
      let fallbackId := "session_" +:+ pretty timestamp +:+ "_" +:+ extraRandom +:+ "_fallback" in
      ret fallbackId
  end.

Definition isSessionActive (sessionId : string) : M Guard.State bool :=
  let validation := validateSessionId sessionId in
  if negb (sv_isValid validation) then ret false
  else Guard.hasSession sessionId.

(** [normalizeSessionId]: [None] is [undefined] or [null] on the way in
    and [null] on the way out. *)
Definition normalizeSessionId (input : option string) : option string :=
  match input with
  | None => None
  | Some input =>
      if negb (truthy_string input) then None
      else
        let trimmed := js_trim input in
        let validation := validateSessionId trimmed in
        if sv_isValid validation then Some trimmed else None
  end.

(** The id the [k]-th attempt of [generateUniqueSessionId] makes. *)
Definition attempt_id (s : Guard.State) (k : nat) : string :=
  "session_" +:+ pretty (Guard.wall s (Guard.ticks s + k)%nat) +:+ "_"
  +:+ Guard.random s (Guard.draws s + k)%nat.

Fixpoint count_char (c : ascii) (s : string) : nat :=
  match s with
  | EmptyString => 0
  | String c' s' => (if Ascii.eqb c c' then 1 else 0) + count_char c s'
  end.

(** The characters of a well-formed id, and the state after [k] attempts
    of [generateUniqueSessionId]. *)
Definition is_id_char (c : ascii) : bool := is_lower_alnum c || Ascii.eqb c "_".

Definition after_attempts (k : nat) (s : Guard.State) : Guard.State :=
  Guard.mkState (Guard.sessions s) (Guard.errors s) (Guard.wall s) (Guard.ticks s + k)
    (Guard.random s) (Guard.draws s + k).

(** ** A record the guard has renamed

    The store after [getContext("")] at time 1000: the empty id holds the
    fresh record, whose [sessionId] is the empty string. *)
Definition guard_state_empty_id : Guard.State :=
  Guard.mkState [("", empty_record "" 1000)] [] sample_clock 1 (fun _ => "k3v9x2m1q") 0.

(** The store of three sessions in which the record under the empty id is
    the one the corruption check has written back, with the [sessionId]
    it generated, and the sessions "b" and "c" were touched later. *)
Definition world_renamed : World :=
  mkWorld [mkSession "recovered_1002_k3v9x2m1q" 0 0 1003 0;
           mkSession "b" 1 1 1004 0;
           mkSession "c" 2 2 1005 0]
          [[]; []; []] [[]; []; []]
          [("", 0%nat); ("b", 1%nat); ("c", 2%nat)]
          [] sample_clock 6.

(** [MAX_SESSIONS=2] *)
Definition env_cap_2 : Env := mkEnv None None None (Some "2") None.

(** * Properties *)

(** ** Configuration *)

Lemma load_block_range raw hi current :
  0 < current <= hi -> 0 < load_block raw hi current <= hi.
Proof.
  intros Hc. unfold load_block.
  destruct raw as [s|]; [|exact Hc].
  destruct (truthy_string s); [|exact Hc].
  destruct (parseInt10 s) as [|p]; simpl; [exact Hc|].
  destruct (0 <? p) eqn:E1; simpl; [|exact Hc].
  destruct (p <=? hi) eqn:E2; simpl; [|exact Hc].
  apply Z.ltb_lt in E1. apply Z.leb_le in E2. lia.
Qed.

Lemma load_block_cases raw hi current :
  load_block raw hi current = current \/
  exists s, raw = Some s /\ parseInt10 s = Num (load_block raw hi current).
Proof.
  unfold load_block.
  destruct raw as [s|]; [|by left].
  destruct (truthy_string s); [|by left].
  destruct (parseInt10 s) as [|p] eqn:E; simpl; [by left|].
  destruct ((0 <? p) && (p <=? hi)); [|by left].
  right. exists s. by rewrite E.
Qed.

Lemma loadMemoryConfig_ranges env :
  0 < memoryThreshold (loadMemoryConfig env) <= 100 /\
  0 < recentMessagesLimit (loadMemoryConfig env) <= 20 /\
  0 < sessionTimeoutHours (loadMemoryConfig env) <= 168 /\
  0 < maxSessions (loadMemoryConfig env) <= 10000.
Proof.
  unfold loadMemoryConfig; simpl.
  repeat split; apply load_block_range; lia.
Qed.

Lemma validateMemoryConfig_errors cfg :
  0 < memoryThreshold cfg -> 0 < recentMessagesLimit cfg ->
  0 < sessionTimeoutHours cfg -> 0 < maxSessions cfg ->
  cv_errors (validateMemoryConfig cfg) =
    if memoryThreshold cfg <=? recentMessagesLimit cfg
    then [RecentLimitNotBelowThreshold] else [].
Proof.
  intros H1 H2 H3 H4. unfold validateMemoryConfig. cbn [cv_errors].
  rewrite (proj2 (Z.leb_gt (memoryThreshold cfg) 0)) by lia.
  rewrite (proj2 (Z.leb_gt (recentMessagesLimit cfg) 0)) by lia.
  rewrite (proj2 (Z.leb_gt (sessionTimeoutHours cfg) 0)) by lia.
  rewrite (proj2 (Z.leb_gt (maxSessions cfg) 0)) by lia.
  simpl. by rewrite app_nil_r.
Qed.

(** What one block of the loader does with its variable: a number in the
    range is taken over, anything else leaves the default. *)
Lemma load_block_taken (raw : option string) (hi current : Z) (s : string) (p : Z) :
  raw = Some s -> parseInt10 s = Num p -> 0 < p <= hi ->
  load_block raw hi current = p.
Proof.
  intros -> Hp Hr. unfold load_block.
  destruct s as [|c s]; [vm_compute in Hp; discriminate|].
  cbn [truthy_string]. cbv zeta. rewrite Hp. cbn [positive_up_to num_or].
  rewrite (proj2 (Z.ltb_lt 0 p)), (proj2 (Z.leb_le p hi)) by lia. reflexivity.
Qed.

Lemma load_block_left (raw : option string) (hi current : Z) :
  raw = None \/ raw = Some "" \/
  (exists s, raw = Some s /\ parseInt10 s = NaN) \/
  (exists s p, raw = Some s /\ parseInt10 s = Num p /\ ~ (0 < p <= hi)) ->
  load_block raw hi current = current.
Proof.
  unfold load_block.
  intros [->|[->|[(s & -> & Hp)|(s & p & -> & Hp & Hr)]]]; [done|done| |].
  - destruct (truthy_string s); [|done]. cbv zeta. by rewrite Hp.
  - destruct (truthy_string s); [|done]. cbv zeta. rewrite Hp.
    cbn [positive_up_to num_or].
    destruct (0 <? p) eqn:E1; [|done]. destruct (p <=? hi) eqn:E2; [|done].
    apply Z.ltb_lt in E1. apply Z.leb_le in E2. lia.
Qed.

(** C7, as the code has it.  Whatever the environment holds, every field
    of the loaded configuration is inside its own range; a variable that
    parses to a number in the range of its field is taken over as the
    value of that field, and a variable that is unset, empty, unparsable
    or out of range leaves the default of the field; a field depends on
    no other variable.  The cross-field invariant is not restored by
    loading: two variables that are each in range and give a threshold
    that does not exceed the limit are both taken over as loaded, and
    then [validateConfig] answers false and the health check is
    critical. *)
Theorem loadMemoryConfig_checks_fields_only : forall env : Env,
  (0 < memoryThreshold (loadMemoryConfig env) <= 100 /\
   0 < recentMessagesLimit (loadMemoryConfig env) <= 20 /\
   0 < sessionTimeoutHours (loadMemoryConfig env) <= 168 /\
   0 < maxSessions (loadMemoryConfig env) <= 10000) /\
  ((memoryThreshold (loadMemoryConfig env) = memoryThreshold DEFAULT_CONFIG \/
    exists s, MEMORY_THRESHOLD env = Some s /\
              parseInt10 s = Num (memoryThreshold (loadMemoryConfig env))) /\
   (recentMessagesLimit (loadMemoryConfig env) = recentMessagesLimit DEFAULT_CONFIG \/
    exists s, RECENT_MESSAGES_LIMIT env = Some s /\
              parseInt10 s = Num (recentMessagesLimit (loadMemoryConfig env))) /\
   (sessionTimeoutHours (loadMemoryConfig env) = sessionTimeoutHours DEFAULT_CONFIG \/
    exists s, SESSION_TIMEOUT_HOURS env = Some s /\
              parseInt10 s = Num (sessionTimeoutHours (loadMemoryConfig env))) /\
   (maxSessions (loadMemoryConfig env) = maxSessions DEFAULT_CONFIG \/
    exists s, MAX_SESSIONS env = Some s /\
              parseInt10 s = Num (maxSessions (loadMemoryConfig env)))) /\
  (forall env' : Env,
     (MEMORY_THRESHOLD env' = MEMORY_THRESHOLD env ->
      memoryThreshold (loadMemoryConfig env') = memoryThreshold (loadMemoryConfig env)) /\
     (RECENT_MESSAGES_LIMIT env' = RECENT_MESSAGES_LIMIT env ->
      recentMessagesLimit (loadMemoryConfig env') = recentMessagesLimit (loadMemoryConfig env)) /\
     (SESSION_TIMEOUT_HOURS env' = SESSION_TIMEOUT_HOURS env ->
      sessionTimeoutHours (loadMemoryConfig env') = sessionTimeoutHours (loadMemoryConfig env)) /\
     (MAX_SESSIONS env' = MAX_SESSIONS env ->
      maxSessions (loadMemoryConfig env') = maxSessions (loadMemoryConfig env))) /\
  (validateConfig (loadMemoryConfig env) = true <->
   recentMessagesLimit (loadMemoryConfig env) < memoryThreshold (loadMemoryConfig env)) /\
  (performConfigHealthCheck (loadMemoryConfig env) = critical <->
   memoryThreshold (loadMemoryConfig env) <= recentMessagesLimit (loadMemoryConfig env)) /\
  ((forall s p, MEMORY_THRESHOLD env = Some s -> parseInt10 s = Num p -> 0 < p <= 100 ->
                memoryThreshold (loadMemoryConfig env) = p) /\
   (forall s p, RECENT_MESSAGES_LIMIT env = Some s -> parseInt10 s = Num p -> 0 < p <= 20 ->
                recentMessagesLimit (loadMemoryConfig env) = p) /\
   (forall s p, SESSION_TIMEOUT_HOURS env = Some s -> parseInt10 s = Num p -> 0 < p <= 168 ->
                sessionTimeoutHours (loadMemoryConfig env) = p) /\
   (forall s p, MAX_SESSIONS env = Some s -> parseInt10 s = Num p -> 0 < p <= 10000 ->
                maxSessions (loadMemoryConfig env) = p)) /\
  ((MEMORY_THRESHOLD env = None \/ MEMORY_THRESHOLD env = Some "" \/
    (exists s, MEMORY_THRESHOLD env = Some s /\ parseInt10 s = NaN) \/
    (exists s p, MEMORY_THRESHOLD env = Some s /\ parseInt10 s = Num p /\ ~ (0 < p <= 100)) ->
    memoryThreshold (loadMemoryConfig env) = 10) /\
   (RECENT_MESSAGES_LIMIT env = None \/ RECENT_MESSAGES_LIMIT env = Some "" \/
    (exists s, RECENT_MESSAGES_LIMIT env = Some s /\ parseInt10 s = NaN) \/
    (exists s p, RECENT_MESSAGES_LIMIT env = Some s /\ parseInt10 s = Num p /\ ~ (0 < p <= 20)) ->
    recentMessagesLimit (loadMemoryConfig env) = 6) /\
   (SESSION_TIMEOUT_HOURS env = None \/ SESSION_TIMEOUT_HOURS env = Some "" \/
    (exists s, SESSION_TIMEOUT_HOURS env = Some s /\ parseInt10 s = NaN) \/
    (exists s p, SESSION_TIMEOUT_HOURS env = Some s /\ parseInt10 s = Num p /\ ~ (0 < p <= 168)) ->
    sessionTimeoutHours (loadMemoryConfig env) = 24) /\
   (MAX_SESSIONS env = None \/ MAX_SESSIONS env = Some "" \/
    (exists s, MAX_SESSIONS env = Some s /\ parseInt10 s = NaN) \/
    (exists s p, MAX_SESSIONS env = Some s /\ parseInt10 s = Num p /\ ~ (0 < p <= 10000)) ->
    maxSessions (loadMemoryConfig env) = 1000)) /\
  (forall (st sl : string) (t l : Z),
     MEMORY_THRESHOLD env = Some st -> parseInt10 st = Num t -> 0 < t <= 100 ->
     RECENT_MESSAGES_LIMIT env = Some sl -> parseInt10 sl = Num l -> 0 < l <= 20 ->
     t <= l ->
     memoryThreshold (loadMemoryConfig env) = t /\
     recentMessagesLimit (loadMemoryConfig env) = l /\
     validateConfig (loadMemoryConfig env) = false /\
     performConfigHealthCheck (loadMemoryConfig env) = critical).
Proof.
  intros env.
  pose proof (loadMemoryConfig_ranges env) as (R1 & R2 & R3 & R4).
  assert (Hvalid : validateConfig (loadMemoryConfig env) = true <->
                   recentMessagesLimit (loadMemoryConfig env)
                   < memoryThreshold (loadMemoryConfig env)).
  { unfold validateConfig. rewrite !andb_true_iff, !Z.ltb_lt. tauto. }
  assert (Hcritical : performConfigHealthCheck (loadMemoryConfig env) = critical <->
                      memoryThreshold (loadMemoryConfig env)
                      <= recentMessagesLimit (loadMemoryConfig env)).
  { unfold performConfigHealthCheck.
    rewrite validateMemoryConfig_errors by lia.
    destruct (memoryThreshold (loadMemoryConfig env) <=? recentMessagesLimit (loadMemoryConfig env)) eqn:E.
    + apply Z.leb_le in E. change (0 <? length [RecentLimitNotBelowThreshold])%nat with true.
      cbn iota. tauto.
    + apply Z.leb_gt in E. change (0 <? @length ConfigError [])%nat with false.
      cbn iota. split; [|lia].
      destruct (0 <? length (cv_warnings (validateMemoryConfig (loadMemoryConfig env))))%nat; discriminate. }
  assert (Htaken :
    (forall s p, MEMORY_THRESHOLD env = Some s -> parseInt10 s = Num p -> 0 < p <= 100 ->
                 memoryThreshold (loadMemoryConfig env) = p) /\
    (forall s p, RECENT_MESSAGES_LIMIT env = Some s -> parseInt10 s = Num p -> 0 < p <= 20 ->
                 recentMessagesLimit (loadMemoryConfig env) = p) /\
    (forall s p, SESSION_TIMEOUT_HOURS env = Some s -> parseInt10 s = Num p -> 0 < p <= 168 ->
                 sessionTimeoutHours (loadMemoryConfig env) = p) /\
    (forall s p, MAX_SESSIONS env = Some s -> parseInt10 s = Num p -> 0 < p <= 10000 ->
                 maxSessions (loadMemoryConfig env) = p)).
  { unfold loadMemoryConfig; cbn [memoryThreshold recentMessagesLimit
      sessionTimeoutHours maxSessions].
    repeat split; intros s p Hs Hp Hr; by apply (load_block_taken _ _ _ s p). }
  split; [tauto|]. split.
  { unfold loadMemoryConfig; cbn [memoryThreshold recentMessagesLimit
      sessionTimeoutHours maxSessions DEFAULT_CONFIG].
    repeat split; apply load_block_cases. }
  split.
  { intros env'. unfold loadMemoryConfig; cbn [memoryThreshold recentMessagesLimit
      sessionTimeoutHours maxSessions].
    repeat split; intros ->; reflexivity. }
  split; [exact Hvalid|]. split; [exact Hcritical|]. split; [exact Htaken|]. split.
  { unfold loadMemoryConfig; cbn [memoryThreshold recentMessagesLimit
      sessionTimeoutHours maxSessions DEFAULT_CONFIG].
    repeat split; intros H; by apply load_block_left. }
  intros st sl t l Hst Ht Rt Hsl Hl Rl Hle.
  destruct Htaken as (Hm & Hr & _ & _).
  pose proof (Hm st t Hst Ht Rt) as Em. pose proof (Hr sl l Hsl Hl Rl) as El.
  split; [exact Em|]. split; [exact El|]. split.
  - apply not_true_iff_false. intros Ev. apply Hvalid in Ev. lia.
  - apply Hcritical. lia.
Qed.

(** C7 as stated fails: with [MEMORY_THRESHOLD=5] alone, both values are
    in their ranges and the loaded configuration has
    [recentMessagesLimit = 6 >= memoryThreshold = 5]. *)
Lemma loadMemoryConfig_keeps_cross_field_violation :
  memoryThreshold (loadMemoryConfig env_threshold_5) = 5 /\
  recentMessagesLimit (loadMemoryConfig env_threshold_5) = 6 /\
  ~ (recentMessagesLimit (loadMemoryConfig env_threshold_5)
     < memoryThreshold (loadMemoryConfig env_threshold_5)).
Proof. vm_compute. repeat split; discriminate. Qed.

(** ** Running computations *)

Lemma bind_Ok {S A B : Type} (m : M S A) (k : A -> M S B) (s s' : S) (a : A) :
  m s = (Ok a, s') -> bind m k s = k a s'.
Proof. intros H. unfold bind. by rewrite H. Qed.

Lemma bind_Throw {S A B : Type} (m : M S A) (k : A -> M S B) (s s' : S) (e : JsError) :
  m s = (Throw e, s') -> bind m k s = (Throw e, s').
Proof. intros H. unfold bind. by rewrite H. Qed.

Lemma try_catch_Ok {S A : Type} (m : M S A) (h : JsError -> M S A) (s s' : S) (a : A) :
  m s = (Ok a, s') -> try_catch m h s = (Ok a, s').
Proof. intros H. unfold try_catch. by rewrite H. Qed.

Lemma try_catch_Throw {S A : Type} (m : M S A) (h : JsError -> M S A) (s s' : S) (e : JsError) :
  m s = (Throw e, s') -> try_catch m h s = h e s'.
Proof. intros H. unfold try_catch. by rewrite H. Qed.

(** Rewrites the first step of a sequence with its known outcome. *)
Ltac run E := rewrite (bind_Ok _ _ _ _ _ E); cbn beta.

(** ** The [Map] *)

Lemma map_set_same {V : Type} (k : string) (v : V) (m : list (string * V)) :
  map_get k m = Some v -> map_set k v m = m.
Proof.
  induction m as [|[k' v'] m IH]; simpl; [discriminate|].
  destruct (String.eqb k k') eqn:E.
  - apply String.eqb_eq in E. subst k'. by intros [= ->].
  - intros H. by rewrite IH.
Qed.

Lemma map_get_set {V : Type} (k : string) (v : V) (m : list (string * V)) :
  map_get k (map_set k v m) = Some v.
Proof.
  induction m as [|[k' v'] m IH]; simpl.
  - by rewrite String.eqb_refl.
  - destruct (String.eqb k k') eqn:E; simpl.
    + by rewrite String.eqb_refl.
    + by rewrite E.
Qed.

Lemma map_get_set_ne {V : Type} (k k' : string) (v : V) (m : list (string * V)) :
  k' <> k -> map_get k' (map_set k v m) = map_get k' m.
Proof.
  intros Hne. induction m as [|[k0 v0] m IH]; simpl.
  - by rewrite (proj2 (String.eqb_neq k' k)).
  - destruct (String.eqb k k0) eqn:E; simpl.
    + apply String.eqb_eq in E. subst k0.
      by rewrite (proj2 (String.eqb_neq k' k)).
    + by rewrite IH.
Qed.

Lemma map_set_new {V : Type} (k : string) (v : V) (m : list (string * V)) :
  map_get k m = None -> map_set k v m = m ++ [(k, v)].
Proof.
  induction m as [|[k' v'] m IH]; simpl; [done|].
  destruct (String.eqb k k'); [discriminate|].
  intros H. by rewrite IH.
Qed.

(** ** One session on the heap *)

Lemma At_stored w sid r o ms ss :
  At w sid r o ms ss -> stored w sid = Some (view_of o ms ss).
Proof.
  intros (H1 & H2 & H3 & H4). unfold stored, view_at.
  by rewrite H1, H2, H3, H4.
Qed.

Lemma stored_At w sid v :
  stored w sid = Some v ->
  exists r o, At w sid r o (v_messages v) (v_summaries v) /\ v = view_of o (v_messages v) (v_summaries v).
Proof.
  unfold stored, view_at, At.
  destruct (map_get sid (sessions w)) as [r|] eqn:E; [|discriminate].
  destruct (objects w !! r) as [o|] eqn:E0; [|discriminate].
  destruct (messageArrays w !! messages o) as [ms|] eqn:E1; [|discriminate].
  destruct (stringArrays w !! summaries o) as [ss|] eqn:E2; [|discriminate].
  intros [= <-]. exists r, o. simpl. repeat split; assumption || reflexivity.
Qed.

Lemma session_ok_cases w sid :
  session_ok w sid = true ->
  map_get sid (sessions w) = None \/ exists v, stored w sid = Some v.
Proof.
  unfold session_ok, stored.
  destruct (map_get sid (sessions w)) as [r|]; [|by left].
  intros H. apply bool_decide_eq_true in H as [v Hv]. right. by exists v.
Qed.

Section Primitives.

Variables (w : World) (sid : string) (r : nat) (o : SessionData)
          (ms : list Message) (ss : list string).
Hypothesis HAt : At w sid r o ms ss.

Lemma readSession_At : readSession r w = (Ok o, w).
Proof. destruct HAt as (_ & H & _). unfold readSession. by rewrite H. Qed.

Lemma readMessages_At : readMessages (messages o) w = (Ok ms, w).
Proof. destruct HAt as (_ & _ & H & _). unfold readMessages. by rewrite H. Qed.

Lemma readStrings_At : readStrings (summaries o) w = (Ok ss, w).
Proof. destruct HAt as (_ & _ & _ & H). unfold readStrings. by rewrite H. Qed.

Lemma modifySession_At (f : SessionData -> SessionData) :
  messages (f o) = messages o -> summaries (f o) = summaries o ->
  exists w', modifySession r f w = (Ok tt, w') /\ At w' sid r (f o) ms ss.
Proof.
  intros Hm Hs. destruct HAt as (H1 & H2 & H3 & H4).
  unfold modifySession. rewrite H2. eexists; split; [reflexivity|].
  unfold At; simpl. rewrite Hm, Hs. repeat split; try done.
  apply list_lookup_insert_eq. by eapply lookup_lt_Some.
Qed.

Lemma updateSessionActivity_At :
  exists w' d, updateSessionActivity r w = (Ok tt, w') /\
               At w' sid r (with_lastActivity d o) ms ss.
Proof.
  destruct HAt as (H1 & H2 & H3 & H4).
  unfold updateSessionActivity, bind, newDate, modifySession; simpl.
  rewrite H2. do 2 eexists; split; [reflexivity|].
  unfold At; simpl. repeat split; try done.
  apply list_lookup_insert_eq. by eapply lookup_lt_Some.
Qed.

Lemma pushMessage_At (m : Message) :
  exists w', pushMessage (messages o) m w = (Ok tt, w') /\
             At w' sid r o (ms ++ [m]) ss.
Proof.
  destruct HAt as (H1 & H2 & H3 & H4).
  unfold pushMessage. rewrite H3. eexists; split; [reflexivity|].
  unfold At; simpl. repeat split; try done.
  apply list_lookup_insert_eq. by eapply lookup_lt_Some.
Qed.

Lemma pushString_At (s : string) :
  exists w', pushString (summaries o) s w = (Ok tt, w') /\
             At w' sid r o ms (ss ++ [s]).
Proof.
  destruct HAt as (H1 & H2 & H3 & H4).
  unfold pushString. rewrite H4. eexists; split; [reflexivity|].
  unfold At; simpl. repeat split; try done.
  apply list_lookup_insert_eq. by eapply lookup_lt_Some.
Qed.

(** [session.messages = kept] for a freshly built array [kept] *)
Lemma replaceMessages_At (l : list Message) :
  exists w',
    (kept <- allocMessages l ;; modifySession r (with_messages kept)) w = (Ok tt, w') /\
    At w' sid r (with_messages (length (messageArrays w)) o) l ss.
Proof.
  destruct HAt as (H1 & H2 & H3 & H4).
  unfold bind, allocMessages, modifySession; simpl.
  rewrite H2. eexists; split; [reflexivity|].
  unfold At; simpl. repeat split; try done.
  - apply list_lookup_insert_eq. by eapply lookup_lt_Some.
  - by apply list_lookup_middle.
Qed.

Lemma validateSessionData_At : validateSessionData r w = (Ok true, w).
Proof.
  destruct HAt as (H1 & H2 & H3 & H4).
  unfold validateSessionData, bind, readSession. rewrite H2, H3, H4.
  reflexivity.
Qed.

Lemma getSession_At :
  exists w' d, getSession sid w = (Ok r, w') /\
               At w' sid r (with_lastActivity d o) ms ss.
Proof.
  destruct updateSessionActivity_At as (w' & d & E & A).
  exists w', d. split; [|done].
  unfold getSession. destruct HAt as (H1 & _). rewrite H1.
  by run E.
Qed.

Lemma updateSession_At :
  exists w' d, updateSession sid r w = (Ok tt, w') /\
               At w' sid r (with_lastActivity d o) ms ss.
Proof.
  destruct updateSessionActivity_At as (w' & d & E & A).
  exists w', d. split.
  - unfold updateSession. run validateSessionData_At. simpl. run E.
    destruct A as (A1 & _). rewrite (map_set_same _ _ _ A1).
    by destruct w'.
  - done.
Qed.

End Primitives.

Lemma getSession_unseen w sid :
  map_get sid (sessions w) = None ->
  exists w' r d, getSession sid w = (Ok r, w') /\
                 At w' sid r (mkSession sid (length (messageArrays w)) (length (stringArrays w)) d 0) [] [].
Proof.
  intros H. unfold getSession. rewrite H.
  unfold bind, createEmptySession, bind, allocMessages, allocStrings, newDate, allocSession, ret; simpl.
  do 3 eexists; split; [reflexivity|].
  unfold At; simpl. repeat split.
  - apply map_get_set.
  - by apply list_lookup_middle.
  - by apply list_lookup_middle.
  - by apply list_lookup_middle.
Qed.

Lemma logError_At w sid r o ms ss t msg s e :
  At w sid r o ms ss ->
  exists w', logError t msg s e w = (Ok tt, w') /\ At w' sid r o ms ss.
Proof.
  intros HAt. unfold logError, bind, newDate. simpl.
  eexists; split; [reflexivity|]. exact HAt.
Qed.

(** ** The manager on one session *)

Section OneSession.

Variables (cfg : MemoryConfig) (gen : SummaryGenerator).

(** [triggerSummarization] does to the stored record what
    [summarization_outcome] says, and changes nothing else of it but
    [lastActivity]. *)
Lemma triggerSummarization_At w sid r o ms ss :
  At w sid r o ms ss ->
  exists w' o',
    triggerSummarization cfg gen sid w
      = ((summarization_outcome cfg gen (messageCount o) ms ss).1.1, w') /\
    At w' sid r o'
       (summarization_outcome cfg gen (messageCount o) ms ss).1.2
       (summarization_outcome cfg gen (messageCount o) ms ss).2 /\
    messageCount o' = messageCount o /\ sessionId o' = sessionId o.
Proof.
  intros HAt.
  destruct (getSession_At _ _ _ _ _ _ HAt) as (w1 & d & E1 & A1).
  unfold triggerSummarization, summarization_outcome, try_catch.
  run E1. run (readSession_At _ _ _ _ _ _ A1).
  unfold needsSummarization. cbn [messageCount with_lastActivity].
  destruct (memoryThreshold cfg <=? messageCount o); cbn [negb];
    [|by exists w1, (with_lastActivity d o)].
  destruct (isAvailable gen); cbn [negb];
    [|by exists w1, (with_lastActivity d o)].
  run (readMessages_At _ _ _ _ _ _ A1).
  destruct (length (getMessagesToSummarize cfg ms) =? 0)%nat;
    [by exists w1, (with_lastActivity d o)|].
  destruct (generateSummary gen (getMessagesToSummarize cfg ms)) as [summary|e];
    [|by exists w1, (with_lastActivity d o)].
  destruct (truthy_string summary && (0 <? String.length (js_trim summary))%nat);
    [|by exists w1, (with_lastActivity d o)].
  destruct (pushString_At _ _ _ _ _ _ A1 summary) as (w2 & E2 & A2).
  run E2. run (readSession_At _ _ _ _ _ _ A2). run (readMessages_At _ _ _ _ _ _ A2).
  destruct (replaceMessages_At _ _ _ _ _ _ A2 (getRecentMessages cfg ms)) as (w3 & E3 & A3).
  rewrite E3. by eexists w3, _.
Qed.

(** [addMessage] once the record is at hand: the message is appended
    and counted, then the attempt runs, and nothing is undone when it
    throws. *)
Lemma addMessage_from w sid m r w1 o ms ss :
  getSession sid w = (Ok r, w1) ->
  At w1 sid r o ms ss ->
  exists w' o',
    addMessage cfg gen sid m w
      = ((summarization_outcome cfg gen (messageCount o + 1) (ms ++ [m]) ss).1.1, w') /\
    At w' sid r o'
       (summarization_outcome cfg gen (messageCount o + 1) (ms ++ [m]) ss).1.2
       (summarization_outcome cfg gen (messageCount o + 1) (ms ++ [m]) ss).2 /\
    messageCount o' = messageCount o + 1 /\ sessionId o' = sessionId o.
Proof.
  intros E1 A1.
  destruct (pushMessage_At _ _ _ _ _ _ A1 m) as (w2 & E2 & A2).
  destruct (modifySession_At _ _ _ _ _ _ A2 (fun o => with_messageCount (messageCount o + 1) o)
              eq_refl eq_refl) as (w3 & E3 & A3).
  destruct (updateSessionActivity_At _ _ _ _ _ _ A3) as (w4 & d4 & E4 & A4).
  unfold addMessage.
  assert (Hbody : forall rest : M World unit,
    (session <- getSession sid ;;
     o0 <- readSession session ;;
     pushMessage (messages o0) m ;;
     modifySession session (fun o => with_messageCount (messageCount o + 1) o) ;;
     updateSessionActivity session ;;
     o' <- readSession session ;;
     (if needsSummarization cfg o' then triggerSummarization cfg gen sid else ret tt) ;;
     updateSession sid session) w
    = ((if needsSummarization cfg (with_lastActivity d4 (with_messageCount (messageCount o + 1) o))
        then triggerSummarization cfg gen sid else ret tt) ;;
       updateSession sid r) w4).
  { intros _. run E1. run (readSession_At _ _ _ _ _ _ A1). run E2. run E3. run E4.
    by run (readSession_At _ _ _ _ _ _ A4). }
  unfold try_catch. rewrite (Hbody (ret tt)). clear Hbody.
  destruct (triggerSummarization_At _ _ _ _ _ _ A4) as (w5 & o5 & E5 & A5 & C5 & I5).
  cbn [messageCount sessionId with_lastActivity with_messageCount] in E5, A5, C5, I5.
  unfold needsSummarization. cbn [messageCount with_lastActivity with_messageCount].
  destruct (memoryThreshold cfg <=? messageCount o + 1) eqn:Hthr.
  - (* the attempt runs *)
    destruct (summarization_outcome cfg gen (messageCount o + 1) (ms ++ [m]) ss)
      as [[res ms'] ss'] eqn:Hout.
    cbn [fst snd] in *.
    destruct res as [[]|e].
    + run E5.
      destruct (updateSession_At _ _ _ _ _ _ A5) as (w6 & d6 & E6 & A6).
      rewrite E6. exists w6, (with_lastActivity d6 o5).
      split; [reflexivity|]. split; [exact A6|]. split; simpl; congruence.
    + rewrite (bind_Throw _ _ _ _ _ E5).
      destruct (logError_At _ _ _ _ _ _ ty_storage
                  ("Storage operation failed: " +:+ error_message e) (Some sid) (Some e) A5)
        as (w6 & E6 & A6).
      unfold handleStorageError. run E6.
      exists w6, o5.
      split; [reflexivity|]. split; [exact A6|]. split; simpl; congruence.
  - (* below the threshold *)
    unfold summarization_outcome. rewrite Hthr. cbn [negb fst snd].
    unfold ret at 1. unfold bind at 1.
    destruct (updateSession_At _ _ _ _ _ _ A4) as (w6 & d6 & E6 & A6).
    rewrite E6. exists w6, (with_lastActivity d6 (with_lastActivity d4 (with_messageCount (messageCount o + 1) o))).
    split; [reflexivity|]. split; [exact A6|]. split; simpl; congruence.
Qed.

Lemma addMessage_known w sid m r o ms ss :
  At w sid r o ms ss ->
  exists w' o',
    addMessage cfg gen sid m w
      = ((summarization_outcome cfg gen (messageCount o + 1) (ms ++ [m]) ss).1.1, w') /\
    At w' sid r o'
       (summarization_outcome cfg gen (messageCount o + 1) (ms ++ [m]) ss).1.2
       (summarization_outcome cfg gen (messageCount o + 1) (ms ++ [m]) ss).2 /\
    messageCount o' = messageCount o + 1 /\ sessionId o' = sessionId o.
Proof.
  intros HAt.
  destruct (getSession_At _ _ _ _ _ _ HAt) as (w1 & d & E1 & A1).
  exact (addMessage_from _ _ m _ _ _ _ _ E1 A1).
Qed.

Lemma addMessage_unseen w sid m :
  map_get sid (sessions w) = None ->
  exists w' r o',
    addMessage cfg gen sid m w
      = ((summarization_outcome cfg gen 1 [m] []).1.1, w') /\
    At w' sid r o'
       (summarization_outcome cfg gen 1 [m] []).1.2
       (summarization_outcome cfg gen 1 [m] []).2 /\
    messageCount o' = 1 /\ sessionId o' = sid.
Proof.
  intros Hnew.
  destruct (getSession_unseen _ _ Hnew) as (w1 & r & d & E1 & A1).
  destruct (addMessage_from _ _ m _ _ _ _ _ E1 A1) as (w' & o' & E & A & C & I).
  exists w', r, o'.
  split; [exact E|]. split; [exact A|]. split; [exact C|exact I].
Qed.

End OneSession.

(** ** [slice] as [take] and [drop] *)

Lemma js_slice_all {A : Type} (l : list A) : js_slice 0 None l = l.
Proof.
  unfold js_slice, rel_index.
  change (0 <? 0) with false. cbn iota.
  rewrite Z.min_l by lia. simpl. rewrite drop_0.
  apply take_ge. lia.
Qed.

Lemma js_slice_last {A : Type} (k : Z) (l : list A) :
  0 < k -> js_slice (- k) None l = drop (length l - Z.to_nat k) l.
Proof.
  intros Hk. unfold js_slice, rel_index.
  rewrite (proj2 (Z.ltb_lt (- k) 0)) by lia.
  replace (Z.to_nat (Z.max (Z.of_nat (length l) + - k) 0))
    with (length l - Z.to_nat k)%nat by lia.
  apply take_ge. rewrite length_drop. lia.
Qed.

Lemma js_slice_but_last {A : Type} (k : Z) (l : list A) :
  0 < k -> js_slice 0 (Some (- k)) l = take (length l - Z.to_nat k) l.
Proof.
  intros Hk. unfold js_slice, rel_index.
  change (0 <? 0) with false. cbn iota.
  rewrite (proj2 (Z.ltb_lt (- k) 0)) by lia.
  rewrite Z.min_l by lia. simpl (Z.to_nat 0). rewrite drop_0.
  f_equal. lia.
Qed.

Lemma js_slice_empty_range {A : Type} (l : list A) : js_slice 0 (Some (- 0)) l = [].
Proof.
  unfold js_slice, rel_index.
  change (- 0) with 0. change (0 <? 0) with false. cbn iota.
  rewrite Z.min_l by lia. reflexivity.
Qed.

Lemma last_drop_lt {A : Type} (n : nat) (l : list A) :
  (n < length l)%nat -> last (drop n l) = last l.
Proof.
  intros Hn. rewrite !last_lookup, lookup_drop, length_drop.
  f_equal. lia.
Qed.

Section Windows.

Variable cfg : MemoryConfig.
Hypothesis Hlimit : 0 < recentMessagesLimit cfg.

Lemma getRecentMessages_drop (ms : list Message) :
  getRecentMessages cfg ms = drop (length ms - Z.to_nat (recentMessagesLimit cfg)) ms.
Proof. unfold getRecentMessages. by apply js_slice_last. Qed.

Lemma getMessagesToSummarize_take (ms : list Message) :
  getMessagesToSummarize cfg ms = take (length ms - Z.to_nat (recentMessagesLimit cfg)) ms.
Proof.
  unfold getMessagesToSummarize.
  destruct (Z.of_nat (length ms) <=? recentMessagesLimit cfg) eqn:E.
  - apply Z.leb_le in E.
    replace (length ms - Z.to_nat (recentMessagesLimit cfg))%nat with 0%nat by lia.
    reflexivity.
  - by apply js_slice_but_last.
Qed.

(** The summarized prefix and the kept window make up the messages. *)
Lemma summarized_then_recent (ms : list Message) :
  getMessagesToSummarize cfg ms ++ getRecentMessages cfg ms = ms.
Proof. rewrite getRecentMessages_drop, getMessagesToSummarize_take. apply take_drop. Qed.

Lemma getRecentMessages_length (ms : list Message) :
  recentMessagesLimit cfg <= Z.of_nat (length ms) ->
  Z.of_nat (length (getRecentMessages cfg ms)) = recentMessagesLimit cfg.
Proof. intros H. rewrite getRecentMessages_drop, length_drop. lia. Qed.

End Windows.

(** The message just appended is the last one also after the attempt. *)
Lemma outcome_keeps_last cfg gen count ms m ss :
  0 <= recentMessagesLimit cfg ->
  last (summarization_outcome cfg gen count (ms ++ [m]) ss).1.2 = Some m.
Proof.
  intros Hlim. unfold summarization_outcome.
  destruct (negb (memoryThreshold cfg <=? count)); [apply last_snoc|].
  destruct (negb (isAvailable gen)); [apply last_snoc|].
  destruct (length (getMessagesToSummarize cfg (ms ++ [m])) =? 0)%nat eqn:E;
    [apply last_snoc|].
  destruct (generateSummary gen (getMessagesToSummarize cfg (ms ++ [m]))) as [s|e];
    [|apply last_snoc].
  destruct (truthy_string s && (0 <? String.length (js_trim s))%nat); [|apply last_snoc].
  cbn [fst snd].
  assert (Hpos : 0 < recentMessagesLimit cfg).
  { destruct (Z.eq_dec (recentMessagesLimit cfg) 0) as [H0|]; [|lia].
    exfalso. apply Nat.eqb_neq in E. apply E.
    unfold getMessagesToSummarize. rewrite H0.
    destruct (Z.of_nat (length (ms ++ [m])) <=? 0); [done|].
    by rewrite js_slice_empty_range. }
  rewrite getRecentMessages_drop by done.
  rewrite last_drop_lt; [apply last_snoc|].
  rewrite length_app. simpl. lia.
Qed.

(** When the attempt throws, it leaves messages and summaries as they
    were. *)
Lemma outcome_Throw_unchanged cfg gen count ms ss e :
  (summarization_outcome cfg gen count ms ss).1.1 = Throw e ->
  (summarization_outcome cfg gen count ms ss).1.2 = ms /\
  (summarization_outcome cfg gen count ms ss).2 = ss.
Proof.
  unfold summarization_outcome.
  destruct (negb (memoryThreshold cfg <=? count)); [done|].
  destruct (negb (isAvailable gen)); [done|].
  destruct (length (getMessagesToSummarize cfg ms) =? 0)%nat; [done|].
  destruct (generateSummary gen (getMessagesToSummarize cfg ms)) as [s|e']; [|done].
  by destruct (truthy_string s && (0 <? String.length (js_trim s))%nat).
Qed.

(** ** Message ingestion *)

(** C9.  Whatever [addMessage] answers, also an exception raised by the
    summarization step, the message is the last element of the stored
    messages and the lifetime count is one more than it was (it counts from
    0 for an unseen id): the record the store holds was mutated before
    anything could fail.  When [addMessage] throws, the stored messages are
    exactly the previous ones followed by the message, and the summaries
    are the previous ones. *)
Theorem addMessage_never_rolls_back :
  forall (cfg : MemoryConfig) (gen : SummaryGenerator) (w : World) (sid : string) (m : Message),
    0 <= recentMessagesLimit cfg ->
    session_ok w sid = true ->
    exists v' : SessionView,
      stored (addMessage cfg gen sid m w).2 sid = Some v' /\
      last (v_messages v') = Some m /\
      v_messageCount v' =
        match stored w sid with Some v => v_messageCount v | None => 0 end + 1 /\
      (forall e, (addMessage cfg gen sid m w).1 = Throw e ->
         v_messages v' =
           match stored w sid with Some v => v_messages v | None => [] end ++ [m] /\
         v_summaries v' =
           match stored w sid with Some v => v_summaries v | None => [] end).
Proof.
  intros cfg gen w sid m Hlim Hok.
  destruct (session_ok_cases _ _ Hok) as [Hnew|[v Hv]].
  - destruct (addMessage_unseen cfg gen w sid m Hnew) as (w' & r & o' & E & A & C & I).
    unfold stored at 2 3 4. rewrite Hnew. rewrite E. cbn [fst snd].
    eexists. split; [exact (At_stored _ _ _ _ _ _ A)|].
    cbn [v_messages v_summaries v_messageCount view_of].
    split; [exact (outcome_keeps_last cfg gen 1 [] m [] Hlim)|].
    split; [lia|].
    intros e He. exact (outcome_Throw_unchanged _ _ _ _ _ _ He).
  - destruct (stored_At _ _ _ Hv) as (r & o & HAt & Hview).
    destruct (addMessage_known cfg gen w sid m r o _ _ HAt) as (w' & o' & E & A & C & I).
    rewrite Hv, E. cbn [fst snd].
    eexists. split; [exact (At_stored _ _ _ _ _ _ A)|].
    cbn [v_messages v_summaries v_messageCount view_of].
    split; [by apply outcome_keeps_last|].
    split; [rewrite C, Hview; reflexivity|].
    intros e He. exact (outcome_Throw_unchanged _ _ _ _ _ _ He).
Qed.

Lemma addMessage_never_rolls_back_raising_instance :
  0 <= recentMessagesLimit (loadMemoryConfig env_unset) /\
  session_ok world_nine "s1" = true /\
  (addMessage (loadMemoryConfig env_unset) generator_failing "s1" (sample_message 10) world_nine).1
    = Throw (ReferenceError "session is not defined") /\
  exists v' : SessionView,
    stored (addMessage (loadMemoryConfig env_unset) generator_failing "s1"
              (sample_message 10) world_nine).2 "s1" = Some v' /\
    last (v_messages v') = Some (sample_message 10) /\
    v_messageCount v' =
      match stored world_nine "s1" with Some v => v_messageCount v | None => 0 end + 1 /\
    (forall e,
       (addMessage (loadMemoryConfig env_unset) generator_failing "s1"
          (sample_message 10) world_nine).1 = Throw e ->
       v_messages v' =
         match stored world_nine "s1" with Some v => v_messages v | None => [] end
         ++ [sample_message 10] /\
       v_summaries v' =
         match stored world_nine "s1" with Some v => v_summaries v | None => [] end).
Proof.
  split; [vm_compute; discriminate|].
  split; [vm_compute; reflexivity|].
  split; [vm_compute; reflexivity|].
  apply (addMessage_never_rolls_back (loadMemoryConfig env_unset) generator_failing
           world_nine "s1" (sample_message 10)).
  - vm_compute; discriminate.
  - vm_compute; reflexivity.
Defined.

(** C1 at a failing input.  Session "s1" holds nine messages; the tenth
    reaches the threshold, the generator is available and its call fails.
    [addMessage] then throws the [ReferenceError] raised by the [catch]
    clause of [triggerSummarization], instead of completing; the ten
    messages are stored and no summary was added. *)
Theorem addMessage_throws_when_summarize_throws :
  (addMessage (loadMemoryConfig env_unset) generator_failing "s1" (sample_message 10) world_nine).1
    = Throw (ReferenceError "session is not defined") /\
  option_map v_messages
    (stored (addMessage (loadMemoryConfig env_unset) generator_failing "s1"
               (sample_message 10) world_nine).2 "s1")
    = Some (map sample_message (seq 1 10)) /\
  option_map v_summaries
    (stored (addMessage (loadMemoryConfig env_unset) generator_failing "s1"
               (sample_message 10) world_nine).2 "s1")
    = Some [].
Proof. vm_compute. repeat split. Qed.

(** The same on every state: once the attempt reaches the generator and
    the generator's call fails, [addMessage] throws. *)
Lemma addMessage_throws_on_generator_error cfg gen w sid m v e :
  stored w sid = Some v ->
  memoryThreshold cfg <= v_messageCount v + 1 ->
  isAvailable gen = true ->
  0 < recentMessagesLimit cfg <= Z.of_nat (length (v_messages v)) ->
  generateSummary gen (getMessagesToSummarize cfg (v_messages v ++ [m])) = Throw e ->
  (addMessage cfg gen sid m w).1 = Throw (ReferenceError "session is not defined").
Proof.
  intros Hv Hthr Hav Hlim Hgen.
  destruct (stored_At _ _ _ Hv) as (r & o & HAt & Hview).
  destruct (addMessage_known cfg gen w sid m r o _ _ HAt) as (w' & o' & E & _).
  rewrite E. cbn [fst].
  assert (Hc : messageCount o = v_messageCount v) by (by rewrite Hview).
  unfold summarization_outcome.
  rewrite Hc, (proj2 (Z.leb_le _ _) Hthr), Hav. cbn [negb].
  rewrite Hgen.
  rewrite getMessagesToSummarize_take by lia.
  rewrite length_take, length_app. simpl length.
  destruct (_ =? 0)%nat eqn:E0; [|done].
  apply Nat.eqb_eq in E0. lia.
Qed.

(** The other half of C1 holds: with the generator not available,
    [addMessage] completes, keeps the message and adds no summary. *)
Lemma addMessage_completes_when_unavailable cfg gen w sid m v :
  isAvailable gen = false ->
  stored w sid = Some v ->
  exists v',
    (addMessage cfg gen sid m w).1 = Ok tt /\
    stored (addMessage cfg gen sid m w).2 sid = Some v' /\
    v_messages v' = v_messages v ++ [m] /\
    v_summaries v' = v_summaries v.
Proof.
  intros Hav Hv.
  destruct (stored_At _ _ _ Hv) as (r & o & HAt & Hview).
  destruct (addMessage_known cfg gen w sid m r o _ _ HAt) as (w' & o' & E & A & _).
  rewrite E. cbn [fst snd].
  revert A. unfold summarization_outcome. rewrite Hav. cbn [negb].
  destruct (negb (memoryThreshold cfg <=? messageCount o + 1)); cbn [fst snd];
    intros A; eexists; (split; [reflexivity|]);
    (split; [exact (At_stored _ _ _ _ _ _ A)|]); by split.
Qed.

(** ** Summarization *)

(** C2.  A stored session whose lifetime count has reached the threshold
    and whose messages outnumber [recentMessagesLimit]; the generator is
    available and answers the summarized prefix with a summary that is not
    blank.  Then the attempt completes, the stored messages are exactly the
    last [recentMessagesLimit] ones, in order, the summary is appended to
    the summaries, which are otherwise unchanged, and the prefix handed to
    the generator is what was removed. *)
Theorem triggerSummarization_trims_and_appends :
  forall (cfg : MemoryConfig) (gen : SummaryGenerator) (w : World) (sid : string)
         (v : SessionView) (summary : string),
    stored w sid = Some v ->
    memoryThreshold cfg <= v_messageCount v ->
    0 < recentMessagesLimit cfg ->
    recentMessagesLimit cfg < Z.of_nat (length (v_messages v)) ->
    isAvailable gen = true ->
    generateSummary gen (getMessagesToSummarize cfg (v_messages v)) = Ok summary ->
    js_trim summary <> "" ->
    exists (w' : World) (v' : SessionView),
      triggerSummarization cfg gen sid w = (Ok tt, w') /\
      stored w' sid = Some v' /\
      Z.of_nat (length (v_messages v')) = recentMessagesLimit cfg /\
      v_messages v' =
        drop (length (v_messages v) - Z.to_nat (recentMessagesLimit cfg)) (v_messages v) /\
      v_summaries v' = v_summaries v ++ [summary] /\
      v_messages v = getMessagesToSummarize cfg (v_messages v) ++ v_messages v' /\
      v_messageCount v' = v_messageCount v /\
      v_sessionId v' = v_sessionId v.
Proof.
  intros cfg gen w sid v summary Hv Hthr Hpos Hlen Hav Hgen Htrim.
  destruct (stored_At _ _ _ Hv) as (r & o & HAt & Hview).
  destruct (triggerSummarization_At cfg gen _ _ _ _ _ _ HAt) as (w' & o' & E & A & C & I).
  assert (Hc : messageCount o = v_messageCount v) by (by rewrite Hview).
  assert (Hi : sessionId o = v_sessionId v) by (by rewrite Hview).
  assert (Hout : summarization_outcome cfg gen (messageCount o) (v_messages v) (v_summaries v)
                 = (Ok tt, getRecentMessages cfg (v_messages v), v_summaries v ++ [summary])).
  { unfold summarization_outcome.
    rewrite Hc, (proj2 (Z.leb_le _ _) Hthr), Hav. cbn [negb].
    rewrite Hgen.
    replace (length (getMessagesToSummarize cfg (v_messages v)) =? 0)%nat with false.
    2:{ symmetry. apply Nat.eqb_neq.
        rewrite getMessagesToSummarize_take, length_take by done. lia. }
    replace (truthy_string summary && (0 <? String.length (js_trim summary))%nat) with true;
      [done|].
    symmetry. apply andb_true_iff. split.
    - destruct summary; [by exfalso; apply Htrim|done].
    - destruct (js_trim summary); [done|reflexivity]. }
  rewrite Hout in E, A. cbn [fst snd] in E, A.
  exists w', (view_of o' (getRecentMessages cfg (v_messages v)) (v_summaries v ++ [summary])).
  split; [exact E|]. split; [exact (At_stored _ _ _ _ _ _ A)|].
  cbn [v_messages v_summaries v_messageCount v_sessionId view_of].
  split; [apply getRecentMessages_length; [done|lia]|].
  split; [by apply getRecentMessages_drop|].
  split; [done|].
  split; [symmetry; by apply summarized_then_recent|].
  split; congruence.
Qed.

Lemma triggerSummarization_trims_and_appends_scenario :
  exists (w' : World) (v' : SessionView),
    triggerSummarization (loadMemoryConfig env_unset) generator_ok "s1" world_twelve
      = (Ok tt, w') /\
    stored w' "s1" = Some v' /\
    Z.of_nat (length (v_messages v')) = 6 /\
    v_messages v' = map sample_message (seq 7 6) /\
    v_summaries v' = ["SUMMARY-1"].
Proof.
  destruct (triggerSummarization_trims_and_appends
              (loadMemoryConfig env_unset) generator_ok world_twelve "s1"
              (mkView "s1" (map sample_message (seq 1 12)) [] 1038 12)
              "SUMMARY-1")
    as (w' & v' & E & S & L & Ms & Ss & _).
  - vm_compute; reflexivity.
  - vm_compute; discriminate.
  - vm_compute; reflexivity.
  - vm_compute; reflexivity.
  - reflexivity.
  - reflexivity.
  - vm_compute; discriminate.
  - exists w', v'. repeat split; assumption.
Defined.

(** ** Context retrieval *)

Lemma lookup_app_second {A : Type} (a : list A) (x y : A) (rest : list A) :
  (a ++ x :: y :: rest) !! S (length a) = Some y.
Proof.
  rewrite lookup_app_r by lia.
  by replace (S (length a) - length a)%nat with 1%nat by lia.
Qed.

Lemma lookup_app_third {A : Type} (a : list A) (x y z : A) (rest : list A) :
  (a ++ x :: y :: z :: rest) !! S (S (length a)) = Some z.
Proof.
  rewrite lookup_app_r by lia.
  by replace (S (S (length a)) - length a)%nat with 2%nat by lia.
Qed.

Lemma getSession_known w sid r o :
  map_get sid (sessions w) = Some r ->
  objects w !! r = Some o ->
  getSession sid w =
    (Ok r, set_objects (<[r := with_lastActivity (wall w (ticks w)) o]> (objects w))
             (set_ticks (S (ticks w)) w)).
Proof.
  intros H1 H2. unfold getSession. rewrite H1.
  unfold updateSessionActivity, bind, newDate, modifySession.
  cbn [objects set_ticks ticks wall]. by rewrite H2.
Qed.

Lemma getContext_known cfg w sid r o ms ss :
  At w sid r o ms ss ->
  getContext cfg sid w =
    (Ok (mkContext (length (stringArrays w)) (S (length (messageArrays w))) (messageCount o)),
     after_getContext_known cfg w r o ms ss).
Proof.
  intros (H1 & H2 & H3 & H4).
  assert (Hr : (r < length (objects w))%nat) by (by eapply lookup_lt_Some).
  assert (Hm : (messages o < length (messageArrays w))%nat) by (by eapply lookup_lt_Some).
  unfold getContext, try_catch.
  run (getSession_known _ _ _ _ H1 H2).
  unfold bind at 1, readSession. cbn [objects set_objects].
  rewrite list_lookup_insert_eq by done. cbn beta iota.
  unfold bind at 1, readMessages. cbn [messageArrays set_objects set_ticks messages with_lastActivity].
  rewrite H3. cbn beta iota.
  unfold bind at 1, allocMessages. cbn beta iota.
  unfold bind at 1, readStrings.
  cbn [stringArrays messageArrays set_messageArrays set_objects set_ticks summaries with_lastActivity].
  rewrite H4. cbn beta iota.
  unfold bind at 1, allocStrings. cbn beta iota.
  unfold bind at 1, readMessages.
  cbn [stringArrays messageArrays set_stringArrays set_messageArrays set_objects set_ticks].
  rewrite (list_lookup_middle _ [] _ _ eq_refl). cbn beta iota.
  unfold bind at 1, allocMessages. cbn beta iota.
  unfold bind at 1, readSession.
  cbn [objects stringArrays messageArrays set_stringArrays set_messageArrays set_objects set_ticks].
  rewrite list_lookup_insert_eq by done. cbn beta iota.
  unfold ret, after_getContext_known.
  cbn [objects stringArrays messageArrays sessions errors wall ticks set_stringArrays
       set_messageArrays set_objects set_ticks messageCount with_lastActivity].
  rewrite !length_app. cbn [length].
  rewrite <- app_assoc. cbn [app].
  repeat f_equal; lia.
Qed.

Lemma getContext_unseen cfg w sid :
  map_get sid (sessions w) = None ->
  getContext cfg sid w =
    (Ok (mkContext (S (length (stringArrays w))) (S (S (length (messageArrays w)))) 0),
     after_getContext_unseen w sid).
Proof.
  intros H1.
  assert (E : getSession sid w =
    (Ok (length (objects w)),
     mkWorld (objects w ++ [mkSession sid (length (messageArrays w)) (length (stringArrays w))
                              (wall w (ticks w)) 0])
             (messageArrays w ++ [[]]) (stringArrays w ++ [[]])
             (map_set sid (length (objects w)) (sessions w))
             (errors w) (wall w) (S (ticks w)))).
  { unfold getSession. rewrite H1. reflexivity. }
  unfold getContext, try_catch. run E.
  unfold bind at 1, readSession. cbn [objects].
  rewrite (list_lookup_middle _ [] _ _ eq_refl). cbn beta iota.
  unfold bind at 1, readMessages. cbn [messageArrays messages].
  rewrite (list_lookup_middle _ [] _ _ eq_refl). cbn beta iota.
  unfold bind at 1, allocMessages. cbn beta iota.
  unfold bind at 1, readStrings. cbn [stringArrays set_messageArrays summaries].
  rewrite (list_lookup_middle _ [] _ _ eq_refl). cbn beta iota.
  unfold bind at 1, allocStrings. cbn beta iota.
  unfold bind at 1, readMessages.
  cbn [stringArrays messageArrays set_stringArrays set_messageArrays].
  rewrite (list_lookup_middle _ [] _ _ eq_refl). cbn beta iota.
  unfold bind at 1, allocMessages. cbn beta iota.
  unfold bind at 1, readSession.
  cbn [objects stringArrays messageArrays set_stringArrays set_messageArrays].
  rewrite (list_lookup_middle _ [] _ _ eq_refl). cbn beta iota.
  unfold ret, after_getContext_unseen.
  cbn [objects stringArrays messageArrays sessions errors wall ticks set_stringArrays
       set_messageArrays messageCount].
  rewrite !length_app. cbn [length].
  rewrite <- !app_assoc. cbn [app].
  assert (Hs : js_slice (- recentMessagesLimit cfg) None (@nil Message) = []).
  { unfold js_slice. by rewrite drop_nil, take_nil. }
  rewrite Hs.
  repeat f_equal; lia.
Qed.

Section Accumulation.

Variables (cfg : MemoryConfig) (gen : SummaryGenerator).

Lemma outcome_below count ms ss :
  count < memoryThreshold cfg ->
  summarization_outcome cfg gen count ms ss = (Ok tt, ms, ss).
Proof.
  intros H. unfold summarization_outcome.
  by rewrite (proj2 (Z.leb_gt _ _) H).
Qed.

(** Below the threshold every call completes and appends. *)
Lemma addMessages_known_below sid msgs : forall w r o ms ss,
  At w sid r o ms ss ->
  messageCount o + Z.of_nat (length msgs) < memoryThreshold cfg ->
  exists w' o',
    addMessages cfg gen sid msgs w = (Ok tt, w') /\
    At w' sid r o' (ms ++ msgs) ss /\
    messageCount o' = messageCount o + Z.of_nat (length msgs).
Proof.
  induction msgs as [|m msgs IH]; intros w r o ms ss HAt Hlt.
  - exists w, o. rewrite app_nil_r. simpl. split; [reflexivity|]. split; [done|lia].
  - cbn [length] in Hlt.
    destruct (addMessage_known cfg gen w sid m r o ms ss HAt) as (w1 & o1 & E1 & A1 & C1 & _).
    rewrite outcome_below in E1, A1 by lia. cbn [fst snd] in E1, A1.
    destruct (IH w1 r o1 (ms ++ [m]) ss A1) as (w2 & o2 & E2 & A2 & C2); [lia|].
    exists w2, o2. unfold addMessages in *. cbn [foldM]. run E1.
    rewrite <- app_assoc in A2. split; [exact E2|]. split; [exact A2|].
    cbn [length]. lia.
Qed.

Lemma addMessages_unseen_below sid m msgs w :
  map_get sid (sessions w) = None ->
  Z.of_nat (length (m :: msgs)) < memoryThreshold cfg ->
  exists w' r o',
    addMessages cfg gen sid (m :: msgs) w = (Ok tt, w') /\
    At w' sid r o' (m :: msgs) [] /\
    messageCount o' = Z.of_nat (length (m :: msgs)).
Proof.
  intros Hnew Hlt. cbn [length] in Hlt.
  destruct (addMessage_unseen cfg gen w sid m Hnew) as (w1 & r & o1 & E1 & A1 & C1 & _).
  rewrite outcome_below in E1, A1 by lia. cbn [fst snd] in E1, A1.
  destruct (addMessages_known_below sid msgs w1 r o1 [m] [] A1) as (w2 & o2 & E2 & A2 & C2);
    [lia|].
  exists w2, r, o2. unfold addMessages in *. cbn [foldM]. run E1.
  split; [exact E2|]. split; [exact A2|]. cbn [length]. lia.
Qed.

End Accumulation.

(** C3, as the code has it.  A session id is unseen and receives fewer
    than [memoryThreshold] messages.  Every [addMessage] completes, the
    store holds the whole sequence in order, and [getContext] then answers
    with [totalMessages] the number of messages added, no summary, and as
    [recentMessages] the last [recentMessagesLimit] of the messages added:
    the whole sequence when it is no longer than [recentMessagesLimit]. *)
Theorem getContext_after_messages_below_threshold :
  forall (cfg : MemoryConfig) (gen : SummaryGenerator) (w : World) (sid : string)
         (msgs : list Message),
    0 < recentMessagesLimit cfg ->
    map_get sid (sessions w) = None ->
    Z.of_nat (length msgs) < memoryThreshold cfg ->
    exists (w1 w2 : World) (c : ConversationContext),
      addMessages cfg gen sid msgs w = (Ok tt, w1) /\
      getContext cfg sid w1 = (Ok c, w2) /\
      totalMessages c = Z.of_nat (length msgs) /\
      context_summaries w2 c = Some [] /\
      context_messages w2 c =
        Some (drop (length msgs - Z.to_nat (recentMessagesLimit cfg)) msgs) /\
      (Z.of_nat (length msgs) <= recentMessagesLimit cfg -> context_messages w2 c = Some msgs) /\
      option_map v_messages (stored w2 sid) = Some msgs.
Proof.
  intros cfg gen w sid msgs Hpos Hnew Hlt.
  destruct msgs as [|m msgs].
  - exists w, (after_getContext_unseen w sid). eexists.
    split; [reflexivity|]. split; [by apply getContext_unseen|].
    unfold context_summaries, context_messages, stored, view_at, after_getContext_unseen.
    cbn [totalMessages c_summaries recentMessages stringArrays messageArrays sessions objects length].
    split; [done|].
    split; [apply lookup_app_second|].
    split; [apply lookup_app_third|]. split; [intros _; apply lookup_app_third|].
    rewrite map_get_set.
    rewrite (list_lookup_middle _ [] _ _ eq_refl). cbn [messages summaries].
    rewrite (list_lookup_middle _ [[]; []] _ _ eq_refl).
    by rewrite (list_lookup_middle _ [[]] _ _ eq_refl).
  - destruct (addMessages_unseen_below cfg gen sid m msgs w Hnew Hlt)
      as (w1 & r & o & E & A & C).
    exists w1, (after_getContext_known cfg w1 r o (m :: msgs) []). eexists.
    split; [exact E|]. split; [by apply getContext_known|].
    pose proof A as (H1 & H2 & H3 & H4).
    assert (Hr : (r < length (objects w1))%nat) by (by eapply lookup_lt_Some).
    unfold context_summaries, context_messages, stored, view_at, after_getContext_known.
    cbn [totalMessages c_summaries recentMessages stringArrays messageArrays sessions objects].
    split; [exact C|].
    split; [by apply (list_lookup_middle _ [] _ _)|].
    rewrite lookup_app_second, js_slice_last by done.
    split; [done|]. split.
    + intros Hle. f_equal.
      replace (length (m :: msgs) - Z.to_nat (recentMessagesLimit cfg))%nat with 0%nat by lia.
      apply drop_0.
    + rewrite H1, list_lookup_insert_eq by done. cbn [messages summaries with_lastActivity].
      by rewrite (lookup_app_l_Some _ _ _ _ H3), (lookup_app_l_Some _ _ _ _ H4).
Qed.

Lemma getContext_after_messages_below_threshold_scenario :
  exists (w1 w2 : World) (c : ConversationContext),
    addMessages (loadMemoryConfig env_unset) generator_ok "s1"
      (map sample_message (seq 1 4)) (boot sample_clock) = (Ok tt, w1) /\
    getContext (loadMemoryConfig env_unset) "s1" w1 = (Ok c, w2) /\
    totalMessages c = 4 /\
    context_messages w2 c = Some (map sample_message (seq 1 4)).
Proof.
  destruct (getContext_after_messages_below_threshold
              (loadMemoryConfig env_unset) generator_ok (boot sample_clock) "s1"
              (map sample_message (seq 1 4)))
    as (w1 & w2 & c & E1 & E2 & T & _ & _ & M & _).
  - vm_compute; reflexivity.
  - reflexivity.
  - vm_compute; reflexivity.
  - exists w1, w2, c. repeat split; try assumption.
    apply M. vm_compute; discriminate.
Defined.

(** C3 as stated fails between the two limits: seven messages are below
    the threshold of 10, and [getContext] answers with the last six. *)
Lemma getContext_recent_is_not_whole_sequence :
  Z.of_nat (length (map sample_message (seq 1 7))) < memoryThreshold (loadMemoryConfig env_unset) /\
  exists (w1 w2 : World) (c : ConversationContext),
    addMessages (loadMemoryConfig env_unset) generator_ok "s1"
      (map sample_message (seq 1 7)) (boot sample_clock) = (Ok tt, w1) /\
    getContext (loadMemoryConfig env_unset) "s1" w1 = (Ok c, w2) /\
    context_messages w2 c = Some (map sample_message (seq 2 6)) /\
    context_messages w2 c <> Some (map sample_message (seq 1 7)).
Proof.
  split; [vm_compute; reflexivity|].
  eexists _, _, _.
  split; [vm_compute; reflexivity|].
  split; [vm_compute; reflexivity|].
  split; [vm_compute; reflexivity|].
  vm_compute. discriminate.
Qed.

(** A record whose object and arrays read the same in two states is seen
    the same in both. *)
Lemma view_at_frame w1 w2 r o :
  objects w1 !! r = Some o ->
  objects w2 !! r = Some o ->
  messageArrays w2 !! messages o = messageArrays w1 !! messages o ->
  stringArrays w2 !! summaries o = stringArrays w1 !! summaries o ->
  view_at w2 r = view_at w1 r.
Proof. intros H1 H2 H3 H4. unfold view_at. by rewrite H1, H2, H3, H4. Qed.

Lemma view_at_Some w r v :
  view_at w r = Some v ->
  exists o, objects w !! r = Some o /\
            (messages o < length (messageArrays w))%nat /\
            (summaries o < length (stringArrays w))%nat /\
            v = view_of o (v_messages v) (v_summaries v) /\
            messageArrays w !! messages o = Some (v_messages v) /\
            stringArrays w !! summaries o = Some (v_summaries v).
Proof.
  unfold view_at.
  destruct (objects w !! r) as [o|]; [|discriminate].
  destruct (messageArrays w !! messages o) as [ms|] eqn:E1; [|discriminate].
  destruct (stringArrays w !! summaries o) as [ss|] eqn:E2; [|discriminate].
  intros [= <-]. exists o. repeat split; try done.
  - by eapply lookup_lt_Some.
  - by eapply lookup_lt_Some.
Qed.

Lemma touched_same v : touched (v_lastActivity v) v = v.
Proof. by destruct v. Qed.

Lemma getContext_known_facts cfg w sid r o ms ss :
  At w sid r o ms ss ->
  let c := mkContext (length (stringArrays w)) (S (length (messageArrays w))) (messageCount o) in
  let w' := after_getContext_known cfg w r o ms ss in
  context_summaries w' c = Some ss /\
  context_messages w' c = Some (js_slice (- recentMessagesLimit cfg) None ms) /\
  (forall xs ys sid', session_ok w sid' = true ->
     stored (overwrite_context c xs ys w') sid' = stored w' sid') /\
  stored w' sid = Some (touched (wall w (ticks w)) (view_of o ms ss)) /\
  (forall sid' v', stored w sid' = Some v' -> exists t, stored w' sid' = Some (touched t v')).
Proof.
  intros (H1 & H2 & H3 & H4) c w'.
  assert (Hr : (r < length (objects w))%nat) by (by eapply lookup_lt_Some).
  assert (Hview : forall r' v', view_at w r' = Some v' ->
            exists t, view_at w' r' = Some (touched t v') /\
                      (r' = r -> t = wall w (ticks w)) /\
                      forall xs ys, view_at (overwrite_context c xs ys w') r' = view_at w' r').
  { intros r' v' Hv'.
    destruct (view_at_Some _ _ _ Hv') as (o' & Ho' & Lm & Ls & -> & Hm' & Hs').
    destruct (decide (r' = r)) as [->|Hne].
    - assert (o' = o) as -> by congruence.
      exists (wall w (ticks w)).
      assert (Hobj : objects w' !! r = Some (with_lastActivity (wall w (ticks w)) o)).
      { unfold w', after_getContext_known. cbn [objects]. by apply list_lookup_insert_eq. }
      split; [|split; [done|]].
      + unfold view_at. rewrite Hobj. unfold w', after_getContext_known.
        cbn [messageArrays stringArrays messages summaries with_lastActivity].
        by rewrite (lookup_app_l_Some _ _ _ _ Hm'), (lookup_app_l_Some _ _ _ _ Hs').
      + intros xs ys. apply (view_at_frame _ _ _ _ Hobj).
        * exact Hobj.
        * unfold overwrite_context. cbn [messageArrays set_messageArrays set_stringArrays
            messages with_lastActivity recentMessages c].
          apply list_lookup_insert_ne. unfold w', after_getContext_known. cbn [messageArrays]. lia.
        * unfold overwrite_context. cbn [stringArrays set_messageArrays set_stringArrays
            summaries with_lastActivity c_summaries c].
          apply list_lookup_insert_ne. unfold w', after_getContext_known. cbn [stringArrays]. lia.
    - exists (lastActivity o').
      assert (Hobj : objects w' !! r' = Some o').
      { unfold w', after_getContext_known. cbn [objects].
        rewrite list_lookup_insert_ne by done. exact Ho'. }
      split; [|split; [done|]].
      + unfold view_at. rewrite Hobj. unfold w', after_getContext_known.
        cbn [messageArrays stringArrays].
        by rewrite (lookup_app_l_Some _ _ _ _ Hm'), (lookup_app_l_Some _ _ _ _ Hs').
      + intros xs ys. apply (view_at_frame _ _ _ _ Hobj).
        * exact Hobj.
        * unfold overwrite_context. cbn [messageArrays set_messageArrays set_stringArrays
            recentMessages c].
          apply list_lookup_insert_ne. unfold w', after_getContext_known. cbn [messageArrays]. lia.
        * unfold overwrite_context. cbn [stringArrays set_messageArrays set_stringArrays
            c_summaries c].
          apply list_lookup_insert_ne. unfold w', after_getContext_known. cbn [stringArrays]. lia. }
  split; [apply (list_lookup_middle _ [] _ _ eq_refl)|].
  split; [apply lookup_app_second|].
  split; [|split].
  - intros xs ys sid' Hok. unfold stored.
    change (sessions (overwrite_context c xs ys w')) with (sessions w).
    change (sessions w') with (sessions w).
    unfold session_ok in Hok.
    destruct (map_get sid' (sessions w)) as [r'|]; [|done].
    apply bool_decide_eq_true in Hok as [v' Hv'].
    destruct (Hview r' v' Hv') as (t & _ & _ & Hframe). apply Hframe.
  - unfold stored. change (sessions w') with (sessions w). rewrite H1.
    destruct (Hview r (view_of o ms ss)) as (t & Ht & Heq & _).
    { unfold view_at. by rewrite H2, H3, H4. }
    by rewrite Ht, (Heq eq_refl).
  - intros sid' v'. unfold stored. change (sessions w') with (sessions w).
    destruct (map_get sid' (sessions w)) as [r'|]; [|discriminate].
    intros Hv'. destruct (Hview r' v' Hv') as (t & Ht & _). by exists t.
Qed.

Lemma getContext_unseen_facts w sid :
  map_get sid (sessions w) = None ->
  let c := mkContext (S (length (stringArrays w))) (S (S (length (messageArrays w)))) 0 in
  let w' := after_getContext_unseen w sid in
  context_summaries w' c = Some [] /\
  context_messages w' c = Some [] /\
  (forall xs ys sid', session_ok w sid' = true ->
     stored (overwrite_context c xs ys w') sid' = stored w' sid') /\
  stored w' sid = Some (mkView sid [] [] (wall w (ticks w)) 0) /\
  map fst (sessions w') = map fst (sessions w) ++ [sid] /\
  (forall sid' v', stored w sid' = Some v' -> stored w' sid' = Some v').
Proof.
  intros Hnew c w'.
  assert (Hnewobj : objects w' !! length (objects w) =
            Some (mkSession sid (length (messageArrays w)) (length (stringArrays w))
                    (wall w (ticks w)) 0)).
  { unfold w', after_getContext_unseen. cbn [objects]. by apply list_lookup_middle. }
  assert (Hold : forall r' v', view_at w r' = Some v' ->
            view_at w' r' = Some v' /\
            forall xs ys, view_at (overwrite_context c xs ys w') r' = view_at w' r').
  { intros r' v' Hv'.
    destruct (view_at_Some _ _ _ Hv') as (o' & Ho' & Lm & Ls & Hvo & Hm' & Hs').
    assert (Hobj : objects w' !! r' = Some o').
    { unfold w', after_getContext_unseen. cbn [objects]. by apply lookup_app_l_Some. }
    split.
    - unfold view_at. rewrite Hobj. unfold w', after_getContext_unseen.
      cbn [messageArrays stringArrays].
      rewrite (lookup_app_l_Some _ _ _ _ Hm'), (lookup_app_l_Some _ _ _ _ Hs').
      by rewrite Hvo.
    - intros xs ys. apply (view_at_frame _ _ _ _ Hobj); [exact Hobj| |].
      + unfold overwrite_context. cbn [messageArrays set_messageArrays set_stringArrays
          recentMessages c].
        apply list_lookup_insert_ne. lia.
      + unfold overwrite_context. cbn [stringArrays set_messageArrays set_stringArrays
          c_summaries c].
        apply list_lookup_insert_ne. lia. }
  assert (Hsid : map_get sid (sessions w') = Some (length (objects w))).
  { unfold w', after_getContext_unseen. cbn [sessions]. apply map_get_set. }
  assert (Hother : forall sid', sid' <> sid -> map_get sid' (sessions w') = map_get sid' (sessions w)).
  { intros sid' Hne. unfold w', after_getContext_unseen. cbn [sessions].
    by apply map_get_set_ne. }
  split; [apply lookup_app_second|].
  split; [apply lookup_app_third|].
  split; [|split; [|split]].
  - intros xs ys sid' Hok. unfold stored.
    change (sessions (overwrite_context c xs ys w')) with (sessions w').
    destruct (decide (sid' = sid)) as [->|Hne].
    + rewrite Hsid. apply (view_at_frame _ _ _ _ Hnewobj); [exact Hnewobj| |].
      * unfold overwrite_context. cbn [messageArrays set_messageArrays set_stringArrays
          recentMessages c messages].
        apply list_lookup_insert_ne. lia.
      * unfold overwrite_context. cbn [stringArrays set_messageArrays set_stringArrays
          c_summaries c summaries].
        apply list_lookup_insert_ne. lia.
    + rewrite (Hother _ Hne). unfold session_ok in Hok.
      destruct (map_get sid' (sessions w)) as [r'|]; [|done].
      apply bool_decide_eq_true in Hok as [v' Hv'].
      by apply (Hold r' v').
  - unfold stored. rewrite Hsid. unfold view_at. rewrite Hnewobj.
    unfold w', after_getContext_unseen. cbn [messageArrays stringArrays messages summaries].
    rewrite (list_lookup_middle _ [[]; []] _ _ eq_refl).
    by rewrite (list_lookup_middle _ [[]] _ _ eq_refl).
  - unfold w', after_getContext_unseen. cbn [sessions].
    rewrite (map_set_new _ _ _ Hnew), map_app. reflexivity.
  - intros sid' v' Hv'.
    assert (Hne : sid' <> sid).
    { intros ->. unfold stored in Hv'. by rewrite Hnew in Hv'. }
    unfold stored in *. rewrite (Hother _ Hne).
    destruct (map_get sid' (sessions w)) as [r'|]; [|discriminate].
    by apply (Hold r' v').
Qed.

(** C10.  [getContext] on a session id that is unseen or whose record is
    on the heap returns a context whose two arrays did not exist before
    the call; they hold the stored summaries and the last
    [recentMessagesLimit] stored messages.  Whatever a caller then writes
    into these two arrays, every stored record reads as before.  The call
    leaves every record that existed as it was except for [lastActivity];
    the record asked for is touched with the time of the call, and no key
    is added for it.  For an unseen id an empty record is created and
    stored under that id. *)
Theorem getContext_returns_copies_and_touches :
  forall (cfg : MemoryConfig) (w : World) (sid : string),
    session_ok w sid = true ->
    exists (c : ConversationContext) (w' : World),
      getContext cfg sid w = (Ok c, w') /\
      (length (stringArrays w) <= c_summaries c)%nat /\
      (length (messageArrays w) <= recentMessages c)%nat /\
      context_summaries w' c =
        Some (match stored w sid with Some v => v_summaries v | None => [] end) /\
      context_messages w' c =
        Some (js_slice (- recentMessagesLimit cfg) None
                (match stored w sid with Some v => v_messages v | None => [] end)) /\
      totalMessages c = match stored w sid with Some v => v_messageCount v | None => 0 end /\
      (forall xs ys sid', session_ok w sid' = true ->
         stored (overwrite_context c xs ys w') sid' = stored w' sid') /\
      (forall sid' v', stored w sid' = Some v' ->
         exists t, stored w' sid' = Some (touched t v')) /\
      (forall v, stored w sid = Some v ->
         stored w' sid = Some (touched (wall w (ticks w)) v) /\
         map fst (sessions w') = map fst (sessions w)) /\
      (map_get sid (sessions w) = None ->
         stored w' sid = Some (mkView sid [] [] (wall w (ticks w)) 0) /\
         map fst (sessions w') = map fst (sessions w) ++ [sid]).
Proof.
  intros cfg w sid Hok.
  destruct (session_ok_cases _ _ Hok) as [Hnew|[v Hv]].
  - destruct (getContext_unseen_facts w sid Hnew) as (F1 & F2 & F3 & F4 & F5 & F6).
    assert (Hnone : stored w sid = None) by (unfold stored; by rewrite Hnew).
    eexists _, _. split; [by apply getContext_unseen|].
    rewrite Hnone. cbn [c_summaries recentMessages totalMessages].
    split; [lia|]. split; [lia|]. split; [exact F1|].
    split. { rewrite F2. f_equal. unfold js_slice. by rewrite drop_nil, take_nil. }
    split; [done|]. split; [exact F3|].
    split. { intros sid' v' Hv'. exists (v_lastActivity v'). rewrite touched_same. by apply F6. }
    split; [discriminate|]. intros _. by split.
  - destruct (stored_At _ _ _ Hv) as (r & o & HAt & Hview).
    destruct (getContext_known_facts cfg w sid r o _ _ HAt) as (F1 & F2 & F3 & F4 & F5).
    eexists _, _. split; [by apply getContext_known|].
    rewrite Hv. cbn [c_summaries recentMessages totalMessages].
    split; [lia|]. split; [lia|]. split; [exact F1|]. split; [exact F2|].
    split; [by rewrite Hview|]. split; [exact F3|]. split; [exact F5|].
    split.
    + intros v0 [= <-]. split; [|reflexivity]. by rewrite F4, <- Hview.
    + destruct HAt as (H1 & _). rewrite H1. discriminate.
Qed.

Lemma getContext_returns_copies_and_touches_scenario :
  session_ok world_summarized "s1" = true /\
  exists (c : ConversationContext) (w' : World),
    getContext (loadMemoryConfig env_unset) "s1" world_summarized = (Ok c, w') /\
    context_summaries w' c = Some ["SUMMARY-1"] /\
    (forall xs ys,
       stored (overwrite_context c xs ys w') "s1" = stored w' "s1").
Proof.
  split; [vm_compute; reflexivity|].
  destruct (getContext_returns_copies_and_touches
              (loadMemoryConfig env_unset) world_summarized "s1")
    as (c & w' & E & _ & _ & S & _ & _ & F & _).
  - vm_compute; reflexivity.
  - exists c, w'. split; [exact E|]. split; [exact S|].
    intros xs ys. apply F. vm_compute; reflexivity.
Defined.

(** ** The store as a whole *)

Section WholeStore.

Variable w : World.

(** The objects behind a list of entries, when all are on the heap. *)
Lemma read_entries (l : list (string * nat)) :
  forallb (fun kv : string * nat => bool_decide (is_Some (view_at w (snd kv)))) l = true ->
  exists objs : list SessionData,
    mapM readSession (map snd l) w = (Ok objs, w) /\
    Forall2 (fun kv o => objects w !! snd kv = Some o /\ view_at w (snd kv) = Some (view_obj w o))
            l objs /\
    Forall (fun o => is_Some (stringArrays w !! summaries o)) objs /\
    omap (fun kv : string * nat => view_at w (snd kv)) l = map (view_obj w) objs.
Proof.
  induction l as [|[k r] l IH]; cbn [forallb map mapM snd].
  - intros _. exists []. by repeat split.
  - intros H. apply andb_true_iff in H as [Hr Hl].
    apply bool_decide_eq_true in Hr as [v Hv].
    destruct (IH Hl) as (objs & E & F & S & V).
    destruct (view_at_Some _ _ _ Hv) as (o & Ho & _ & _ & Hvo & Hm & Hs).
    assert (Hview : view_at w r = Some (view_obj w o)).
    { rewrite Hv. f_equal. unfold view_obj. by rewrite Hm, Hs. }
    exists (o :: objs). split; [|split; [|split]].
    + assert (Er : readSession r w = (Ok o, w)) by (unfold readSession; by rewrite Ho).
      run Er. run E. reflexivity.
    + by constructor.
    + constructor; [by eexists|done].
    + change (omap (fun kv : string * nat => view_at w (snd kv)) ((k, r) :: l))
        with (match view_at w r with
              | Some y => y :: omap (fun kv : string * nat => view_at w (snd kv)) l
              | None => omap (fun kv : string * nat => view_at w (snd kv)) l
              end).
      rewrite Hview, V. reflexivity.
Qed.

Hypothesis Hheap : heap_ok w = true.

Lemma getAllSessions_ok :
  exists objs : list SessionData,
    getAllSessions w = (Ok objs, w) /\
    Forall2 (fun kv o => objects w !! snd kv = Some o /\ view_at w (snd kv) = Some (view_obj w o))
            (sessions w) objs /\
    Forall (fun o => is_Some (stringArrays w !! summaries o)) objs /\
    views w = map (view_obj w) objs.
Proof. exact (read_entries (sessions w) Hheap). Qed.

Lemma read_summary_lengths (objs : list SessionData) :
  Forall (fun o => is_Some (stringArrays w !! summaries o)) objs ->
  mapM (fun s => l <- readStrings (summaries s) ;; ret (Z.of_nat (length l))) objs w
    = (Ok (map (fun o => Z.of_nat (length (v_summaries (view_obj w o)))) objs), w).
Proof.
  induction 1 as [|o objs [ss Hss] _ IH]; [reflexivity|].
  cbn [mapM map].
  assert (E : (l <- readStrings (summaries o) ;; ret (Z.of_nat (length l))) w
              = (Ok (Z.of_nat (length (v_summaries (view_obj w o)))), w)).
  { unfold bind, readStrings, view_obj. cbn [v_summaries view_of]. by rewrite Hss. }
  run E. run IH. reflexivity.
Qed.

End WholeStore.

Lemma foldl_add_sum {A : Type} (f : A -> Z) (l : list A) (z : Z) :
  foldl (fun sum x => sum + f x) z l = z + sum_Z (map f l).
Proof.
  revert z. induction l as [|x l IH]; intros z; cbn [foldl map sum_Z foldr].
  - lia.
  - rewrite IH. unfold sum_Z. lia.
Qed.

Lemma sum_Z_map_ext {A : Type} (f g : A -> Z) (l : list A) :
  (forall x, x ∈ l -> f x = g x) -> sum_Z (map f l) = sum_Z (map g l).
Proof.
  intros H. f_equal. apply map_ext_in. intros x Hx. apply H. by apply list_elem_of_In.
Qed.

(** C5, as the code has it.  [getStats] leaves the state as it is, and
    its [totalMessages] is the sum of the lifetime counters
    [messageCount] of the stored records, whatever the lengths of their
    [messages] arrays are; it is the sum of these lengths when every
    stored record counts as many messages as it holds. *)
Theorem getStats_totalMessages_sums_messageCount :
  forall w : World,
    heap_ok w = true ->
    exists st : Stats,
      getStats w = (Ok st, w) /\
      st_totalMessages st = sum_Z (map v_messageCount (views w)) /\
      totalSessions st = Z.of_nat (length (views w)) /\
      totalSummaries st = sum_Z (map (fun v => Z.of_nat (length (v_summaries v))) (views w)) /\
      ((forall v, v ∈ views w -> v_messageCount v = Z.of_nat (length (v_messages v))) ->
       st_totalMessages st
       = sum_Z (map (fun v => Z.of_nat (length (v_messages v))) (views w))).
Proof.
  intros w Hheap.
  assert (H : exists st : Stats,
            getStats w = (Ok st, w) /\
            st_totalMessages st = sum_Z (map v_messageCount (views w)) /\
            totalSessions st = Z.of_nat (length (views w)) /\
            totalSummaries st
            = sum_Z (map (fun v => Z.of_nat (length (v_summaries v))) (views w))).
  { destruct (getAllSessions_ok w Hheap) as (objs & E & F & Hs & V).
    unfold getStats. rewrite V.
    destruct objs as [|o objs].
    - run E. eexists. split; [reflexivity|]. by repeat split.
    - run E.
      run (read_summary_lengths w _ Hs).
      eexists. split; [reflexivity|].
      cbn [st_totalMessages totalSessions totalSummaries].
      rewrite !foldl_add_sum, !map_map, !length_map.
      repeat split; lia. }
  destruct H as (st & E & T & N & S). exists st.
  split; [exact E|]. split; [exact T|]. split; [exact N|]. split; [exact S|].
  intros Hall. rewrite T. by apply sum_Z_map_ext.
Qed.

Lemma getStats_totalMessages_sums_messageCount_scenario :
  heap_ok world_summarized = true /\
  exists st : Stats,
    getStats world_summarized = (Ok st, world_summarized) /\
    st_totalMessages st = sum_Z (map v_messageCount (views world_summarized)).
Proof.
  split; [vm_compute; reflexivity|].
  destruct (getStats_totalMessages_sums_messageCount world_summarized)
    as (st & E & T & _).
  - vm_compute; reflexivity.
  - exists st. split; assumption.
Defined.

(** C5 as stated fails on a summarized session: after ten messages and one
    summarization the record keeps six messages and counts ten, and
    [totalMessages] is 10, not 6. *)
Lemma getStats_totalMessages_is_not_tail_length :
  (getStats world_summarized).1 = Ok (mkStats 1 10 1 (Some 1030) (Some 1030)) /\
  sum_Z (map (fun v => Z.of_nat (length (v_messages v))) (views world_summarized)) = 6 /\
  st_totalMessages (mkStats 1 10 1 (Some 1030) (Some 1030)) <>
    sum_Z (map (fun v => Z.of_nat (length (v_messages v))) (views world_summarized)).
Proof.
  split; [vm_compute; reflexivity|].
  split; [vm_compute; reflexivity|].
  vm_compute. discriminate.
Qed.

(** ** Eviction over the cap *)

Lemma insert_by_activity_perm x l : insert_by_activity x l ≡ₚ x :: l.
Proof.
  induction l as [|y l IH]; cbn [insert_by_activity]; [done|].
  destruct (lastActivity x <=? lastActivity y); [done|].
  rewrite IH. apply perm_swap.
Qed.

Lemma sort_by_activity_perm l : sort_by_activity l ≡ₚ l.
Proof.
  induction l as [|x l IH]; [done|].
  unfold sort_by_activity in *. cbn [foldr].
  rewrite insert_by_activity_perm. by rewrite IH.
Qed.

Lemma insert_by_activity_sorted x l :
  StronglySorted by_activity l -> StronglySorted by_activity (insert_by_activity x l).
Proof.
  induction 1 as [|y l Hl IH Hy]; cbn [insert_by_activity].
  - repeat constructor.
  - destruct (lastActivity x <=? lastActivity y) eqn:E.
    + apply Z.leb_le in E. constructor; [by constructor|].
      constructor; [exact E|].
      eapply Forall_impl; [exact Hy|]. intros z Hz. unfold by_activity in *. lia.
    + apply Z.leb_gt in E. constructor; [exact IH|].
      rewrite insert_by_activity_perm. constructor; [unfold by_activity; lia|exact Hy].
Qed.

Lemma sort_by_activity_sorted l : StronglySorted by_activity (sort_by_activity l).
Proof.
  induction l as [|x l IH]; [constructor|].
  unfold sort_by_activity in *. cbn [foldr]. by apply insert_by_activity_sorted.
Qed.

Section Keys.

Context {V : Type}.
Implicit Types (m : list (string * V)) (k : string).

Lemma map_get_elem_of k v m : map_get k m = Some v -> (k, v) ∈ m.
Proof.
  induction m as [|[k' v'] m IH]; cbn [map_get]; [discriminate|].
  destruct (String.eqb k k') eqn:E.
  - apply String.eqb_eq in E. intros [= ->]. subst. left.
  - intros H. right. by apply IH.
Qed.

Lemma elem_of_keys k v m : (k, v) ∈ m -> k ∈ map fst m.
Proof.
  induction m as [|[k' v'] m IH]; intros H.
  - by apply elem_of_nil in H.
  - apply elem_of_cons in H as [[= -> ->]|H]; cbn [map fst]; [left|right; by apply IH].
Qed.

Lemma map_get_None k m : map_get k m = None <-> k ∉ map fst m.
Proof.
  induction m as [|[k' v'] m IH]; cbn [map_get map fst].
  - split; [intros _; apply not_elem_of_nil|done].
  - destruct (String.eqb k k') eqn:E.
    + apply String.eqb_eq in E. subst. split; [discriminate|].
      intros H. exfalso. apply H. left.
    + apply String.eqb_neq in E. rewrite IH, not_elem_of_cons. tauto.
Qed.

Lemma map_get_NoDup k v m : NoDup (map fst m) -> (k, v) ∈ m -> map_get k m = Some v.
Proof.
  induction m as [|[k' v'] m IH]; cbn [map fst map_get]; intros Hnd H.
  - by apply elem_of_nil in H.
  - apply NoDup_cons in Hnd as [Hk' Hnd].
    apply elem_of_cons in H as [[= -> ->]|H].
    + by rewrite String.eqb_refl.
    + destruct (String.eqb k k') eqn:E.
      * apply String.eqb_eq in E. subst. exfalso. apply Hk'. by eapply elem_of_keys.
      * by apply IH.
Qed.

Lemma map_has_true k m : k ∈ map fst m -> map_has k m = true.
Proof.
  intros H. unfold map_has.
  destruct (map_get k m) eqn:E; [done|]. by apply map_get_None in E.
Qed.

Lemma map_delete_filter k m :
  NoDup (map fst m) -> map_delete k m = filter (fun kv => kv.1 <> k) m.
Proof.
  induction m as [|[k' v'] m IH]; cbn [map fst map_delete]; intros Hnd; [done|].
  apply NoDup_cons in Hnd as [Hk' Hnd].
  destruct (String.eqb k k') eqn:E.
  - apply String.eqb_eq in E. subst k'.
    rewrite filter_cons_False by (cbn; tauto).
    symmetry. clear IH Hnd. induction m as [|[k2 v2] m IH]; [done|].
    cbn [map fst] in Hk'. apply not_elem_of_cons in Hk' as [Hne Hk'].
    rewrite filter_cons_True by (cbn; congruence). f_equal. by apply IH.
  - apply String.eqb_neq in E.
    rewrite filter_cons_True by (cbn; congruence). f_equal. by apply IH.
Qed.

Lemma map_delete_length k m :
  k ∈ map fst m -> S (length (map_delete k m)) = length m.
Proof.
  induction m as [|[k' v'] m IH]; cbn [map fst map_delete length]; intros H.
  - by apply elem_of_nil in H.
  - destruct (String.eqb k k') eqn:E; [done|].
    apply String.eqb_neq in E. apply elem_of_cons in H as [H|H]; [done|].
    cbn [length]. f_equal. by apply IH.
Qed.

Lemma map_get_filter_keys (P : string * V -> Prop) `{!forall kv, Decision (P kv)}
    (Q : string -> Prop) k m :
  (forall kv, P kv <-> Q kv.1) ->
  (Q k -> map_get k (filter P m) = map_get k m) /\
  (~ Q k -> map_get k (filter P m) = None).
Proof.
  intros HPQ. induction m as [|[k' v'] m [IH1 IH2]]; [by split|].
  destruct (decide (P (k', v'))) as [Hk'|Hk'].
  - rewrite filter_cons_True by done. cbn [map_get].
    destruct (String.eqb k k') eqn:E; [|by split].
    apply String.eqb_eq in E. subst k'. split; [done|].
    intros HQ. exfalso. apply HQ. by apply (HPQ (k, v')).
  - rewrite filter_cons_False by done. cbn [map_get].
    destruct (String.eqb k k') eqn:E; [|by split].
    apply String.eqb_eq in E. subst k'. split; [|done].
    intros HQ. exfalso. apply Hk'. by apply (HPQ (k, v')).
Qed.

Lemma keys_filter_NoDup (P : string * V -> Prop) `{!forall kv, Decision (P kv)} m :
  NoDup (map fst m) -> NoDup (map fst (filter P m)).
Proof.
  induction m as [|kv m IH]; cbn [map]; intros Hnd; [done|].
  apply NoDup_cons in Hnd as [Hk Hnd].
  destruct (decide (P kv)).
  - rewrite filter_cons_True by done. cbn [map]. apply NoDup_cons. split; [|by apply IH].
    intros Hin. apply Hk.
    apply list_elem_of_In, in_map_iff in Hin as (kv' & <- & Hin').
    apply list_elem_of_In, list_elem_of_filter in Hin' as [_ Hin'].
    apply list_elem_of_In, in_map_iff. exists kv'. split; [done|]. by apply list_elem_of_In.
  - rewrite filter_cons_False by done. by apply IH.
Qed.

Lemma keys_filter_elem_of (P : string * V -> Prop) `{!forall kv, Decision (P kv)} k m :
  k ∈ map fst m -> (forall v, P (k, v)) -> k ∈ map fst (filter P m).
Proof.
  intros Hin HP.
  apply list_elem_of_In, in_map_iff in Hin as ([k' v] & <- & Hin').
  apply list_elem_of_In, in_map_iff. exists (k', v). split; [done|].
  apply list_elem_of_In, list_elem_of_filter. split; [apply HP|]. by apply list_elem_of_In.
Qed.

End Keys.

Lemma set_sessions_same w : set_sessions (sessions w) w = w.
Proof. by destruct w. Qed.

(** Removing, one after the other, sessions whose ids are distinct and
    all stored removes exactly them. *)
Lemma evict_loop (D : list SessionData) : forall (w : World) (c : Z),
  NoDup (map fst (sessions w)) ->
  NoDup (map sessionId D) ->
  (forall s, s ∈ D -> sessionId s ∈ map fst (sessions w)) ->
  foldM evict_one D c w
    = (Ok (c + Z.of_nat (length D)),
       set_sessions (filter (fun kv => kv.1 ∉ map sessionId D) (sessions w)) w) /\
  (length (filter (fun kv : string * nat => kv.1 ∉ map sessionId D) (sessions w)) + length D
   = length (sessions w))%nat.
Proof.
  induction D as [|s D IH]; intros w c Hkeys Hids Hin.
  - assert (Hall : filter (fun kv : string * nat => kv.1 ∉ map sessionId []) (sessions w)
                   = sessions w).
    { clear. induction (sessions w) as [|kv m IH]; [done|].
      rewrite filter_cons_True by (cbn; apply not_elem_of_nil). by rewrite IH. }
    rewrite Hall, set_sessions_same. cbn [foldM length]. split; [|lia].
    unfold ret. f_equal. f_equal. lia.
  - cbn [map] in Hids. apply NoDup_cons in Hids as [Hs Hids].
    assert (Hpresent : sessionId s ∈ map fst (sessions w)) by (apply Hin; left).
    assert (E1 : evict_one c s w
                 = (Ok (c + 1),
                    set_sessions (filter (fun kv => kv.1 <> sessionId s) (sessions w)) w)).
    { unfold evict_one, bind, deleteSession.
      by rewrite (map_has_true _ _ Hpresent), (map_delete_filter _ _ Hkeys). }
    set (w1 := set_sessions (filter (fun kv => kv.1 <> sessionId s) (sessions w)) w) in *.
    destruct (IH w1 (c + 1)) as [E2 L2].
    + unfold w1. cbn [sessions set_sessions]. by apply keys_filter_NoDup.
    + exact Hids.
    + intros s' Hs'. unfold w1. cbn [sessions set_sessions].
      apply keys_filter_elem_of; [apply Hin; by right|].
      intros v Heq. cbn in Heq. apply Hs. rewrite <- Heq.
      apply list_elem_of_In, in_map. by apply list_elem_of_In.
    + assert (Hff : filter (fun kv : string * nat => kv.1 ∉ map sessionId D) (sessions w1)
                    = filter (fun kv : string * nat => kv.1 ∉ map sessionId (s :: D)) (sessions w)).
      { unfold w1. cbn [sessions set_sessions map]. rewrite list_filter_filter.
        apply list_filter_iff. intros kv. rewrite not_elem_of_cons. tauto. }
      rewrite Hff in E2, L2. split.
      * cbn [foldM]. run E1. rewrite E2. unfold w1.
        replace (c + Z.of_nat (length (s :: D))) with (c + 1 + Z.of_nat (length D))
          by (cbn [length]; lia).
        reflexivity.
      * assert (HL : S (length (sessions w1)) = length (sessions w)).
        { unfold w1. cbn [sessions set_sessions].
          rewrite <- (map_delete_filter _ _ Hkeys). by apply map_delete_length. }
        cbn [length]. lia.
Qed.

(** The loop [for (i = 0; i < n; i++) { ... sorted[i] ... }] visits the
    first [n] elements of the array. *)
Lemma foldM_by_index {S A B : Type} (l : list A) (g : B -> A -> M S B) (bad : M S B) :
  forall (n j : nat) (b : B) (s : S),
    (j + n <= length l)%nat ->
    foldM (fun b (i : nat) => match l !! i with None => bad | Some x => g b x end)
          (seq j n) b s
    = foldM g (take n (drop j l)) b s.
Proof.
  induction n as [|n IH]; intros j b s Hle; [reflexivity|].
  cbn [seq].
  destruct (l !! j) as [x|] eqn:Hx; [|apply lookup_ge_None in Hx; lia].
  rewrite (drop_S _ _ _ Hx). cbn [take foldM].
  unfold bind. rewrite Hx.
  destruct (g b x s) as [[b'|e] s']; [|reflexivity].
  apply IH. lia.
Qed.

Lemma Forall2_elem_of_l {A B : Type} (P : A -> B -> Prop) (l : list A) (k : list B) (x : A) :
  Forall2 P l k -> x ∈ l -> exists y, y ∈ k /\ P x y.
Proof.
  induction 1 as [|a b l k Hab _ IH]; intros Hin.
  - by apply elem_of_nil in Hin.
  - apply elem_of_cons in Hin as [->|Hin].
    + exists b. split; [left|done].
    + destruct (IH Hin) as (y & Hy & HP). exists y. split; [by right|done].
Qed.

Lemma Forall2_elem_of_r {A B : Type} (P : A -> B -> Prop) (l : list A) (k : list B) (y : B) :
  Forall2 P l k -> y ∈ k -> exists x, x ∈ l /\ P x y.
Proof.
  induction 1 as [|a b l k Hab _ IH]; intros Hin.
  - by apply elem_of_nil in Hin.
  - apply elem_of_cons in Hin as [->|Hin].
    + exists a. split; [left|done].
    + destruct (IH Hin) as (x & Hx & HP). exists x. split; [by right|done].
Qed.

Lemma ids_of_entries (w : World) (l : list (string * nat)) (objs : list SessionData) :
  Forall2 (fun kv o => objects w !! snd kv = Some o /\ view_at w (snd kv) = Some (view_obj w o))
          l objs ->
  (forall kv, kv ∈ l -> forall v, view_at w kv.2 = Some v -> v_sessionId v = kv.1) ->
  map sessionId objs = map fst l.
Proof.
  induction 1 as [|kv o l k [_ Hv] _ IH]; intros Hall; [done|].
  cbn [map]. f_equal.
  - exact (Hall kv (list_elem_of_here _ _) _ Hv).
  - apply IH. intros kv' Hkv'. apply Hall. by right.
Qed.

Section Eviction.

Variable w : World.
Hypothesis Hstore : store_ok w = true.

Lemma store_ok_NoDup : NoDup (map fst (sessions w)).
Proof.
  unfold store_ok in Hstore. apply andb_true_iff in Hstore as [_ H].
  by apply bool_decide_eq_true in H.
Qed.

Lemma store_ok_heap : heap_ok w = true.
Proof.
  unfold store_ok in Hstore. apply andb_true_iff in Hstore as [H _].
  unfold heap_ok. apply forallb_forall. intros kv Hkv.
  rewrite forallb_forall in H. specialize (H kv Hkv).
  destruct (view_at w kv.2) as [v|]; [|discriminate].
  apply bool_decide_eq_true. by eexists.
Qed.

Lemma store_ok_key kv v :
  kv ∈ sessions w -> view_at w kv.2 = Some v -> v_sessionId v = kv.1.
Proof.
  intros Hkv Hv.
  unfold store_ok in Hstore. apply andb_true_iff in Hstore as [H _].
  rewrite forallb_forall in H. specialize (H kv (proj1 (list_elem_of_In _ _) Hkv)).
  rewrite Hv in H. apply String.eqb_eq in H. done.
Qed.

Variable objs : list SessionData.
Hypothesis Hobjs :
  Forall2 (fun kv o => objects w !! snd kv = Some o /\ view_at w (snd kv) = Some (view_obj w o))
          (sessions w) objs.

(** An object read from the store is what its id is stored as. *)
Lemma stored_of_object o :
  o ∈ objs -> stored w (sessionId o) = Some (view_obj w o).
Proof.
  intros Ho.
  destruct (Forall2_elem_of_r _ _ _ _ Hobjs Ho) as ([k r] & Hkv & _ & Hv).
  pose proof (store_ok_key _ _ Hkv Hv) as Hk. cbn in Hk.
  unfold stored. rewrite (map_get_NoDup _ r _ store_ok_NoDup); [exact Hv|].
  by rewrite <- Hk in Hkv.
Qed.

(** What is stored under an id is the view of one of the objects. *)
Lemma object_of_stored sid v :
  stored w sid = Some v -> exists o, o ∈ objs /\ sessionId o = sid /\ v = view_obj w o.
Proof.
  unfold stored.
  destruct (map_get sid (sessions w)) as [r|] eqn:E; [|discriminate].
  intros Hv. apply map_get_elem_of in E.
  destruct (Forall2_elem_of_l _ _ _ _ Hobjs E) as (o & Ho & _ & Hvo).
  cbn in Hvo. exists o. split; [done|].
  pose proof (store_ok_key _ _ E Hv) as Hk. cbn in Hk.
  split; [|congruence].
  assert (v = view_obj w o) as -> by congruence. done.
Qed.

Lemma ids_are_keys : map sessionId objs = map fst (sessions w).
Proof.
  apply (ids_of_entries w _ _ Hobjs). intros kv Hkv v Hv. by apply store_ok_key.
Qed.

End Eviction.

Lemma stored_after_eviction (w : World) (ids : list string) (sid : string) :
  (sid ∈ ids ->
   stored (set_sessions (filter (fun kv => kv.1 ∉ ids) (sessions w)) w) sid = None) /\
  (sid ∉ ids ->
   stored (set_sessions (filter (fun kv => kv.1 ∉ ids) (sessions w)) w) sid = stored w sid).
Proof.
  destruct (map_get_filter_keys (fun kv : string * nat => kv.1 ∉ ids) (fun k => k ∉ ids)
              sid (sessions w)) as [Hkeep Hdrop]; [done|].
  unfold stored. cbn [sessions set_sessions]. split.
  - intros Hin. rewrite Hdrop; [done|]. intros Hn. by apply Hn.
  - intros Hn. by rewrite (Hkeep Hn).
Qed.

(** X23.  On a store whose records are on the heap under their own ids:
    when the number of sessions is at most [maxSessions], nothing is
    removed; otherwise the sessions removed are the first
    [count - maxSessions] of the stored sessions sorted by [lastActivity]
    (ascending, ties in insertion order), exactly [count - maxSessions] are
    removed, [maxSessions] remain unchanged, and every removed session was
    last active no later than every remaining one. *)
Theorem enforceSessionLimit_removes_oldest :
  forall (cfg : MemoryConfig) (w : World),
    store_ok w = true ->
    0 <= maxSessions cfg ->
    exists objs : list SessionData,
      getAllSessions w = (Ok objs, w) /\
      (Z.of_nat (length (sessions w)) <= maxSessions cfg ->
       enforceSessionLimit cfg w = (Ok 0, w)) /\
      (maxSessions cfg < Z.of_nat (length (sessions w)) ->
       exists (removed : list SessionData) (w' : World),
         removed = take (length (sessions w) - Z.to_nat (maxSessions cfg))
                        (sort_by_activity objs) /\
         enforceSessionLimit cfg w
           = (Ok (Z.of_nat (length (sessions w)) - maxSessions cfg), w') /\
         Z.of_nat (length removed) = Z.of_nat (length (sessions w)) - maxSessions cfg /\
         Z.of_nat (length (sessions w')) = maxSessions cfg /\
         (forall sid, sid ∈ map sessionId removed ->
            stored w sid <> None /\ stored w' sid = None) /\
         (forall sid, sid ∉ map sessionId removed -> stored w' sid = stored w sid) /\
         (forall a b va vb,
            stored w a = Some va -> stored w' a = None -> stored w' b = Some vb ->
            v_lastActivity va <= v_lastActivity vb)).
Proof.
  intros cfg w Hstore Hmax.
  destruct (getAllSessions_ok w (store_ok_heap w Hstore)) as (objs & E & F & _ & V).
  exists objs. split; [exact E|].
  assert (Ec : getSessionCount w = (Ok (Z.of_nat (length (sessions w))), w)) by reflexivity.
  split.
  { intros Hle. unfold enforceSessionLimit. run Ec.
    by rewrite (proj2 (Z.leb_le _ _) Hle). }
  intros Hgt.
  set (n := length (sessions w)) in *.
  set (k := (n - Z.to_nat (maxSessions cfg))%nat).
  set (sorted := sort_by_activity objs).
  pose proof (sort_by_activity_perm objs) as Hperm. fold sorted in Hperm.
  pose proof (sort_by_activity_sorted objs) as Hsorted. fold sorted in Hsorted.
  assert (Hlen : length sorted = n).
  { rewrite Hperm. symmetry. by eapply Forall2_length. }
  assert (Hk : (k <= length sorted)%nat) by lia.
  assert (Hids : map sessionId objs = map fst (sessions w)) by (by eapply ids_are_keys).
  assert (Hnd : NoDup (map sessionId sorted)).
  { assert (Hp : map sessionId sorted ≡ₚ map sessionId objs) by (by apply Permutation_map).
    rewrite Hp, Hids. by apply store_ok_NoDup. }
  assert (Hsplit : sorted = take k sorted ++ drop k sorted) by (by rewrite take_drop).
  assert (HndD : NoDup (map sessionId (take k sorted))).
  { rewrite Hsplit, map_app in Hnd. by apply NoDup_app in Hnd as (H1 & _ & _). }
  assert (Hin_objs : forall s, s ∈ sorted -> s ∈ objs) by (intros s; by rewrite Hperm).
  assert (Hin_take : forall s, s ∈ take k sorted -> s ∈ sorted).
  { intros s Hs. rewrite Hsplit. apply elem_of_app. by left. }
  assert (Hkeys : forall s, s ∈ take k sorted -> sessionId s ∈ map fst (sessions w)).
  { intros s Hs. rewrite <- Hids. apply list_elem_of_In, in_map, list_elem_of_In.
    by apply Hin_objs, Hin_take. }
  destruct (evict_loop (take k sorted) w 0 (store_ok_NoDup w Hstore) HndD Hkeys) as [Eloop Lloop].
  assert (HlenD : length (take k sorted) = k) by (rewrite length_take; lia).
  exists (take k sorted),
         (set_sessions (filter (fun kv => kv.1 ∉ map sessionId (take k sorted)) (sessions w)) w).
  split; [reflexivity|]. split.
  { unfold enforceSessionLimit. run Ec.
    rewrite (proj2 (Z.leb_gt _ _)) by lia. run E.
    replace (Z.to_nat (Z.of_nat n - maxSessions cfg)) with k by lia.
    etransitivity.
    { exact (foldM_by_index sorted evict_one
               (throw (TypeError "Cannot read properties of undefined (reading 'sessionId')"))
               k 0 0 w Hk). }
    rewrite drop_0, Eloop, HlenD. f_equal. f_equal. lia. }
  split; [rewrite HlenD; lia|].
  split; [cbn [sessions set_sessions]; lia|].
  split.
  { intros sid Hsid. split.
    - apply list_elem_of_In, in_map_iff in Hsid as (s & <- & Hs).
      apply list_elem_of_In in Hs.
      rewrite (stored_of_object w Hstore objs F s); [done|]. by apply Hin_objs, Hin_take.
    - by apply stored_after_eviction. }
  split; [intros sid Hsid; by apply stored_after_eviction|].
  intros a b va vb Ha Ha' Hb'.
  assert (Hain : a ∈ map sessionId (take k sorted)).
  { destruct (decide (a ∈ map sessionId (take k sorted))) as [|Hn]; [done|].
    rewrite (proj2 (stored_after_eviction w _ a) Hn) in Ha'. congruence. }
  assert (Hbout : b ∉ map sessionId (take k sorted)).
  { intros Hbin. rewrite (proj1 (stored_after_eviction w _ b) Hbin) in Hb'. discriminate. }
  rewrite (proj2 (stored_after_eviction w _ b) Hbout) in Hb'.
  apply list_elem_of_In, in_map_iff in Hain as (s & Hsa & Hs). apply list_elem_of_In in Hs.
  assert (Hva : va = view_obj w s).
  { pose proof (stored_of_object w Hstore objs F s (Hin_objs _ (Hin_take _ Hs))) as H.
    rewrite Hsa in H. congruence. }
  destruct (object_of_stored w Hstore objs F b vb Hb') as (t & Ht & Htb & Hvb).
  assert (Htd : t ∈ drop k sorted).
  { assert (Hts : t ∈ sorted) by (by rewrite Hperm).
    rewrite Hsplit in Hts. apply elem_of_app in Hts as [Htt|]; [|done].
    exfalso. apply Hbout. rewrite <- Htb.
    apply list_elem_of_In, in_map. by apply list_elem_of_In. }
  rewrite Hsplit in Hsorted.
  pose proof (StronglySorted_app_1_elem_of _ _ _ _ _ Hsorted Hs Htd) as Hle.
  subst va vb. exact Hle.
Qed.

Lemma enforceSessionLimit_removes_oldest_scenario :
  store_ok world_four = true /\
  0 <= maxSessions (loadMemoryConfig env_cap_3) /\
  maxSessions (loadMemoryConfig env_cap_3) < Z.of_nat (length (sessions world_four)) /\
  exists w' : World,
    enforceSessionLimit (loadMemoryConfig env_cap_3) world_four = (Ok 1, w') /\
    Z.of_nat (length (sessions w')) = 3.
Proof.
  split; [vm_compute; reflexivity|].
  split; [vm_compute; discriminate|].
  split; [vm_compute; reflexivity|].
  destruct (enforceSessionLimit_removes_oldest (loadMemoryConfig env_cap_3) world_four)
    as (objs & _ & _ & Hgt).
  - vm_compute; reflexivity.
  - vm_compute; discriminate.
  - destruct Hgt as (removed & w' & _ & E & _ & L & _); [vm_compute; reflexivity|].
    exists w'. split; [exact E|exact L].
Defined.

(** Scenario 3 of the specification, run: a is removed, b, c and d
    remain. *)
Example enforceSessionLimit_four_sessions_cap_three :
  (enforceSessionLimit (loadMemoryConfig env_cap_3) world_four).1 = Ok 1 /\
  map fst (sessions (enforceSessionLimit (loadMemoryConfig env_cap_3) world_four).2)
    = ["b"; "c"; "d"].
Proof. vm_compute. split; reflexivity. Qed.

(** C6.  The cap is not enforced on a store that holds a record under a
    key that is not its [sessionId], and the corruption check makes such a
    store: for the record of the empty id it generates a [sessionId] and
    writes the record back under the old key.  With that record the
    oldest of three sessions and [MAX_SESSIONS=2], [enforceSessionLimit]
    sorts it first, calls [delete] with the generated id, which is no key
    of the map, counts nothing and returns 0: three sessions stay where
    two are allowed, the oldest among them. *)
Theorem enforceSessionLimit_keeps_record_renamed_by_guard :
  Guard.sessions (performSystemCorruptionCheck guard_state_empty_id).2
    = [("", raw_session (mkView "recovered_1002_k3v9x2m1q" [] [] 1003 0))] /\
  stored world_renamed "" = Some (mkView "recovered_1002_k3v9x2m1q" [] [] 1003 0) /\
  stored world_renamed "b" = Some (mkView "b" [] [] 1004 0) /\
  stored world_renamed "c" = Some (mkView "c" [] [] 1005 0) /\
  maxSessions (loadMemoryConfig env_cap_2) = 2 /\
  getSessionCount world_renamed = (Ok 3, world_renamed) /\
  enforceSessionLimit (loadMemoryConfig env_cap_2) world_renamed = (Ok 0, world_renamed) /\
  map fst (sessions (enforceSessionLimit (loadMemoryConfig env_cap_2) world_renamed).2)
    = [""; "b"; "c"].
Proof. vm_compute. repeat split. Qed.

(** ** The corruption guard *)

Lemma failing_from_none {A : Type} (ok : A -> bool) (l : list A) (i : nat) :
  forallb ok l = true -> failing_from ok l i = [].
Proof.
  revert i. induction l as [|x l IH]; intros i; cbn [forallb failing_from]; [done|].
  intros H. apply andb_true_iff in H as [Hx Hl]. rewrite Hx. cbn [app]. by apply IH.
Qed.

Lemma filter_all_valid {A : Type} (ok : A -> bool) (l : list A) :
  forallb ok l = true -> filter (fun x => ok x = true) l = l.
Proof.
  induction l as [|x l IH]; cbn [forallb]; [done|].
  intros H. apply andb_true_iff in H as [Hx Hl].
  rewrite filter_cons_True by done. f_equal. by apply IH.
Qed.

Lemma field_set_same (o : Obj) (name : string) (v : JsVal) :
  field (VObj (map_set name v o)) name = v.
Proof. unfold field. by rewrite map_get_set. Qed.

Lemma field_set_other (o : Obj) (name name' : string) (v : JsVal) :
  name' <> name -> field (VObj (map_set name v o)) name' = field (VObj o) name'.
Proof. intros H. unfold field. by rewrite map_get_set_ne. Qed.

(** C4, as the code has it.  For a record in which everything but the
    count is well formed, [validateSessionIntegrity] accepts it exactly
    when [messageCount] equals the number of messages.  Any other count,
    also a greater one, is the issue 'Message count mismatch', which makes
    the record invalid, and [repairSessionData] rewrites the count to the
    number of messages (and nothing else). *)
Theorem validateSessionIntegrity_requires_equal_count :
  forall (o : Obj) (msgs : list JsVal) (c : Z),
    Guard.well_formed o = true ->
    field (VObj o) "messages" = VArr msgs ->
    field (VObj o) "messageCount" = VNum (Num c) ->
    (c = Z.of_nat (length msgs) ->
     Guard.validateSessionIntegrity (VObj o) = mkIntegrity true [] /\
     forall s, Guard.repairSessionData o s = (Ok (o, []), s)) /\
    (c <> Z.of_nat (length msgs) ->
     Guard.validateSessionIntegrity (VObj o)
       = mkIntegrity false
           [CountMismatch (VNum (Num c)) (VNum (Num (Z.of_nat (length msgs))))] /\
     forall s, Guard.repairSessionData o s
       = (Ok (map_set "messageCount" (VNum (Num (Z.of_nat (length msgs)))) o,
              [CorrectedMessageCount]), s)).
Proof.
  intros o msgs c Hwf Hm Hc.
  unfold Guard.well_formed in Hwf.
  apply andb_true_iff in Hwf as [Hwf Hla].
  apply andb_true_iff in Hwf as [Hwf Hsums].
  apply andb_true_iff in Hwf as [Hwf Hmsgs].
  apply andb_true_iff in Hwf as [Hdata Hid].
  rewrite Hm in Hmsgs.
  destruct (field (VObj o) "summaries") as [| | | | | |sums|] eqn:Hs; try discriminate.
  pose proof Hdata as Hdata'. unfold Guard.validateSessionData in Hdata'.
  repeat (apply andb_true_iff in Hdata' as [Hdata' ?]).
  destruct (field (VObj o) "lastActivity") as [| | | | |[|t]| |] eqn:Hl; try discriminate.
  assert (Hval : forall b,
            (c =? Z.of_nat (length msgs)) = b ->
            Guard.validateSessionIntegrity (VObj o)
            = mkIntegrity b (if b then [] else
                [CountMismatch (VNum (Num c)) (VNum (Num (Z.of_nat (length msgs))))])).
  { intros b Hb. unfold Guard.validateSessionIntegrity.
    rewrite Hdata, Hid, Hm, Hs, Hc, Hl. cbn [negb orb is_string is_date time_isNaN js_length strict_eq].
    match goal with H : is_string (field (VObj o) "sessionId") = true |- _ => rewrite H end.
    rewrite (failing_from_none _ _ _ Hmsgs), (failing_from_none _ _ _ Hsums), Hb.
    by destruct b. }
  assert (Hrep : forall b s,
            (c =? Z.of_nat (length msgs)) = b ->
            Guard.repairSessionData o s
            = (Ok (if b then (o, []) else
                     (map_set "messageCount" (VNum (Num (Z.of_nat (length msgs)))) o,
                      [CorrectedMessageCount])), s)).
  { intros b s Hb. unfold Guard.repairSessionData.
    rewrite Hid. cbn [negb]. unfold bind at 1, ret at 1. cbn beta iota zeta.
    rewrite Hm. cbn beta iota zeta.
    rewrite (filter_all_valid _ _ Hmsgs), Nat.eqb_refl. cbn [negb]. cbn beta iota zeta.
    rewrite Hs. cbn beta iota zeta.
    rewrite (filter_all_valid _ _ Hsums), Nat.eqb_refl. cbn [negb]. cbn beta iota zeta.
    rewrite Hm, Hc. cbn [js_length strict_eq]. rewrite Hb.
    destruct b; cbn [negb]; cbn beta iota zeta.
    - rewrite Hl. cbn [is_date time_isNaN negb orb]. reflexivity.
    - rewrite field_set_other by done. rewrite Hl. cbn [is_date time_isNaN negb orb].
      reflexivity. }
  split.
  - intros Heq. apply Z.eqb_eq in Heq. split; [exact (Hval true Heq)|].
    intros s. exact (Hrep true s Heq).
  - intros Hne. apply Z.eqb_neq in Hne. split; [exact (Hval false Hne)|].
    intros s. exact (Hrep false s Hne).
Qed.

Lemma validateSessionIntegrity_requires_equal_count_summarized :
  Guard.well_formed record_summarized = true /\
  Guard.validateSessionIntegrity (VObj record_summarized)
    = mkIntegrity false [CountMismatch (VNum (Num 10)) (VNum (Num 6))] /\
  forall s, Guard.repairSessionData record_summarized s
    = (Ok (map_set "messageCount" (VNum (Num 6)) record_summarized,
           [CorrectedMessageCount]), s).
Proof.
  split; [vm_compute; reflexivity|].
  apply (validateSessionIntegrity_requires_equal_count
           record_summarized (map raw_message (map sample_message (seq 5 6))) 10).
  - vm_compute; reflexivity.
  - reflexivity.
  - reflexivity.
  - vm_compute; discriminate.
Defined.

(** C4 as stated fails: the record of a summarized session, well formed,
    with lifetime count 10 and six messages kept, is the record the
    manager stores after its tenth message; the guard reports it invalid
    and its repair rewrites the count. *)
Lemma validateSessionIntegrity_rejects_summarized_session :
  option_map raw_session (stored world_summarized "s1") = Some record_summarized /\
  Guard.well_formed record_summarized = true /\
  field (VObj record_summarized) "messageCount" = VNum (Num 10) /\
  js_length (field (VObj record_summarized) "messages") = VNum (Num 6) /\
  isValid (Guard.validateSessionIntegrity (VObj record_summarized)) = false /\
  (Guard.repairSessionData record_summarized guard_state_corrupted).1
    = Ok (map_set "messageCount" (VNum (Num 6)) record_summarized, [CorrectedMessageCount]) /\
  map_set "messageCount" (VNum (Num 6)) record_summarized <> record_summarized.
Proof.
  split; [vm_compute; reflexivity|].
  split; [vm_compute; reflexivity|].
  split; [reflexivity|].
  split; [reflexivity|].
  split; [vm_compute; reflexivity|].
  split; [vm_compute; reflexivity|].
  vm_compute. discriminate.
Qed.

(** The verdict of the guard depends on [lastActivity] only through its
    being a valid date. *)
Lemma integrity_ext (o1 o2 : Obj) (t1 t2 : Z) :
  field (VObj o1) "sessionId" = field (VObj o2) "sessionId" ->
  field (VObj o1) "messages" = field (VObj o2) "messages" ->
  field (VObj o1) "summaries" = field (VObj o2) "summaries" ->
  field (VObj o1) "messageCount" = field (VObj o2) "messageCount" ->
  field (VObj o1) "lastActivity" = VDate (Num t1) ->
  field (VObj o2) "lastActivity" = VDate (Num t2) ->
  Guard.validateSessionIntegrity (VObj o1) = Guard.validateSessionIntegrity (VObj o2).
Proof.
  intros H1 H2 H3 H4 H5 H6.
  unfold Guard.validateSessionIntegrity, Guard.validateSessionData.
  by rewrite H1, H2, H3, H4, H5, H6.
Qed.

Lemma integrity_touch (o : Obj) (d d' : Z) :
  Guard.validateSessionIntegrity (VObj (touch d (touch d' o)))
  = Guard.validateSessionIntegrity (VObj (touch d' o)).
Proof.
  apply (integrity_ext _ _ d d'); unfold touch;
    rewrite ?field_set_same, ?field_set_other by done; reflexivity.
Qed.

Lemma valid_structure (o : Obj) :
  isValid (Guard.validateSessionIntegrity (VObj o)) = true ->
  Guard.validateSessionData (VObj o) = true.
Proof.
  unfold Guard.validateSessionIntegrity.
  by destruct (Guard.validateSessionData (VObj o)).
Qed.

Lemma valid_lastActivity (o : Obj) :
  isValid (Guard.validateSessionIntegrity (VObj o)) = true ->
  exists t, field (VObj o) "lastActivity" = VDate (Num t).
Proof.
  unfold Guard.validateSessionIntegrity.
  destruct (Guard.validateSessionData (VObj o)); [|discriminate].
  cbn [negb isValid]. rewrite !length_app.
  destruct (field (VObj o) "lastActivity") as [| | | | |[|t]| |];
    cbn [is_date time_isNaN negb orb length]; intros H; try (by eexists);
    apply Nat.eqb_eq in H; lia.
Qed.

(** Touching a valid record leaves it valid. *)
Lemma valid_touch (o : Obj) (d : Z) :
  isValid (Guard.validateSessionIntegrity (VObj o)) = true ->
  Guard.validateSessionIntegrity (VObj (touch d o)) = Guard.validateSessionIntegrity (VObj o).
Proof.
  intros H. destruct (valid_lastActivity _ H) as [t Ht].
  apply (integrity_ext _ _ d t); unfold touch;
    rewrite ?field_set_same, ?field_set_other by done; done.
Qed.

Lemma empty_record_valid (sid : string) (d : Z) :
  sid <> "" ->
  Guard.validateSessionIntegrity (VObj (empty_record sid d)) = mkIntegrity true [].
Proof. intros H. destruct sid; [done|reflexivity]. Qed.

Section GuardSteps.

Variables (s : Guard.State) (sid : string) (rp : CorruptionReport).

Lemma lift_run {A : Type} (m : M Guard.State A) (x : Res A) (s' : Guard.State) :
  m s = (x, s') -> Guard.lift m (s, rp) = (x, (s', rp)).
Proof. intros H. unfold Guard.lift. cbn [fst snd]. by rewrite H. Qed.

Lemma guard_hasSession (rec : Obj) :
  map_get sid (Guard.sessions s) = Some rec -> Guard.hasSession sid s = (Ok true, s).
Proof. intros H. unfold Guard.hasSession, map_has. by rewrite H. Qed.

Lemma guard_getSession (rec : Obj) :
  map_get sid (Guard.sessions s) = Some rec ->
  Guard.getSession sid s
    = (Ok (touch (Guard.wall s (Guard.ticks s)) rec), guard_touched sid rec s).
Proof. intros H. unfold Guard.getSession. by rewrite H. Qed.

Lemma guard_updateSession (o : Obj) :
  Guard.validateSessionData (VObj o) = true ->
  Guard.updateSession sid o s = (Ok tt, guard_touched sid o s).
Proof. intros H. unfold Guard.updateSession. by rewrite H. Qed.

Lemma guard_createEmptySession :
  Guard.createEmptySession sid s
    = (Ok (empty_record sid (Guard.wall s (Guard.ticks s))), guard_tick s).
Proof. reflexivity. Qed.

(** [repairSessionData] always returns, and leaves the store alone. *)
Lemma guard_repair_returns (o : Obj) :
  exists res s', Guard.repairSessionData o s = (Ok res, s') /\
                 Guard.sessions s' = Guard.sessions s.
Proof.
  unfold Guard.repairSessionData.
  destruct (negb (truthy (field (VObj o) "sessionId")));
    unfold bind at 1; cbn -[pretty field map_set filter].
  - match goal with
    | |- context [let '(r, a) := ?p in _] => destruct p as [r2 a2]
    end.
    match goal with
    | |- context [let '(r, a) := ?p in _] => destruct p as [r3 a3]
    end.
    match goal with
    | |- context [let '(r, a) := ?p in _] => destruct p as [r4 a4]
    end.
    destruct (negb (is_date (field (VObj r4) "lastActivity"))
              || time_isNaN (field (VObj r4) "lastActivity"));
      cbn; eexists _, _; split; reflexivity.
  - match goal with
    | |- context [let '(r, a) := ?p in _] => destruct p as [r2 a2]
    end.
    match goal with
    | |- context [let '(r, a) := ?p in _] => destruct p as [r3 a3]
    end.
    match goal with
    | |- context [let '(r, a) := ?p in _] => destruct p as [r4 a4]
    end.
    destruct (negb (is_date (field (VObj r4) "lastActivity"))
              || time_isNaN (field (VObj r4) "lastActivity"));
      cbn; eexists _, _; split; reflexivity.
Qed.

End GuardSteps.

Section Detect.

Variables (s : Guard.State) (sid : string) (rec : Obj).
Hypothesis Hknown : map_get sid (Guard.sessions s) = Some rec.

(** A record that is valid once touched: nothing is reported, and the
    touch is the only change. *)
Lemma detect_valid :
  isValid (Guard.validateSessionIntegrity
             (VObj (touch (Guard.wall s (Guard.ticks s)) rec))) = true ->
  Guard.detectAndRecoverCorruption sid s
    = (Ok (mkReport sid false [] false []), guard_touched sid rec s).
Proof.
  intros Hvalid.
  unfold Guard.detectAndRecoverCorruption, Guard.detect_body, try_catch.
  run (lift_run s (mkReport sid false [] false []) _ _ _ (guard_hasSession s sid rec Hknown)).
  cbn [negb].
  run (lift_run s (mkReport sid false [] false []) _ _ _ (guard_getSession s sid rec Hknown)).
  cbn zeta. rewrite Hvalid. cbn [negb].
  reflexivity.
Qed.

(** A record that is invalid once touched: it is repaired or reset, and
    what is written back is valid. *)
Lemma detect_invalid :
  sid <> "" ->
  isValid (Guard.validateSessionIntegrity
             (VObj (touch (Guard.wall s (Guard.ticks s)) rec))) = false ->
  exists (report : CorruptionReport) (s1 : Guard.State) (rec1 : Obj),
    Guard.detectAndRecoverCorruption sid s = (Ok report, s1) /\
    map_get sid (Guard.sessions s1) = Some rec1 /\
    isValid (Guard.validateSessionIntegrity (VObj rec1)) = true /\
    isCorrupted report = true /\
    recovered report = true /\
    rp_issues report
      = issues (Guard.validateSessionIntegrity
                  (VObj (touch (Guard.wall s (Guard.ticks s)) rec))).
Proof.
  intros Hsid Hinvalid.
  set (t0 := touch (Guard.wall s (Guard.ticks s)) rec) in *.
  set (s1 := guard_touched sid rec s).
  destruct (guard_repair_returns s1 t0) as ([rep acts] & s2 & Erep & Hsess).
  unfold Guard.detectAndRecoverCorruption, Guard.detect_body, try_catch.
  run (lift_run s (mkReport sid false [] false []) _ _ _ (guard_hasSession s sid rec Hknown)).
  cbn [negb].
  run (lift_run s (mkReport sid false [] false []) _ _ _ (guard_getSession s sid rec Hknown)).
  fold t0 s1. cbn zeta. rewrite Hinvalid. cbn [negb].
  unfold bind at 1 2. unfold Guard.modify_report at 1. cbn [fst snd].
  unfold bind at 1. unfold Guard.modify_report at 1. cbn [fst snd].
  unfold bind at 1. rewrite (lift_run s1 _ _ _ _ Erep). cbn [fst snd].
  destruct (isValid (Guard.validateSessionIntegrity (VObj rep))) eqn:Hrv.
  - unfold bind at 1.
    rewrite (lift_run s2 _ _ _ _ (guard_updateSession s2 sid rep (valid_structure _ Hrv))).
    cbn. eexists _, _, _. split; [reflexivity|]. cbn.
    split; [apply map_get_set|].
    split; [by rewrite valid_touch|]. by repeat split.
  - unfold bind at 1.
    rewrite (lift_run s2 _ _ _ _ (guard_createEmptySession s2 sid)).
    unfold bind at 1.
    rewrite (lift_run (guard_tick s2) _ _ _ _
               (guard_updateSession (guard_tick s2) sid
                  (empty_record sid (Guard.wall s2 (Guard.ticks s2))) eq_refl)).
    cbn. eexists _, _, _. split; [reflexivity|]. cbn.
    split; [apply map_get_set|].
    split; [|by repeat split].
    pose proof (empty_record_valid sid (Guard.wall s2 (S (Guard.ticks s2))) Hsid) as Hev.
    unfold empty_record in Hev. by rewrite Hev.
Qed.

End Detect.

(** C8.  A session id that is not the empty string holds a record, however
    its fields are.  [detectAndRecoverCorruption] returns a report (it does
    not throw), the store then holds for that id a record that
    [validateSessionIntegrity] accepts, and a corrupted record is reported
    as recovered.  Run again, it reports the session as not corrupted, with
    no issue and no recovery action, and only touches [lastActivity]. *)
Theorem detectAndRecoverCorruption_heals_then_reports_nothing :
  forall (s : Guard.State) (sid : string) (rec : Obj),
    sid <> "" ->
    map_get sid (Guard.sessions s) = Some rec ->
    exists (report1 : CorruptionReport) (s1 : Guard.State) (rec1 : Obj),
      Guard.detectAndRecoverCorruption sid s = (Ok report1, s1) /\
      map_get sid (Guard.sessions s1) = Some rec1 /\
      isValid (Guard.validateSessionIntegrity (VObj rec1)) = true /\
      (isCorrupted report1 = true -> recovered report1 = true) /\
      Guard.detectAndRecoverCorruption sid s1
        = (Ok (mkReport sid false [] false []), guard_touched sid rec1 s1) /\
      isValid (Guard.validateSessionIntegrity
                 (VObj (touch (Guard.wall s1 (Guard.ticks s1)) rec1))) = true.
Proof.
  intros s sid rec Hsid Hknown.
  assert (Hagain : forall s1 rec1,
            map_get sid (Guard.sessions s1) = Some rec1 ->
            isValid (Guard.validateSessionIntegrity (VObj rec1)) = true ->
            Guard.detectAndRecoverCorruption sid s1
              = (Ok (mkReport sid false [] false []), guard_touched sid rec1 s1) /\
            isValid (Guard.validateSessionIntegrity
                       (VObj (touch (Guard.wall s1 (Guard.ticks s1)) rec1))) = true).
  { intros s1 rec1 H1 Hv.
    assert (Hv' : isValid (Guard.validateSessionIntegrity
                    (VObj (touch (Guard.wall s1 (Guard.ticks s1)) rec1))) = true)
      by (by rewrite valid_touch).
    split; [by apply detect_valid|done]. }
  destruct (isValid (Guard.validateSessionIntegrity
                       (VObj (touch (Guard.wall s (Guard.ticks s)) rec)))) eqn:Hv.
  - exists (mkReport sid false [] false []), (guard_touched sid rec s),
           (touch (Guard.wall s (Guard.ticks s)) rec).
    assert (H1 : map_get sid (Guard.sessions (guard_touched sid rec s))
                 = Some (touch (Guard.wall s (Guard.ticks s)) rec))
      by apply map_get_set.
    split; [by apply detect_valid|]. split; [exact H1|]. split; [exact Hv|].
    split; [discriminate|]. by apply Hagain.
  - destruct (detect_invalid s sid rec Hknown Hsid Hv)
      as (report & s1 & rec1 & E & H1 & Hv1 & _ & Hrec & _).
    exists report, s1, rec1.
    split; [exact E|]. split; [exact H1|]. split; [exact Hv1|].
    split; [done|]. by apply Hagain.
Qed.

Lemma detectAndRecoverCorruption_heals_missing_timestamp :
  "s1" <> "" /\
  map_get "s1" (Guard.sessions guard_state_corrupted) = Some record_missing_timestamp /\
  isValid (Guard.validateSessionIntegrity (VObj record_missing_timestamp)) = false /\
  exists (report1 : CorruptionReport) (s1 : Guard.State) (rec1 : Obj),
    Guard.detectAndRecoverCorruption "s1" guard_state_corrupted = (Ok report1, s1) /\
    map_get "s1" (Guard.sessions s1) = Some rec1 /\
    isValid (Guard.validateSessionIntegrity (VObj rec1)) = true /\
    Guard.detectAndRecoverCorruption "s1" s1
      = (Ok (mkReport "s1" false [] false []), guard_touched "s1" rec1 s1).
Proof.
  split; [discriminate|].
  split; [reflexivity|].
  split; [vm_compute; reflexivity|].
  destruct (detectAndRecoverCorruption_heals_then_reports_nothing
              guard_state_corrupted "s1" record_missing_timestamp)
    as (report1 & s1 & rec1 & E & H1 & Hv & _ & E2 & _).
  - discriminate.
  - reflexivity.
  - exists report1, s1, rec1. repeat split; assumption.
Defined.

(** Scenario 5 of the specification, run: the message without timestamp
    is dropped, the count becomes 1, and the second run reports nothing. *)
Example detectAndRecoverCorruption_missing_timestamp_run :
  (Guard.detectAndRecoverCorruption "s1" guard_state_corrupted).1
    = Ok (mkReport "s1" true [InvalidMessageAt 1] true
            [RemovedInvalidMessages 0; CorrectedMessageCount]) /\
  map_get "s1" (Guard.sessions (Guard.detectAndRecoverCorruption "s1" guard_state_corrupted).2)
    = Some [("sessionId", VStr "s1");
            ("messages", VArr [raw_message (sample_message 1)]);
            ("summaries", VArr []);
            ("lastActivity", VDate (Num 1001));
            ("messageCount", VNum (Num 1))] /\
  (Guard.detectAndRecoverCorruption "s1"
     (Guard.detectAndRecoverCorruption "s1" guard_state_corrupted).2).1
    = Ok (mkReport "s1" false [] false []).
Proof. vm_compute. repeat split. Qed.

(** The empty string is not a session id for the guard: the fresh record
    that the reset writes under a key carries the key as [sessionId], and
    the guard wants that field non-empty. *)
Example empty_record_of_empty_id_is_invalid :
  Guard.validateSessionIntegrity (VObj (empty_record "" 0))
    = mkIntegrity false [InvalidSessionId].
Proof. reflexivity. Qed.

(** ** The states the manager builds *)

Lemma store_ok_iff (w : World) : store_ok w = true <-> StoreOK w.
Proof.
  unfold store_ok, StoreOK. rewrite andb_true_iff, bool_decide_eq_true, forallb_forall.
  split; intros [H1 H2].
  - split; [exact H2|]. intros k r Hin.
    specialize (H1 (k, r) (proj1 (list_elem_of_In _ _) Hin)). cbn [fst snd] in H1.
    destruct (view_at w r) as [v|] eqn:Hv; [|discriminate].
    apply String.eqb_eq in H1.
    destruct (view_at_Some _ _ _ Hv) as (o & Ho & Lm & Ls & Hvo & _).
    exists o. repeat split; try done. rewrite H1, Hvo. reflexivity.
  - split; [|exact H1]. intros [k r] Hin. apply list_elem_of_In in Hin.
    destruct (H2 k r Hin) as (o & Ho & Hid & Lm & Ls).
    apply lookup_lt_is_Some in Lm as [ms Hms]. apply lookup_lt_is_Some in Ls as [ss Hss].
    cbn [fst snd]. unfold view_at. rewrite Ho, Hms, Hss. cbn [v_sessionId].
    rewrite Hid. apply String.eqb_refl.
Qed.

Lemma StoreOK_session_ok (w : World) (sid : string) : StoreOK w -> session_ok w sid = true.
Proof.
  intros [_ H]. unfold session_ok.
  destruct (map_get sid (sessions w)) as [r|] eqn:E; [|done].
  destruct (H sid r (map_get_elem_of _ _ _ E)) as (o & Ho & _ & Lm & Ls).
  apply lookup_lt_is_Some in Lm as [ms Hms]. apply lookup_lt_is_Some in Ls as [ss Hss].
  apply bool_decide_eq_true. unfold view_at. rewrite Ho, Hms, Hss. by eexists.
Qed.

Lemma StoreOK_heap_ok (w : World) : StoreOK w -> heap_ok w = true.
Proof. intros H. apply store_ok_iff in H. by apply store_ok_heap. Qed.

(** The store stays in order when the map is left alone and every object
    keeps its id and has its arrays. *)
Lemma StoreOK_update (w w' : World) :
  sessions w' = sessions w ->
  (forall x o, objects w !! x = Some o ->
     (messages o < length (messageArrays w))%nat ->
     (summaries o < length (stringArrays w))%nat ->
     exists o', objects w' !! x = Some o' /\ sessionId o' = sessionId o /\
                (messages o' < length (messageArrays w'))%nat /\
                (summaries o' < length (stringArrays w'))%nat) ->
  StoreOK w -> StoreOK w' /\ sessions w' = sessions w.
Proof.
  intros Hs Hobj [Hnd Hall]. split; [|exact Hs]. split; rewrite Hs; [exact Hnd|].
  intros k r Hin. destruct (Hall k r Hin) as (o & Ho & Hid & Lm & Ls).
  destruct (Hobj r o Ho Lm Ls) as (o' & Ho' & Hid' & Lm' & Ls').
  exists o'. repeat split; try done. congruence.
Qed.

Section Combinators.

Context {A B : Type}.

Lemma quiet_ret (a : A) : quiet (ret a).
Proof. intros w H. by split. Qed.

Lemma quiet_throw (e : JsError) : quiet (@throw World A e).
Proof. intros w H. by split. Qed.

Lemma quiet_bind (m : M World A) (k : A -> M World B) :
  quiet m -> (forall a, quiet (k a)) -> quiet (bind m k).
Proof.
  intros Hm Hk w H. unfold bind. specialize (Hm w H).
  destruct (m w) as [[a|e] w1]; cbn [snd] in *; [|done].
  destruct Hm as [H1 S1]. destruct (Hk a w1 H1) as [H2 S2].
  split; [done|congruence].
Qed.

Lemma quiet_try_catch (m : M World A) (h : JsError -> M World A) :
  quiet m -> (forall e, quiet (h e)) -> quiet (try_catch m h).
Proof.
  intros Hm Hh w H. unfold try_catch. specialize (Hm w H).
  destruct (m w) as [[a|e] w1]; cbn [snd] in *; [done|].
  destruct Hm as [H1 S1]. destruct (Hh e w1 H1) as [H2 S2].
  split; [done|congruence].
Qed.

Lemma keeps_ret (I : World -> Prop) (a : A) : keeps I (ret a).
Proof. by intros w H. Qed.

Lemma keeps_throw (I : World -> Prop) (e : JsError) : keeps I (@throw World A e).
Proof. by intros w H. Qed.

Lemma keeps_bind (I : World -> Prop) (m : M World A) (k : A -> M World B) :
  keeps I m -> (forall a, keeps I (k a)) -> keeps I (bind m k).
Proof.
  intros Hm Hk w H. unfold bind. specialize (Hm w H).
  destruct (m w) as [[a|e] w1]; cbn [snd] in *; [|done].
  by apply Hk.
Qed.

Lemma keeps_try_catch (I : World -> Prop) (m : M World A) (h : JsError -> M World A) :
  keeps I m -> (forall e, keeps I (h e)) -> keeps I (try_catch m h).
Proof.
  intros Hm Hh w H. unfold try_catch. specialize (Hm w H).
  destruct (m w) as [[a|e] w1]; cbn [snd] in *; [done|].
  by apply Hh.
Qed.

Lemma quiet_keeps_StoreOK (m : M World A) : quiet m -> keeps StoreOK m.
Proof. intros Hm w H. by apply Hm. Qed.

Lemma quiet_keeps_Holding (sid : string) (r : nat) (m : M World A) :
  quiet m -> keeps (Holding sid r) m.
Proof.
  intros Hm w [H1 H2]. destruct (Hm w H1) as [H3 H4].
  split; [done|]. by rewrite H4.
Qed.

End Combinators.

Lemma quiet_mapM {A B : Type} (f : A -> M World B) (l : list A) :
  (forall x, quiet (f x)) -> quiet (mapM f l).
Proof.
  intros Hf. induction l as [|x l IH]; cbn [mapM]; [apply quiet_ret|].
  apply quiet_bind; [apply Hf|]. intros y.
  apply quiet_bind; [exact IH|]. intros ys. apply quiet_ret.
Qed.

Lemma keeps_foldM {A B : Type} (I : World -> Prop) (f : B -> A -> M World B) (l : list A) :
  (forall b x, keeps I (f b x)) -> forall b, keeps I (foldM f l b).
Proof.
  intros Hf. induction l as [|x l IH]; intros b; cbn [foldM]; [apply keeps_ret|].
  apply keeps_bind; [apply Hf|]. intros b'. apply IH.
Qed.

(** *** The primitives *)

Lemma quiet_newDate : quiet newDate.
Proof. intros w H. unfold newDate. cbn [snd]. by apply StoreOK_update; [|eauto 10|]. Qed.

Lemma quiet_readSession (r : nat) : quiet (readSession r).
Proof. intros w H. unfold readSession, dangling, throw. by destruct (objects w !! r). Qed.

Lemma quiet_readMessages (a : nat) : quiet (readMessages a).
Proof. intros w H. unfold readMessages, dangling, throw. by destruct (messageArrays w !! a). Qed.

Lemma quiet_readStrings (a : nat) : quiet (readStrings a).
Proof. intros w H. unfold readStrings, dangling, throw. by destruct (stringArrays w !! a). Qed.

Lemma quiet_modifySession (r : nat) (f : SessionData -> SessionData) :
  (forall o, sessionId (f o) = sessionId o /\ messages (f o) = messages o /\
             summaries (f o) = summaries o) ->
  quiet (modifySession r f).
Proof.
  intros Hf w H. unfold modifySession, dangling, throw.
  destruct (objects w !! r) as [o0|] eqn:E; [|by split].
  cbn [snd]. apply StoreOK_update; [done| |done].
  intros x o Ho Lm Ls. cbn [objects messageArrays stringArrays set_objects].
  destruct (decide (x = r)) as [->|Hne].
  - assert (o = o0) as -> by congruence.
    exists (f o0). destruct (Hf o0) as (F1 & F2 & F3).
    rewrite list_lookup_insert_eq by (by eapply lookup_lt_Some).
    repeat split; congruence.
  - exists o. by rewrite list_lookup_insert_ne.
Qed.

Lemma quiet_pushMessage (a : nat) (x : Message) : quiet (pushMessage a x).
Proof.
  intros w H. unfold pushMessage, dangling, throw.
  destruct (messageArrays w !! a) as [l|]; [|by split].
  cbn [snd]. apply StoreOK_update; [done| |done].
  intros y o Ho Lm Ls. exists o.
  cbn [objects messageArrays stringArrays set_messageArrays]. by rewrite length_insert.
Qed.

Lemma quiet_pushString (a : nat) (x : string) : quiet (pushString a x).
Proof.
  intros w H. unfold pushString, dangling, throw.
  destruct (stringArrays w !! a) as [l|]; [|by split].
  cbn [snd]. apply StoreOK_update; [done| |done].
  intros y o Ho Lm Ls. exists o.
  cbn [objects messageArrays stringArrays set_stringArrays]. by rewrite length_insert.
Qed.

Lemma quiet_allocMessages (l : list Message) : quiet (allocMessages l).
Proof.
  intros w H. unfold allocMessages. cbn [snd]. apply StoreOK_update; [done| |done].
  intros y o Ho Lm Ls. exists o.
  cbn [objects messageArrays stringArrays set_messageArrays]. rewrite length_app.
  repeat split; try done. lia.
Qed.

Lemma quiet_allocStrings (l : list string) : quiet (allocStrings l).
Proof.
  intros w H. unfold allocStrings. cbn [snd]. apply StoreOK_update; [done| |done].
  intros y o Ho Lm Ls. exists o.
  cbn [objects messageArrays stringArrays set_stringArrays]. rewrite length_app.
  repeat split; try done. lia.
Qed.

(** [session.messages = kept] with the array just built *)
Lemma quiet_replaceMessages (r : nat) (l : list Message) :
  quiet (kept <- allocMessages l ;; modifySession r (with_messages kept)).
Proof.
  intros w H. unfold bind, allocMessages, modifySession, dangling, throw.
  cbn [objects set_messageArrays].
  destruct (objects w !! r) as [o0|] eqn:E; cbn [snd].
  - apply StoreOK_update; [done| |done].
    intros x o Ho Lm Ls.
    cbn [objects messageArrays stringArrays set_objects set_messageArrays].
    rewrite length_app. cbn [length].
    destruct (decide (x = r)) as [->|Hne].
    + assert (o = o0) as -> by congruence.
      exists (with_messages (length (messageArrays w)) o0).
      rewrite list_lookup_insert_eq by (by eapply lookup_lt_Some).
      repeat split; cbn; try done. lia.
    + exists o. rewrite list_lookup_insert_ne by done. repeat split; try done. lia.
  - apply StoreOK_update; [done| |done].
    intros x o Ho Lm Ls. exists o.
    cbn [objects messageArrays stringArrays set_messageArrays]. rewrite length_app.
    repeat split; try done. lia.
Qed.

Lemma quiet_logError t msg sid e : quiet (logError t msg sid e).
Proof.
  unfold logError. apply quiet_bind; [apply quiet_newDate|]. intros d w H.
  cbn [snd]. by apply StoreOK_update; [|eauto 10|].
Qed.

Lemma quiet_updateSessionActivity (r : nat) : quiet (updateSessionActivity r).
Proof.
  unfold updateSessionActivity. apply quiet_bind; [apply quiet_newDate|].
  intros d. by apply quiet_modifySession.
Qed.

Lemma quiet_validateSessionData (r : nat) : quiet (validateSessionData r).
Proof.
  unfold validateSessionData. apply quiet_bind; [apply quiet_readSession|].
  intros o w H. by split.
Qed.

(** *** The store *)

Lemma map_set_elem_of {V : Type} (k k' : string) (v v' : V) (m : list (string * V)) :
  (k', v') ∈ map_set k v m -> (k' = k /\ v' = v) \/ (k', v') ∈ m.
Proof.
  induction m as [|[k0 v0] m IH]; cbn [map_set]; intros H.
  - apply list_elem_of_singleton in H as [= -> ->]. by left.
  - destruct (String.eqb k k0).
    + apply elem_of_cons in H as [[= -> ->]|H]; [by left|right; by right].
    + apply elem_of_cons in H as [->|H]; [right; left|].
      destruct (IH H) as [?|?]; [by left|right; by right].
Qed.

Lemma map_set_keys_known {V : Type} (k : string) (v v0 : V) (m : list (string * V)) :
  map_get k m = Some v0 -> map fst (map_set k v m) = map fst m.
Proof.
  induction m as [|[k1 v1] m IH]; cbn [map_get map_set]; [discriminate|].
  destruct (String.eqb k k1) eqn:E.
  - apply String.eqb_eq in E. by subst.
  - intros H. cbn [map fst]. by rewrite IH.
Qed.

Lemma map_set_keys_NoDup {V : Type} (k : string) (v : V) (m : list (string * V)) :
  NoDup (map fst m) -> NoDup (map fst (map_set k v m)).
Proof.
  destruct (map_get k m) as [v0|] eqn:E.
  - by rewrite (map_set_keys_known _ _ _ _ E).
  - rewrite (map_set_new _ _ _ E), map_app. cbn [map fst]. intros Hnd.
    apply NoDup_app. split; [done|]. split; [|apply NoDup_singleton].
    intros x Hx Hx'. apply list_elem_of_singleton in Hx'. subst x.
    by apply map_get_None in E.
Qed.

(** [createEmptySession] followed by [sessions.set]: what [clearSession]
    does, and [getSession] for an unseen id. *)
Lemma clearSession_StoreOK (sid : string) (w : World) :
  StoreOK w ->
  StoreOK (clearSession sid w).2 /\
  map_get sid (sessions (clearSession sid w).2) = Some (length (objects w)).
Proof.
  intros [Hnd Hall]. unfold clearSession.
  unfold bind, createEmptySession, bind, allocMessages, allocStrings, newDate, allocSession.
  cbn [snd fst sessions objects messageArrays stringArrays set_sessions set_objects
       set_messageArrays set_stringArrays set_ticks].
  split; [|apply map_get_set]. split.
  - cbn [sessions]. by apply map_set_keys_NoDup.
  - cbn [sessions objects messageArrays stringArrays set_sessions set_objects
         set_messageArrays set_stringArrays set_ticks].
    intros k r Hin. rewrite !length_app. cbn [length].
    apply map_set_elem_of in Hin as [[-> ->]|Hin].
    + eexists. split; [by apply list_lookup_middle|]. cbn. repeat split; lia.
    + destruct (Hall k r Hin) as (o & Ho & Hid & Lm & Ls).
      exists o. split; [by apply lookup_app_l_Some|]. repeat split; try done; lia.
Qed.

Lemma getSession_unseen_as_clear (sid : string) (w : World) :
  map_get sid (sessions w) = None ->
  getSession sid w = (Ok (length (objects w)), (clearSession sid w).2).
Proof. intros H. unfold getSession. rewrite H. reflexivity. Qed.

Lemma getSession_holding (sid : string) (w : World) :
  StoreOK w ->
  match getSession sid w with
  | (Ok r, w1) => Holding sid r w1
  | (Throw _, w1) => StoreOK w1
  end.
Proof.
  intros H. destruct (map_get sid (sessions w)) as [r|] eqn:E.
  - destruct H as [Hnd Hall].
    destruct (Hall sid r (map_get_elem_of _ _ _ E)) as (o & Ho & _).
    rewrite (getSession_known _ _ _ _ E Ho).
    destruct (quiet_updateSessionActivity r w (conj Hnd Hall)) as [H1 H2].
    unfold updateSessionActivity, bind, newDate, modifySession in H1, H2.
    cbn [objects set_ticks ticks wall] in H1, H2. rewrite Ho in H1, H2.
    cbn [snd] in H1, H2. split; [exact H1|]. by rewrite H2.
  - rewrite (getSession_unseen_as_clear _ _ E).
    destruct (clearSession_StoreOK sid w H) as [H1 H2]. by split.
Qed.

Lemma keeps_getSession_Holding (sid : string) (r : nat) :
  keeps (Holding sid r) (getSession sid).
Proof.
  intros w [H E]. pose proof (getSession_holding sid w H) as Hg.
  destruct H as [Hnd Hall].
  destruct (Hall sid r (map_get_elem_of _ _ _ E)) as (o & Ho & _).
  rewrite (getSession_known _ _ _ _ E Ho) in Hg |- *. exact Hg.
Qed.

Lemma keeps_updateSession_Holding (sid : string) (r : nat) :
  keeps (Holding sid r) (updateSession sid r).
Proof.
  unfold updateSession.
  apply keeps_bind; [apply quiet_keeps_Holding, quiet_validateSessionData|].
  intros valid. destruct (negb valid); [apply keeps_throw|].
  apply keeps_bind; [apply quiet_keeps_Holding, quiet_updateSessionActivity|].
  intros _ w [H E]. cbn [snd]. rewrite (map_set_same _ _ _ E).
  rewrite set_sessions_same. by split.
Qed.

Lemma keeps_deleteSession (sid : string) : keeps StoreOK (deleteSession sid).
Proof.
  intros w [Hnd Hall]. unfold deleteSession. cbn [snd].
  rewrite (map_delete_filter _ _ Hnd). split; cbn [sessions set_sessions].
  - by apply keys_filter_NoDup.
  - intros k r Hin. apply list_elem_of_filter in Hin as [_ Hin]. by apply Hall.
Qed.

Lemma quiet_getAllSessions : quiet getAllSessions.
Proof.
  intros w H. unfold getAllSessions.
  apply (quiet_mapM readSession (map snd (sessions w)) quiet_readSession w H).
Qed.

Lemma quiet_getStats : quiet getStats.
Proof.
  unfold getStats. apply quiet_bind; [apply quiet_getAllSessions|].
  intros [|s0 rest]; [apply quiet_ret|].
  apply quiet_bind; [|intros; apply quiet_ret].
  apply quiet_mapM. intros o.
  apply quiet_bind; [apply quiet_readStrings|]. intros; apply quiet_ret.
Qed.

Section ManagerKeeps.

Variables (cfg : MemoryConfig) (gen : SummaryGenerator).

Lemma keeps_storage_cleanup : keeps StoreOK (storage_cleanupInactiveSessions cfg).
Proof.
  unfold storage_cleanupInactiveSessions.
  apply keeps_bind.
  - apply quiet_keeps_StoreOK. unfold getInactiveSessions.
    apply quiet_bind; [apply quiet_newDate|]. intros now.
    apply quiet_bind; [apply quiet_getAllSessions|]. intros all. apply quiet_ret.
  - intros inactive. apply keeps_foldM. intros c s0.
    apply keeps_bind; [apply keeps_deleteSession|]. intros d. apply keeps_ret.
Qed.

Lemma keeps_enforceSessionLimit : keeps StoreOK (enforceSessionLimit cfg).
Proof.
  unfold enforceSessionLimit.
  apply keeps_bind; [by intros w H|]. intros currentCount.
  destruct (currentCount <=? maxSessions cfg); [apply keeps_ret|].
  apply keeps_bind; [apply quiet_keeps_StoreOK, quiet_getAllSessions|]. intros all.
  apply keeps_foldM. intros c i.
  destruct (sort_by_activity all !! i); [|apply keeps_throw].
  apply keeps_bind; [apply keeps_deleteSession|]. intros d. apply keeps_ret.
Qed.

Lemma keeps_triggerSummarization (sid : string) (r : nat) :
  keeps (Holding sid r) (triggerSummarization cfg gen sid).
Proof.
  unfold triggerSummarization.
  apply keeps_try_catch; [|intros e; apply keeps_throw].
  apply keeps_bind; [apply keeps_getSession_Holding|]. intros session.
  apply keeps_bind; [apply quiet_keeps_Holding, quiet_readSession|]. intros o.
  destruct (negb (needsSummarization cfg o)); [apply keeps_ret|].
  destruct (negb (isAvailable gen)); [apply keeps_ret|].
  apply keeps_bind; [apply quiet_keeps_Holding, quiet_readMessages|]. intros msgs.
  destruct (length (getMessagesToSummarize cfg msgs) =? 0)%nat; [apply keeps_ret|].
  intros w H.
  destruct (generateSummary gen (getMessagesToSummarize cfg msgs)) as [summary|e]; [|exact H].
  revert w H.
  destruct (truthy_string summary && (0 <? String.length (js_trim summary))%nat);
    [|apply keeps_ret].
  apply keeps_bind; [apply quiet_keeps_Holding, quiet_pushString|]. intros _.
  apply keeps_bind; [apply quiet_keeps_Holding, quiet_readSession|]. intros o'.
  apply keeps_bind; [apply quiet_keeps_Holding, quiet_readMessages|]. intros current.
  apply quiet_keeps_Holding, quiet_replaceMessages.
Qed.

(** The shape shared by [addMessage] and [getContext]: the record is
    fetched or created first, and the rest works on it. *)
Lemma keeps_after_getSession {A : Type} (sid : string)
    (k : nat -> M World A) (h : JsError -> M World A) :
  (forall r, keeps (Holding sid r) (k r)) ->
  (forall e, quiet (h e)) ->
  keeps StoreOK (try_catch (session <- getSession sid ;; k session) h).
Proof.
  intros Hk Hh w H. unfold try_catch, bind.
  pose proof (getSession_holding sid w H) as Hg.
  destruct (getSession sid w) as [[r|e] w1].
  - specialize (Hk r w1 Hg). destruct (k r w1) as [[a|e] w2]; cbn [snd] in *.
    + by destruct Hk.
    + destruct Hk as [Hk _]. by apply Hh.
  - cbn [snd]. by apply Hh.
Qed.

Lemma keeps_addMessage (sid : string) (m : Message) :
  keeps StoreOK (addMessage cfg gen sid m).
Proof.
  unfold addMessage. apply keeps_after_getSession.
  - intros r.
    apply keeps_bind; [apply quiet_keeps_Holding, quiet_readSession|]. intros o.
    apply keeps_bind; [apply quiet_keeps_Holding, quiet_pushMessage|]. intros _.
    apply keeps_bind; [by apply quiet_keeps_Holding, quiet_modifySession|]. intros _.
    apply keeps_bind; [apply quiet_keeps_Holding, quiet_updateSessionActivity|]. intros _.
    apply keeps_bind; [apply quiet_keeps_Holding, quiet_readSession|]. intros o'.
    apply keeps_bind; [|intros _; apply keeps_updateSession_Holding].
    destruct (needsSummarization cfg o'); [apply keeps_triggerSummarization|apply keeps_ret].
  - intros e. apply quiet_bind; [apply quiet_logError|]. intros _. apply quiet_throw.
Qed.

Lemma keeps_getContext (sid : string) : keeps StoreOK (getContext cfg sid).
Proof.
  unfold getContext. apply keeps_after_getSession.
  - intros r. apply quiet_keeps_Holding.
    apply quiet_bind; [apply quiet_readSession|]. intros o.
    apply quiet_bind; [apply quiet_readMessages|]. intros msgs.
    apply quiet_bind; [apply quiet_allocMessages|]. intros recent.
    apply quiet_bind; [apply quiet_readStrings|]. intros sums.
    apply quiet_bind; [apply quiet_allocStrings|]. intros sums_copy.
    apply quiet_bind; [apply quiet_readMessages|]. intros elems.
    apply quiet_bind; [apply quiet_allocMessages|]. intros recent_copy.
    apply quiet_bind; [apply quiet_readSession|]. intros o'. apply quiet_ret.
  - intros e. apply quiet_bind; [apply quiet_logError|]. intros _.
    apply quiet_bind; [apply quiet_allocStrings|]. intros sums.
    apply quiet_bind; [apply quiet_allocMessages|]. intros recent. apply quiet_ret.
Qed.

Lemma keeps_after_call (c : ManagerCall) (w : World) :
  StoreOK w -> StoreOK (after_call cfg gen w c).
Proof.
  intros H. destruct c as [sid m|sid|sid| | |sid]; cbn [after_call].
  - by apply keeps_addMessage.
  - by apply keeps_getContext.
  - unfold manager_clearSession, try_catch.
    pose proof (clearSession_StoreOK sid w H) as [H1 _].
    by destruct (clearSession sid w) as [[[]|e] w1].
  - unfold cleanupInactiveSessions.
    apply keeps_try_catch; [|intros; apply keeps_ret|exact H].
    apply keeps_bind; [apply keeps_storage_cleanup|]. intros _.
    apply keeps_bind; [apply keeps_enforceSessionLimit|]. intros _. apply keeps_ret.
  - by apply quiet_getStats.
  - exact H.
Qed.

(** X22.  Whatever a client calls on a fresh process, in whatever order
    and whatever the generator answers, the store is in order: the
    hypothesis of the statements about the store as a whole holds in every
    state the manager builds. *)
Lemma store_ok_after_calls (clock : nat -> Z) (cs : list ManagerCall) :
  store_ok (after_calls cfg gen clock cs) = true.
Proof.
  apply store_ok_iff. unfold after_calls.
  assert (H0 : StoreOK (boot clock)).
  { split; [constructor|]. intros k r Hin. by apply elem_of_nil in Hin. }
  revert H0. generalize (boot clock).
  induction cs as [|c cs IH]; intros w H; cbn [foldl]; [exact H|].
  apply IH. by apply keeps_after_call.
Qed.

End ManagerKeeps.

(** ** The validators of the configuration *)

(** X1.  The three validators of the configuration draw the same line:
    [validateMemoryConfig] reports no error exactly when [validateConfig]
    answers true, and [validateConfig] is [validateSummarizationConfig]
    together with a positive timeout and a positive session cap. *)
Theorem validateConfig_agrees_with_validators : forall config : MemoryConfig,
  cv_isValid (validateMemoryConfig config) = validateConfig config /\
  validateConfig config =
    sc_isValid (validateSummarizationConfig config)
    && (0 <? sessionTimeoutHours config) && (0 <? maxSessions config).
Proof.
  intros [mt rl st ms key].
  unfold validateMemoryConfig, validateConfig, validateSummarizationConfig.
  cbn [memoryThreshold recentMessagesLimit sessionTimeoutHours maxSessions
       cv_isValid sc_isValid].
  destruct (Z.leb_spec mt 0), (Z.leb_spec rl 0), (Z.leb_spec st 0), (Z.leb_spec ms 0),
           (Z.leb_spec mt rl), (Z.ltb_spec 0 mt), (Z.ltb_spec 0 rl), (Z.ltb_spec 0 st),
           (Z.ltb_spec 0 ms), (Z.ltb_spec rl mt);
    try lia; split; reflexivity.
Qed.

Lemma check_envVar_status (r : EnvReport) (v : EnvVar) :
  check_envVar r v =
    match envVar_status v with
    | EnvValid =>
        mkEnvReport (er_valid r ++ [ev_name v]) (er_invalid r) (er_missing r) (er_suggestions r)
    | EnvInvalid value issue =>
        mkEnvReport (er_valid r) (er_invalid r ++ [mkInvalidVar (ev_name v) value issue])
                    (er_missing r) (er_suggestions r)
    | EnvMissing =>
        mkEnvReport (er_valid r) (er_invalid r) (er_missing r ++ [ev_name v]) (er_suggestions r)
    end.
Proof.
  unfold check_envVar, envVar_status.
  destruct (ev_current v) as [c|]; [|done].
  destruct (negb (truthy_string c)); [done|].
  destruct (ev_type v) as [lo hi|n].
  - destruct (parseInt10 c) as [|p]; [done|].
    destruct (negb (lo =? 0) && (p <? lo)); [done|].
    by destruct (negb (hi =? 0) && (hi <? p)).
  - by destruct (negb (n =? 0) && (Z.of_nat (String.length c) <? n)).
Qed.

(** The three lists the loop builds: every entry of the table goes to
    exactly the list its status names. *)
Lemma check_envVars_lists (vars : list EnvVar) : forall r : EnvReport,
  (forall name, name ∈ er_valid (foldl check_envVar r vars) <->
     name ∈ er_valid r \/ exists v, v ∈ vars /\ ev_name v = name /\ envVar_status v = EnvValid) /\
  (forall name, name ∈ map iv_name (er_invalid (foldl check_envVar r vars)) <->
     name ∈ map iv_name (er_invalid r) \/
     exists v value issue, v ∈ vars /\ ev_name v = name /\ envVar_status v = EnvInvalid value issue) /\
  (forall name, name ∈ er_missing (foldl check_envVar r vars) <->
     name ∈ er_missing r \/ exists v, v ∈ vars /\ ev_name v = name /\ envVar_status v = EnvMissing).
Proof.
  induction vars as [|v vars IH]; intros r; cbn [foldl].
  - repeat split; try tauto.
    + intros [H|(v & Hv & _)]; [done|by apply elem_of_nil in Hv].
    + intros [H|(v & ? & ? & Hv & _)]; [done|by apply elem_of_nil in Hv].
    + intros [H|(v & Hv & _)]; [done|by apply elem_of_nil in Hv].
  - destruct (IH (check_envVar r v)) as (IH1 & IH2 & IH3).
    rewrite check_envVar_status in IH1, IH2, IH3 |- *.
    split; [|split]; intros name.
    + rewrite IH1. destruct (envVar_status v) eqn:E; cbn [er_valid].
      * rewrite elem_of_app, list_elem_of_singleton. split.
        -- intros [[H| ->]|(v' & Hv' & Hn & Hs)]; [by left| |].
           ++ right. exists v. split; [left|done].
           ++ right. exists v'. split; [by right|done].
        -- intros [H|(v' & Hv' & Hn & Hs)]; [by left; left|].
           apply elem_of_cons in Hv' as [->|Hv']; [left; by right|].
           right. by exists v'.
      * split.
        -- intros [H|(v' & Hv' & Hn & Hs)]; [by left|].
           right. exists v'. split; [by right|done].
        -- intros [H|(v' & Hv' & Hn & Hs)]; [by left|].
           apply elem_of_cons in Hv' as [->|Hv']; [congruence|].
           right. by exists v'.
      * split.
        -- intros [H|(v' & Hv' & Hn & Hs)]; [by left|].
           right. exists v'. split; [by right|done].
        -- intros [H|(v' & Hv' & Hn & Hs)]; [by left|].
           apply elem_of_cons in Hv' as [->|Hv']; [congruence|].
           right. by exists v'.
    + rewrite IH2. destruct (envVar_status v) as [|value issue|] eqn:E; cbn [er_invalid].
      * split.
        -- intros [H|(v' & a & b & Hv' & Hn & Hs)]; [by left|].
           right. exists v', a, b. split; [by right|done].
        -- intros [H|(v' & a & b & Hv' & Hn & Hs)]; [by left|].
           apply elem_of_cons in Hv' as [->|Hv']; [congruence|].
           right. by exists v', a, b.
      * rewrite map_app, elem_of_app. cbn [map iv_name]. rewrite list_elem_of_singleton. split.
        -- intros [[H| ->]|(v' & a & b & Hv' & Hn & Hs)]; [by left| |].
           ++ right. exists v, value, issue. split; [left|done].
           ++ right. exists v', a, b. split; [by right|done].
        -- intros [H|(v' & a & b & Hv' & Hn & Hs)]; [by left; left|].
           apply elem_of_cons in Hv' as [->|Hv']; [left; by right|].
           right. by exists v', a, b.
      * split.
        -- intros [H|(v' & a & b & Hv' & Hn & Hs)]; [by left|].
           right. exists v', a, b. split; [by right|done].
        -- intros [H|(v' & a & b & Hv' & Hn & Hs)]; [by left|].
           apply elem_of_cons in Hv' as [->|Hv']; [congruence|].
           right. by exists v', a, b.
    + rewrite IH3. destruct (envVar_status v) eqn:E; cbn [er_missing].
      * split.
        -- intros [H|(v' & Hv' & Hn & Hs)]; [by left|].
           right. exists v'. split; [by right|done].
        -- intros [H|(v' & Hv' & Hn & Hs)]; [by left|].
           apply elem_of_cons in Hv' as [->|Hv']; [congruence|].
           right. by exists v'.
      * split.
        -- intros [H|(v' & Hv' & Hn & Hs)]; [by left|].
           right. exists v'. split; [by right|done].
        -- intros [H|(v' & Hv' & Hn & Hs)]; [by left|].
           apply elem_of_cons in Hv' as [->|Hv']; [congruence|].
           right. by exists v'.
      * rewrite elem_of_app, list_elem_of_singleton. split.
        -- intros [[H| ->]|(v' & Hv' & Hn & Hs)]; [by left| |].
           ++ right. exists v. split; [left|done].
           ++ right. exists v'. split; [by right|done].
        -- intros [H|(v' & Hv' & Hn & Hs)]; [by left; left|].
           apply elem_of_cons in Hv' as [->|Hv']; [left; by right|].
           right. by exists v'.
Qed.

Lemma load_block_status (name : string) (raw : option string) (hi d : Z) :
  0 < hi ->
  (envVar_status (mkEnvVar name raw (NumberVar 1 hi)) = EnvValid ->
   exists s, raw = Some s /\ parseInt10 s = Num (load_block raw hi d)) /\
  (envVar_status (mkEnvVar name raw (NumberVar 1 hi)) <> EnvValid ->
   load_block raw hi d = d).
Proof.
  intros Hhi. unfold envVar_status, load_block. cbn [ev_current ev_type].
  destruct raw as [s|]; [|by split].
  destruct (truthy_string s); cbn [negb]; [|by split].
  destruct (parseInt10 s) as [|p] eqn:Ep; cbn [positive_up_to num_or]; [by split|].
  change (1 =? 0) with false. rewrite (proj2 (Z.eqb_neq hi 0)) by lia. cbn [negb andb].
  destruct (Z.ltb_spec p 1), (Z.ltb_spec hi p), (Z.ltb_spec 0 p), (Z.leb_spec p hi);
    try lia; cbn [andb]; split; try done.
  intros _. by exists s.
Qed.

Lemma envVars_name_inj (env : Env) (v v' : EnvVar) :
  v ∈ envVars env -> v' ∈ envVars env -> ev_name v = ev_name v' -> v = v'.
Proof.
  unfold envVars. intros Hv Hv'.
  repeat (apply elem_of_cons in Hv as [->|Hv]); [..|by apply elem_of_nil in Hv];
    repeat (apply elem_of_cons in Hv' as [->|Hv']); try (by apply elem_of_nil in Hv');
    cbn [ev_name]; intros H; try reflexivity; discriminate H.
Qed.

(** Membership in a list that is written out. *)
Ltac in_list := apply list_elem_of_In; cbn; auto 12.
Ltac not_in_list :=
  let H := fresh in
  intros H; repeat (apply elem_of_cons in H as [H|H]; [discriminate H|]);
  by apply elem_of_nil in H.

(** X2.  [validateEnvironmentVariables] and [loadMemoryConfig] read the
    four numeric variables alike: a variable listed as valid is the one
    whose parsed value the loaded configuration carries, and for a
    variable not listed as valid (missing, empty, not a number or out of
    its range) the field is the default.  Each of the five names goes to
    exactly one of the lists [valid], [invalid] and [missing], and the key
    is reported missing exactly when [validateMemoryConfig] recommends to
    set it. *)
Theorem validateEnvironmentVariables_agrees_with_loadMemoryConfig : forall env : Env,
  let report := validateEnvironmentVariables env in
  let config := loadMemoryConfig env in
  (("MEMORY_THRESHOLD" ∈ er_valid report ->
    exists s, MEMORY_THRESHOLD env = Some s /\ parseInt10 s = Num (memoryThreshold config)) /\
   ("MEMORY_THRESHOLD" ∉ er_valid report ->
    memoryThreshold config = memoryThreshold DEFAULT_CONFIG)) /\
  (("RECENT_MESSAGES_LIMIT" ∈ er_valid report ->
    exists s, RECENT_MESSAGES_LIMIT env = Some s /\
              parseInt10 s = Num (recentMessagesLimit config)) /\
   ("RECENT_MESSAGES_LIMIT" ∉ er_valid report ->
    recentMessagesLimit config = recentMessagesLimit DEFAULT_CONFIG)) /\
  (("SESSION_TIMEOUT_HOURS" ∈ er_valid report ->
    exists s, SESSION_TIMEOUT_HOURS env = Some s /\
              parseInt10 s = Num (sessionTimeoutHours config)) /\
   ("SESSION_TIMEOUT_HOURS" ∉ er_valid report ->
    sessionTimeoutHours config = sessionTimeoutHours DEFAULT_CONFIG)) /\
  (("MAX_SESSIONS" ∈ er_valid report ->
    exists s, MAX_SESSIONS env = Some s /\ parseInt10 s = Num (maxSessions config)) /\
   ("MAX_SESSIONS" ∉ er_valid report ->
    maxSessions config = maxSessions DEFAULT_CONFIG)) /\
  (forall name, name ∈ map ev_name (envVars env) ->
     (name ∈ er_valid report \/ name ∈ map iv_name (er_invalid report) \/
      name ∈ er_missing report) /\
     ~ (name ∈ er_valid report /\ name ∈ map iv_name (er_invalid report)) /\
     ~ (name ∈ er_valid report /\ name ∈ er_missing report) /\
     ~ (name ∈ map iv_name (er_invalid report) /\ name ∈ er_missing report)) /\
  ("GEMINI_API_KEY" ∈ er_missing report <->
   SetApiKey ∈ cv_recommendations (validateMemoryConfig config)).
Proof.
  intros env report config.
  destruct (check_envVars_lists (envVars env) (mkEnvReport [] [] [] [])) as (Hvalid & Hinvalid & Hmissing).
  change (er_valid (foldl check_envVar (mkEnvReport [] [] [] []) (envVars env)))
    with (er_valid report) in Hvalid.
  change (er_invalid (foldl check_envVar (mkEnvReport [] [] [] []) (envVars env)))
    with (er_invalid report) in Hinvalid.
  change (er_missing (foldl check_envVar (mkEnvReport [] [] [] []) (envVars env)))
    with (er_missing report) in Hmissing.
  cbn [er_valid er_invalid er_missing map] in Hvalid, Hinvalid, Hmissing.
  assert (Hfield : forall name raw hi d,
            0 < hi ->
            mkEnvVar name raw (NumberVar 1 hi) ∈ envVars env ->
            (name ∈ er_valid report ->
             exists s, raw = Some s /\ parseInt10 s = Num (load_block raw hi d)) /\
            (name ∉ er_valid report -> load_block raw hi d = d)).
  { intros name raw hi d Hhi Hin.
    destruct (load_block_status name raw hi d Hhi) as [Hyes Hno]. split.
    - intros Hv. apply Hvalid in Hv as [Hv|(v & Hv & Hn & Hs)]; [by apply elem_of_nil in Hv|].
      apply Hyes. by rewrite <- (envVars_name_inj env _ _ Hv Hin Hn).
    - intros Hv. apply Hno. intros Hs. apply Hv, Hvalid. right. by eexists. }
  split; [apply (Hfield "MEMORY_THRESHOLD" _ 100 10); [lia|in_list]|].
  split; [apply (Hfield "RECENT_MESSAGES_LIMIT" _ 20 6); [lia|in_list]|].
  split; [apply (Hfield "SESSION_TIMEOUT_HOURS" _ 168 24); [lia|in_list]|].
  split; [apply (Hfield "MAX_SESSIONS" _ 10000 1000); [lia|in_list]|].
  split.
  - intros name Hname.
    apply list_elem_of_In, in_map_iff in Hname as (v & <- & Hv). apply list_elem_of_In in Hv.
    split; [|split; [|split]].
    + destruct (envVar_status v) as [|value issue|] eqn:E.
      * left. apply Hvalid. right. by exists v.
      * right. left. apply Hinvalid. right. by exists v, value, issue.
      * right. right. apply Hmissing. right. by exists v.
    + intros [H1 H2].
      apply Hvalid in H1 as [H1|(v1 & Hv1 & Hn1 & Hs1)]; [by apply elem_of_nil in H1|].
      apply Hinvalid in H2 as [H2|(v2 & a & b & Hv2 & Hn2 & Hs2)]; [by apply elem_of_nil in H2|].
      rewrite (envVars_name_inj env _ _ Hv1 Hv Hn1) in Hs1.
      rewrite (envVars_name_inj env _ _ Hv2 Hv Hn2) in Hs2. congruence.
    + intros [H1 H2].
      apply Hvalid in H1 as [H1|(v1 & Hv1 & Hn1 & Hs1)]; [by apply elem_of_nil in H1|].
      apply Hmissing in H2 as [H2|(v2 & Hv2 & Hn2 & Hs2)]; [by apply elem_of_nil in H2|].
      rewrite (envVars_name_inj env _ _ Hv1 Hv Hn1) in Hs1.
      rewrite (envVars_name_inj env _ _ Hv2 Hv Hn2) in Hs2. congruence.
    + intros [H1 H2].
      apply Hinvalid in H1 as [H1|(v1 & a & b & Hv1 & Hn1 & Hs1)]; [by apply elem_of_nil in H1|].
      apply Hmissing in H2 as [H2|(v2 & Hv2 & Hn2 & Hs2)]; [by apply elem_of_nil in H2|].
      rewrite (envVars_name_inj env _ _ Hv1 Hv Hn1) in Hs1.
      rewrite (envVars_name_inj env _ _ Hv2 Hv Hn2) in Hs2. congruence.
  - assert (Hkey : mkEnvVar "GEMINI_API_KEY" (GEMINI_API_KEY env) (StringVar 20) ∈ envVars env)
      by in_list.
    assert (Hrec : SetApiKey ∈ cv_recommendations (validateMemoryConfig config) <->
                   match GEMINI_API_KEY env with
                   | None => True
                   | Some k => truthy_string k = false
                   end).
    { unfold validateMemoryConfig. cbn [cv_recommendations].
      change (geminiApiKey config) with (GEMINI_API_KEY env).
      rewrite !elem_of_app.
      assert (H6 : SetApiKey ∉
                (if ratio_gt_08 (recentMessagesLimit config) (memoryThreshold config)
                 then [WidenGap]
                 else if ratio_lt_03 (recentMessagesLimit config) (memoryThreshold config)
                      then [RaiseRecentLimit] else [])).
      { destruct (ratio_gt_08 _ _); [not_in_list|]. destruct (ratio_lt_03 _ _); not_in_list. }
      assert (H7 : SetApiKey ∉
                (if 100000 <? memoryThreshold config * maxSessions config
                 then [MonitorResources] else [])).
      { destruct (_ <? _); not_in_list. }
      destruct (GEMINI_API_KEY env) as [k|]; [destruct (truthy_string k)|]; cbn [negb].
      - split; [|done]. intros [H|[H|H]]; [by apply elem_of_nil in H|done|done].
      - split; [done|]. intros _. left. left.
      - split; [done|]. intros _. left. left. }
    rewrite Hrec, Hmissing. split.
    + intros [H|(v & Hv & Hn & Hs)]; [by apply elem_of_nil in H|].
      rewrite (envVars_name_inj env _ _ Hv Hkey Hn) in Hs.
      unfold envVar_status in Hs. cbn [ev_current ev_type] in Hs.
      destruct (GEMINI_API_KEY env) as [k|]; [|done].
      destruct (truthy_string k); [|done]. cbn [negb] in Hs.
      by destruct (negb (20 =? 0) && (Z.of_nat (String.length k) <? 20)).
    + intros H. right. eexists. split; [exact Hkey|]. split; [done|].
      unfold envVar_status. cbn [ev_current ev_type].
      destruct (GEMINI_API_KEY env) as [k|]; [|done]. by rewrite H.
Qed.

(** ** The windows of summarization *)

(** [slice(0, -k)] and [slice(-k)] cut an array at the same place,
    whatever [k] is. *)
Lemma windows_partition (cfg : MemoryConfig) (ms : list Message) :
  getMessagesToSummarize cfg ms ++ getRecentMessages cfg ms = ms.
Proof.
  destruct (Z.lt_trichotomy (recentMessagesLimit cfg) 0) as [Hneg|[Hzero|Hpos]].
  - unfold getMessagesToSummarize, getRecentMessages.
    rewrite (proj2 (Z.leb_gt _ _)) by lia.
    unfold js_slice, rel_index.
    change (0 <? 0) with false. cbn iota.
    rewrite (proj2 (Z.ltb_ge (- recentMessagesLimit cfg) 0)) by lia.
    rewrite (Z.min_l 0) by lia. simpl (Z.to_nat 0). rewrite drop_0.
    set (j := Z.to_nat (Z.min (- recentMessagesLimit cfg) (Z.of_nat (length ms)))).
    replace (Z.to_nat (Z.min (- recentMessagesLimit cfg) (Z.of_nat (length ms)) - 0))
      with j by lia.
    rewrite (take_ge (drop j ms)) by (rewrite length_drop; lia).
    apply take_drop.
  - unfold getMessagesToSummarize, getRecentMessages. rewrite Hzero.
    change (- 0) with 0. rewrite js_slice_all.
    destruct (Z.of_nat (length ms) <=? 0); [done|].
    pose proof (js_slice_empty_range ms) as H. change (- 0) with 0 in H. by rewrite H.
  - by apply summarized_then_recent.
Qed.

(** X3.  [calculateSummarizationStats] reads a stored session and leaves
    the state as it is.  The two windows it counts make up the stored
    messages, whatever the configuration: for a positive
    [recentMessagesLimit] the recent window holds the smaller of the limit
    and the number of messages, and for a limit of 0 it holds all of them
    and nothing is left to summarize.  [needsSummarization] goes by the
    lifetime count, not by the number of messages at hand. *)
Theorem calculateSummarizationStats_windows_make_up_messages :
  forall (cfg : MemoryConfig) (w : World) (sid : string) (r : nat) (v : SessionView),
    map_get sid (sessions w) = Some r ->
    stored w sid = Some v ->
    exists st : SummarizationStats,
      calculateSummarizationStats cfg r w = (Ok st, w) /\
      ss_totalMessages st = v_messageCount v /\
      ss_summariesCount st = Z.of_nat (length (v_summaries v)) /\
      ss_messagesToSummarize st + ss_recentMessages st = Z.of_nat (length (v_messages v)) /\
      (0 < recentMessagesLimit cfg ->
       ss_recentMessages st = Z.min (recentMessagesLimit cfg) (Z.of_nat (length (v_messages v)))) /\
      (recentMessagesLimit cfg = 0 ->
       ss_messagesToSummarize st = 0 /\
       ss_recentMessages st = Z.of_nat (length (v_messages v))) /\
      (ss_needsSummarization st = true <-> memoryThreshold cfg <= v_messageCount v).
Proof.
  intros cfg w sid r v Hr Hv.
  destruct (stored_At _ _ _ Hv) as (r' & o & HAt & Hview).
  assert (r' = r) as -> by (destruct HAt as (H & _); congruence).
  unfold calculateSummarizationStats.
  run (readSession_At _ _ _ _ _ _ HAt).
  run (readMessages_At _ _ _ _ _ _ HAt).
  run (readStrings_At _ _ _ _ _ _ HAt).
  eexists. split; [reflexivity|].
  cbn [ss_totalMessages ss_summariesCount ss_messagesToSummarize ss_recentMessages
       ss_needsSummarization].
  split; [by rewrite Hview|]. split; [done|].
  split.
  { rewrite <- Nat2Z.inj_add, <- length_app. by rewrite windows_partition. }
  split.
  { intros Hpos. rewrite getRecentMessages_drop, length_drop by done. lia. }
  split.
  { intros Hzero.
    pose proof (windows_partition cfg (v_messages v)) as Hp.
    assert (Hall : getRecentMessages cfg (v_messages v) = v_messages v).
    { unfold getRecentMessages. rewrite Hzero. change (- 0) with 0. apply js_slice_all. }
    rewrite Hall in Hp |- *. split; [|done].
    apply (f_equal length) in Hp. rewrite length_app in Hp.
    destruct (getMessagesToSummarize cfg (v_messages v)); [done|cbn [length] in Hp; lia]. }
  unfold needsSummarization. rewrite Z.leb_le. by rewrite Hview.
Qed.

Lemma calculateSummarizationStats_windows_make_up_messages_scenario :
  map_get "s1" (sessions world_summarized) = Some 0%nat /\
  exists st : SummarizationStats,
    calculateSummarizationStats (loadMemoryConfig env_unset) 0 world_summarized
      = (Ok st, world_summarized) /\
    ss_totalMessages st = 10 /\
    ss_messagesToSummarize st + ss_recentMessages st = 6.
Proof.
  split; [reflexivity|].
  destruct (calculateSummarizationStats_windows_make_up_messages
              (loadMemoryConfig env_unset) world_summarized "s1" 0
              (mkView "s1" (map sample_message (seq 5 6)) ["SUMMARY-1"] 1030 10))
    as (st & E & T & _ & P & _).
  - reflexivity.
  - vm_compute; reflexivity.
  - exists st. by repeat split.
Defined.

(** X4.  The threshold is tested on the lifetime count, which is never
    reset.  So once the count has reached it, every further [addMessage]
    summarizes again, provided the generator answers: the stored messages
    are cut back to the last [recentMessagesLimit] and one more summary is
    appended.  In the steady state, where the session holds exactly
    [recentMessagesLimit] messages, the generator is handed a single
    message, the oldest one. *)
Theorem addMessage_summarizes_again_after_threshold :
  forall (cfg : MemoryConfig) (gen : SummaryGenerator) (w : World) (sid : string)
         (v : SessionView) (m : Message) (summary : string),
    stored w sid = Some v ->
    memoryThreshold cfg <= v_messageCount v + 1 ->
    0 < recentMessagesLimit cfg <= Z.of_nat (length (v_messages v)) ->
    isAvailable gen = true ->
    generateSummary gen (getMessagesToSummarize cfg (v_messages v ++ [m])) = Ok summary ->
    js_trim summary <> "" ->
    exists (w' : World) (v' : SessionView),
      addMessage cfg gen sid m w = (Ok tt, w') /\
      stored w' sid = Some v' /\
      Z.of_nat (length (v_messages v')) = recentMessagesLimit cfg /\
      getMessagesToSummarize cfg (v_messages v ++ [m]) ++ v_messages v' = v_messages v ++ [m] /\
      v_summaries v' = v_summaries v ++ [summary] /\
      v_messageCount v' = v_messageCount v + 1 /\
      (Z.of_nat (length (v_messages v)) = recentMessagesLimit cfg ->
       getMessagesToSummarize cfg (v_messages v ++ [m]) = take 1 (v_messages v)).
Proof.
  intros cfg gen w sid v m summary Hv Hthr [Hpos Hlen] Hav Hgen Htrim.
  destruct (stored_At _ _ _ Hv) as (r & o & HAt & Hview).
  destruct (addMessage_known cfg gen w sid m r o _ _ HAt) as (w' & o' & E & A & C & I).
  assert (Hc : messageCount o = v_messageCount v) by (by rewrite Hview).
  assert (Hout : summarization_outcome cfg gen (messageCount o + 1) (v_messages v ++ [m])
                   (v_summaries v)
                 = (Ok tt, getRecentMessages cfg (v_messages v ++ [m]), v_summaries v ++ [summary])).
  { unfold summarization_outcome.
    rewrite Hc, (proj2 (Z.leb_le _ _) Hthr), Hav. cbn [negb].
    rewrite Hgen.
    replace (length (getMessagesToSummarize cfg (v_messages v ++ [m])) =? 0)%nat with false.
    2:{ symmetry. apply Nat.eqb_neq.
        rewrite getMessagesToSummarize_take, length_take, length_app by done.
        cbn [length]. lia. }
    replace (truthy_string summary && (0 <? String.length (js_trim summary))%nat) with true;
      [done|].
    symmetry. apply andb_true_iff. split.
    - destruct summary; [by exfalso; apply Htrim|done].
    - destruct (js_trim summary); [done|reflexivity]. }
  rewrite Hout in E, A. cbn [fst snd] in E, A.
  exists w', (view_of o' (getRecentMessages cfg (v_messages v ++ [m])) (v_summaries v ++ [summary])).
  split; [exact E|]. split; [exact (At_stored _ _ _ _ _ _ A)|].
  cbn [v_messages v_summaries v_messageCount view_of].
  split.
  { apply getRecentMessages_length; [done|]. rewrite length_app. cbn [length]. lia. }
  split; [apply windows_partition|].
  split; [done|]. split; [congruence|].
  intros Hfull. rewrite getMessagesToSummarize_take by done.
  rewrite length_app. cbn [length].
  replace (length (v_messages v) + 1 - Z.to_nat (recentMessagesLimit cfg))%nat with 1%nat by lia.
  apply take_app_le. lia.
Qed.

Lemma addMessage_summarizes_again_after_threshold_eleventh :
  exists (w' : World) (v' : SessionView),
    addMessage (loadMemoryConfig env_unset) generator_ok "s1" (sample_message 11) world_summarized
      = (Ok tt, w') /\
    stored w' "s1" = Some v' /\
    v_messages v' = map sample_message (seq 6 6) /\
    v_summaries v' = ["SUMMARY-1"; "SUMMARY-1"] /\
    v_messageCount v' = 11.
Proof.
  destruct (addMessage_summarizes_again_after_threshold
              (loadMemoryConfig env_unset) generator_ok world_summarized "s1"
              (mkView "s1" (map sample_message (seq 5 6)) ["SUMMARY-1"] 1030 10)
              (sample_message 11) "SUMMARY-1")
    as (w' & v' & E & S & _ & _ & Ss & C & _).
  - vm_compute; reflexivity.
  - vm_compute; discriminate.
  - split; vm_compute; [reflexivity|discriminate].
  - reflexivity.
  - reflexivity.
  - vm_compute; discriminate.
  - exists w', v'. split; [exact E|]. split; [exact S|].
    split; [|by split].
    assert (Hrun : option_map v_messages
                     (stored (addMessage (loadMemoryConfig env_unset) generator_ok "s1"
                                (sample_message 11) world_summarized).2 "s1")
                   = Some (map sample_message (seq 6 6)))
      by (vm_compute; reflexivity).
    rewrite E in Hrun. cbn [snd] in Hrun. rewrite S in Hrun. by injection Hrun.
Defined.

(** ** Removal of inactive sessions *)

Lemma NoDup_map_filter {A B : Type} (f : A -> B) (P : A -> Prop) `{!forall x, Decision (P x)}
    (l : list A) :
  NoDup (map f l) -> NoDup (map f (filter P l)).
Proof.
  induction l as [|x l IH]; cbn [map]; intros Hnd; [done|].
  apply NoDup_cons in Hnd as [Hx Hnd].
  destruct (decide (P x)).
  - rewrite filter_cons_True by done. cbn [map]. apply NoDup_cons. split; [|by apply IH].
    intros Hin. apply Hx.
    apply list_elem_of_In, in_map_iff in Hin as (y & <- & Hy).
    apply list_elem_of_In, list_elem_of_filter in Hy as [_ Hy].
    apply list_elem_of_In, in_map. by apply list_elem_of_In.
  - rewrite filter_cons_False by done. by apply IH.
Qed.

Lemma length_filter_map {A B : Type} (f : A -> B) (P : B -> Prop) `{!forall y, Decision (P y)}
    (l : list A) :
  length (filter P (map f l)) = length (filter (fun x => P (f x)) l).
Proof.
  induction l as [|x l IH]; [done|]. cbn [map].
  destruct (decide (P (f x))).
  - rewrite !filter_cons_True by done. cbn [length]. by rewrite IH.
  - by rewrite !filter_cons_False by done.
Qed.

(** What the removal of inactive sessions does to a store in order. *)
Lemma storage_cleanup_facts :
  forall (cfg : MemoryConfig) (w : World),
    store_ok w = true ->
    let now := wall w (ticks w) in
    let timeoutMs := sessionTimeoutHours cfg * 60 * 60 * 1000 in
    exists (n : Z) (w' : World),
      storage_cleanupInactiveSessions cfg w = (Ok n, w') /\
      n = Z.of_nat (length (filter (fun v => timeoutMs < now - v_lastActivity v) (views w))) /\
      Z.of_nat (length (sessions w')) + n = Z.of_nat (length (sessions w)) /\
      (forall sid v, stored w sid = Some v ->
         (timeoutMs < now - v_lastActivity v -> stored w' sid = None) /\
         (now - v_lastActivity v <= timeoutMs -> stored w' sid = Some v)) /\
      (forall sid, stored w sid = None -> stored w' sid = None) /\
      store_ok w' = true.
Proof.
  intros cfg w Hstore now timeoutMs.
  set (w1 := set_ticks (S (ticks w)) w).
  assert (Hstore1 : store_ok w1 = true) by exact Hstore.
  destruct (getAllSessions_ok w1 (store_ok_heap w1 Hstore1)) as (objs & E & F & _ & V).
  set (P := fun s : SessionData => timeoutMs < now - lastActivity s).
  set (D := filter P objs).
  assert (Ei : getInactiveSessions cfg w = (Ok D, w1)).
  { unfold getInactiveSessions.
    assert (En : newDate w = (Ok now, w1)) by reflexivity.
    run En. run E. reflexivity. }
  assert (Hids : map sessionId objs = map fst (sessions w1)) by (by eapply ids_are_keys).
  assert (HndD : NoDup (map sessionId D)).
  { apply NoDup_map_filter. rewrite Hids. by apply store_ok_NoDup. }
  assert (Hkeys : forall s, s ∈ D -> sessionId s ∈ map fst (sessions w1)).
  { intros s Hs. apply list_elem_of_filter in Hs as [_ Hs].
    rewrite <- Hids. apply list_elem_of_In, in_map. by apply list_elem_of_In. }
  destruct (evict_loop D w1 0 (store_ok_NoDup w1 Hstore1) HndD Hkeys) as [Eloop Lloop].
  assert (Erun : storage_cleanupInactiveSessions cfg w
                 = (Ok (Z.of_nat (length D)),
                    set_sessions (filter (fun kv => kv.1 ∉ map sessionId D) (sessions w1)) w1)).
  { unfold storage_cleanupInactiveSessions. run Ei. exact Eloop. }
  exists (Z.of_nat (length D)),
         (set_sessions (filter (fun kv => kv.1 ∉ map sessionId D) (sessions w1)) w1).
  split; [exact Erun|].
  split.
  { f_equal. change (views w) with (views w1). rewrite V.
    symmetry. exact (length_filter_map (view_obj w1) _ objs). }
  split.
  { cbn [sessions set_sessions]. change (sessions w) with (sessions w1). lia. }
  split; [|split].
  - intros sid v Hv. change (stored w sid) with (stored w1 sid) in Hv.
    destruct (object_of_stored w1 Hstore1 objs F sid v Hv) as (o & Ho & Hid & Hvo).
    assert (Hact : v_lastActivity v = lastActivity o) by (by rewrite Hvo).
    split.
    + intros Hold. apply stored_after_eviction.
      rewrite <- Hid. apply list_elem_of_In, in_map, list_elem_of_In.
      apply list_elem_of_filter. split; [|done]. unfold P. by rewrite <- Hact.
    + intros Hrecent. rewrite <- Hv. apply stored_after_eviction.
      intros Hin. apply list_elem_of_In, in_map_iff in Hin as (o' & Hid' & Ho').
      apply list_elem_of_In, list_elem_of_filter in Ho' as [HP Ho'].
      pose proof (stored_of_object w1 Hstore1 objs F o' Ho') as Hv'.
      rewrite Hid', Hv in Hv'. injection Hv' as ->.
      unfold P in HP. cbn in Hrecent. lia.
  - intros sid Hnone. change (stored w sid) with (stored w1 sid) in Hnone.
    destruct (decide (sid ∈ map sessionId D)) as [Hin|Hout].
    + by apply stored_after_eviction.
    + rewrite <- Hnone. by apply stored_after_eviction.
  - apply store_ok_iff.
    pose proof (keeps_storage_cleanup cfg w (proj1 (store_ok_iff w) Hstore)) as Hk.
    by rewrite Erun in Hk.
Qed.


(** X5.  [SessionStorage.cleanupInactiveSessions] on a store in order:
    the clock is read once, and the sessions removed are exactly those
    whose last activity lies more than [sessionTimeoutHours] before that
    reading; a session exactly at the timeout is kept.  The number
    returned is the number removed, and the sessions that remain are
    stored as before. *)
Theorem cleanupInactiveSessions_removes_exactly_inactive :
  forall (cfg : MemoryConfig) (w : World),
    store_ok w = true ->
    let now := wall w (ticks w) in
    let timeoutMs := sessionTimeoutHours cfg * 60 * 60 * 1000 in
    exists (n : Z) (w' : World),
      storage_cleanupInactiveSessions cfg w = (Ok n, w') /\
      n = Z.of_nat (length (filter (fun v => timeoutMs < now - v_lastActivity v) (views w))) /\
      Z.of_nat (length (sessions w')) + n = Z.of_nat (length (sessions w)) /\
      (forall sid v, stored w sid = Some v ->
         (timeoutMs < now - v_lastActivity v -> stored w' sid = None) /\
         (now - v_lastActivity v <= timeoutMs -> stored w' sid = Some v)) /\
      (forall sid, stored w sid = None -> stored w' sid = None).
Proof.
  intros cfg w Hstore now timeoutMs.
  destruct (storage_cleanup_facts cfg w Hstore) as (n & w' & E & N & L & Hs & Hn & _).
  exists n, w'.
  split; [exact E|]. split; [exact N|]. split; [exact L|]. split; [exact Hs|exact Hn].
Qed.

Lemma cleanupInactiveSessions_removes_exactly_inactive_scenario :
  store_ok world_stale = true /\
  exists w' : World,
    storage_cleanupInactiveSessions (loadMemoryConfig env_unset) world_stale = (Ok 1, w') /\
    stored w' "a" = None /\
    stored w' "b" = Some (mkView "b" [] [] 100000001 0).
Proof.
  split; [vm_compute; reflexivity|].
  destruct (cleanupInactiveSessions_removes_exactly_inactive
              (loadMemoryConfig env_unset) world_stale)
    as (n & w' & E & N & _ & Hs & _).
  - vm_compute; reflexivity.
  - exists w'. split.
    + assert (Hn : n = 1) by (rewrite N; vm_compute; reflexivity).
      by rewrite <- Hn.
    + split.
      * apply (Hs "a" (mkView "a" [] [] 1000 0)); [vm_compute; reflexivity|].
        vm_compute; reflexivity.
      * apply (Hs "b" (mkView "b" [] [] 100000001 0)); [vm_compute; reflexivity|].
        vm_compute; discriminate.
Defined.

(** What the enforcement of the cap leaves: at most [maxSessions]
    sessions, each stored as before. *)
Lemma enforceSessionLimit_facts (cfg : MemoryConfig) (w : World) :
  store_ok w = true ->
  0 <= maxSessions cfg ->
  exists (n : Z) (w' : World),
    enforceSessionLimit cfg w = (Ok n, w') /\
    Z.of_nat (length (sessions w')) <= maxSessions cfg /\
    store_ok w' = true /\
    (forall sid v, stored w' sid = Some v -> stored w sid = Some v).
Proof.
  intros Hstore Hmax.
  assert (Ec : getSessionCount w = (Ok (Z.of_nat (length (sessions w))), w)) by reflexivity.
  assert (Hkeep : forall n w', enforceSessionLimit cfg w = (Ok n, w') -> store_ok w' = true).
  { intros n w' E. apply store_ok_iff.
    pose proof (keeps_enforceSessionLimit cfg w (proj1 (store_ok_iff w) Hstore)) as Hk.
    by rewrite E in Hk. }
  destruct (Z.leb_spec (Z.of_nat (length (sessions w))) (maxSessions cfg)) as [Hle|Hgt].
  - assert (E : enforceSessionLimit cfg w = (Ok 0, w)).
    { unfold enforceSessionLimit. run Ec. by rewrite (proj2 (Z.leb_le _ _) Hle). }
    exists 0, w. split; [exact E|]. split; [exact Hle|]. split; [exact Hstore|done].
  - destruct (getAllSessions_ok w (store_ok_heap w Hstore)) as (objs & E & F & _ & V).
    set (n := length (sessions w)) in *.
    set (k := (n - Z.to_nat (maxSessions cfg))%nat).
    set (sorted := sort_by_activity objs).
    pose proof (sort_by_activity_perm objs) as Hperm. fold sorted in Hperm.
    assert (Hlen : length sorted = n).
    { rewrite Hperm. symmetry. by eapply Forall2_length. }
    assert (Hk : (k <= length sorted)%nat) by lia.
    assert (Hids : map sessionId objs = map fst (sessions w)) by (by eapply ids_are_keys).
    assert (Hnd : NoDup (map sessionId sorted)).
    { assert (Hp : map sessionId sorted ≡ₚ map sessionId objs) by (by apply Permutation_map).
      rewrite Hp, Hids. by apply store_ok_NoDup. }
    assert (Hsplit : sorted = take k sorted ++ drop k sorted) by (by rewrite take_drop).
    assert (HndD : NoDup (map sessionId (take k sorted))).
    { rewrite Hsplit, map_app in Hnd. by apply NoDup_app in Hnd as (H1 & _ & _). }
    assert (Hkeys : forall s, s ∈ take k sorted -> sessionId s ∈ map fst (sessions w)).
    { intros s Hs. rewrite <- Hids. apply list_elem_of_In, in_map, list_elem_of_In.
      rewrite <- Hperm. rewrite Hsplit. apply elem_of_app. by left. }
    destruct (evict_loop (take k sorted) w 0 (store_ok_NoDup w Hstore) HndD Hkeys)
      as [Eloop Lloop].
    assert (HlenD : length (take k sorted) = k) by (rewrite length_take; lia).
    assert (Erun : enforceSessionLimit cfg w
                   = (Ok (0 + Z.of_nat (length (take k sorted))),
                      set_sessions
                        (filter (fun kv => kv.1 ∉ map sessionId (take k sorted)) (sessions w)) w)).
    { unfold enforceSessionLimit. run Ec.
      rewrite (proj2 (Z.leb_gt _ _)) by lia. run E.
      replace (Z.to_nat (Z.of_nat n - maxSessions cfg)) with k by lia.
      etransitivity.
      { exact (foldM_by_index sorted evict_one
                 (throw (TypeError "Cannot read properties of undefined (reading 'sessionId')"))
                 k 0 0 w Hk). }
      by rewrite drop_0, Eloop. }
    eexists _, _. split; [exact Erun|].
    split; [cbn [sessions set_sessions]; lia|].
    split; [exact (Hkeep _ _ Erun)|].
    intros sid v Hv.
    destruct (decide (sid ∈ map sessionId (take k sorted))) as [Hin|Hout].
    + rewrite (proj1 (stored_after_eviction w _ sid) Hin) in Hv. discriminate.
    + by rewrite (proj2 (stored_after_eviction w _ sid) Hout) in Hv.
Qed.

(** X6.  [SummaryMemoryManager.cleanupInactiveSessions] on a store in
    order, with a cap that is not negative: the call completes, the store
    then holds at most [maxSessions] sessions, and every session it still
    holds is stored as it was and was active when the call read the
    clock.  The store stays in order. *)
Theorem cleanupInactiveSessions_leaves_active_sessions_within_cap :
  forall (cfg : MemoryConfig) (w : World),
    store_ok w = true ->
    0 <= maxSessions cfg ->
    exists w' : World,
      cleanupInactiveSessions cfg w = (Ok tt, w') /\
      Z.of_nat (length (sessions w')) <= maxSessions cfg /\
      store_ok w' = true /\
      (forall sid v, stored w' sid = Some v ->
         stored w sid = Some v /\
         wall w (ticks w) - v_lastActivity v <= sessionTimeoutHours cfg * 60 * 60 * 1000).
Proof.
  intros cfg w Hstore Hmax.
  destruct (storage_cleanup_facts cfg w Hstore) as (n1 & w1 & E1 & _ & _ & Hs1 & Hn1 & Hstore1).
  destruct (enforceSessionLimit_facts cfg w1 Hstore1 Hmax) as (n2 & w2 & E2 & L2 & Hstore2 & Hs2).
  exists w2. split.
  { unfold cleanupInactiveSessions, try_catch. run E1. run E2. reflexivity. }
  split; [exact L2|]. split; [exact Hstore2|].
  intros sid v Hv. apply Hs2 in Hv.
  destruct (stored w sid) as [v0|] eqn:Hv0.
  - destruct (Hs1 sid v0 Hv0) as [Hold Hrecent].
    destruct (Z.le_gt_cases (wall w (ticks w) - v_lastActivity v0)
                (sessionTimeoutHours cfg * 60 * 60 * 1000)) as [Hle|Hgt].
    + rewrite (Hrecent Hle) in Hv. injection Hv as <-. by split.
    + rewrite Hold in Hv by lia. discriminate.
  - rewrite (Hn1 sid Hv0) in Hv. discriminate.
Qed.

Lemma cleanupInactiveSessions_leaves_active_sessions_within_cap_scenario :
  store_ok world_stale = true /\
  0 <= maxSessions (loadMemoryConfig env_unset) /\
  exists w' : World,
    cleanupInactiveSessions (loadMemoryConfig env_unset) world_stale = (Ok tt, w') /\
    map fst (sessions w') = ["b"].
Proof.
  split; [vm_compute; reflexivity|].
  split; [vm_compute; discriminate|].
  destruct (cleanupInactiveSessions_leaves_active_sessions_within_cap
              (loadMemoryConfig env_unset) world_stale)
    as (w' & E & _).
  - vm_compute; reflexivity.
  - vm_compute; discriminate.
  - exists w'. split; [exact E|].
    assert (Hrun : map fst (sessions (cleanupInactiveSessions (loadMemoryConfig env_unset)
                                        world_stale).2) = ["b"])
      by (vm_compute; reflexivity).
    by rewrite E in Hrun.
Defined.

(** ** Clearing a session *)

Lemma clearSession_run (w : World) (sid : string) :
  clearSession sid w = (Ok tt, after_clearSession w sid).
Proof. reflexivity. Qed.

Lemma after_clearSession_At (w : World) (sid : string) :
  At (after_clearSession w sid) sid (length (objects w))
     (mkSession sid (length (messageArrays w)) (length (stringArrays w)) (wall w (ticks w)) 0)
     [] [].
Proof.
  unfold At, after_clearSession. cbn [sessions objects messageArrays stringArrays messages summaries].
  split; [apply map_get_set|].
  split; [by apply list_lookup_middle|].
  split; by apply list_lookup_middle.
Qed.

(** Appending to the heap leaves the records that were on it as they
    are. *)
Lemma view_at_after_clearSession (w : World) (sid : string) (r : nat) (v : SessionView) :
  view_at w r = Some v -> view_at (after_clearSession w sid) r = Some v.
Proof.
  intros Hv.
  destruct (view_at_Some _ _ _ Hv) as (o & Ho & _ & _ & Hvo & Hm & Hs).
  unfold view_at, after_clearSession. cbn [objects messageArrays stringArrays].
  rewrite (lookup_app_l_Some _ _ _ _ Ho), (lookup_app_l_Some _ _ _ _ Hm),
    (lookup_app_l_Some _ _ _ _ Hs).
  by rewrite Hvo.
Qed.

Lemma stored_after_clearSession (w : World) (sid sid' : string) :
  sid' <> sid -> session_ok w sid' = true ->
  stored (after_clearSession w sid) sid' = stored w sid'.
Proof.
  intros Hne Hok. unfold stored. cbn [sessions after_clearSession].
  rewrite map_get_set_ne by done.
  unfold session_ok in Hok.
  destruct (map_get sid' (sessions w)) as [r|]; [|done].
  apply bool_decide_eq_true in Hok as [v Hv].
  rewrite Hv. by apply view_at_after_clearSession.
Qed.

(** X7.  [clearSession] always completes.  Afterwards the id holds a
    fresh record (no message, no summary, count 0, touched at the time of
    the call) whether or not it was known before; a known id keeps its
    place among the keys and an unknown one is added last; every other
    session reads as before; and [getContext] for the id answers the empty
    context. *)
Theorem clearSession_resets_one_session :
  forall (w : World) (sid : string),
    exists w' : World,
      manager_clearSession sid w = (Ok tt, w') /\
      stored w' sid = Some (mkView sid [] [] (wall w (ticks w)) 0) /\
      (forall sid', sid' <> sid -> session_ok w sid' = true ->
         stored w' sid' = stored w sid') /\
      (map_has sid (sessions w) = true -> map fst (sessions w') = map fst (sessions w)) /\
      (map_has sid (sessions w) = false -> map fst (sessions w') = map fst (sessions w) ++ [sid]) /\
      (forall cfg : MemoryConfig,
         exists (c : ConversationContext) (w'' : World),
           getContext cfg sid w' = (Ok c, w'') /\
           totalMessages c = 0 /\
           context_messages w'' c = Some [] /\
           context_summaries w'' c = Some []).
Proof.
  intros w sid. exists (after_clearSession w sid).
  pose proof (after_clearSession_At w sid) as HAt.
  split.
  { unfold manager_clearSession, try_catch. by rewrite clearSession_run. }
  split; [exact (At_stored _ _ _ _ _ _ HAt)|].
  split; [intros sid' Hne Hok; by apply stored_after_clearSession|].
  split.
  { unfold map_has. destruct (map_get sid (sessions w)) as [r|] eqn:E; [|discriminate].
    intros _. cbn [sessions after_clearSession]. by eapply map_set_keys_known. }
  split.
  { unfold map_has. destruct (map_get sid (sessions w)) as [r|] eqn:E; [discriminate|].
    intros _. cbn [sessions after_clearSession].
    by rewrite (map_set_new _ _ _ E), map_app. }
  intros cfg.
  destruct (getContext_known_facts cfg _ _ _ _ _ _ HAt) as (F1 & F2 & _).
  eexists _, _. split; [exact (getContext_known cfg _ _ _ _ _ _ HAt)|].
  split; [reflexivity|]. split; [|exact F1].
  rewrite F2. f_equal. unfold js_slice. by rewrite drop_nil, take_nil.
Qed.

(** ** Oldest and newest activity *)

Lemma math_min_spec (x : Z) (xs : list Z) :
  math_min x xs ∈ x :: xs /\ forall y, y ∈ x :: xs -> math_min x xs <= y.
Proof.
  unfold math_min. revert x. induction xs as [|a xs IH]; intros x; cbn [foldl].
  - split; [left|]. intros y Hy. apply list_elem_of_singleton in Hy. lia.
  - destruct (IH (Z.min x a)) as [Hin Hle]. split.
    + apply elem_of_cons in Hin as [Hin|Hin]; [|by right; right].
      rewrite Hin. destruct (Z.min_spec x a) as [[_ ->]|[_ ->]]; [left|right; left].
    + intros y Hy.
      assert (Hm : foldl Z.min (Z.min x a) xs <= Z.min x a) by (apply Hle; left).
      apply elem_of_cons in Hy as [->|Hy]; [lia|].
      apply elem_of_cons in Hy as [->|Hy]; [lia|].
      apply Hle. by right.
Qed.

Lemma math_max_spec (x : Z) (xs : list Z) :
  math_max x xs ∈ x :: xs /\ forall y, y ∈ x :: xs -> y <= math_max x xs.
Proof.
  unfold math_max. revert x. induction xs as [|a xs IH]; intros x; cbn [foldl].
  - split; [left|]. intros y Hy. apply list_elem_of_singleton in Hy. lia.
  - destruct (IH (Z.max x a)) as [Hin Hle]. split.
    + apply elem_of_cons in Hin as [Hin|Hin]; [|by right; right].
      rewrite Hin. destruct (Z.max_spec x a) as [[_ ->]|[_ ->]]; [right; left|left].
    + intros y Hy.
      assert (Hm : Z.max x a <= foldl Z.max (Z.max x a) xs) by (apply Hle; left).
      apply elem_of_cons in Hy as [->|Hy]; [lia|].
      apply elem_of_cons in Hy as [->|Hy]; [lia|].
      apply Hle. by right.
Qed.

(** X8.  [getStats] on a store whose records are on the heap: for an
    empty store every number is 0 and both dates are null; otherwise
    [oldestSession] and [newestSession] are the last activities of two
    stored sessions, and the last activity of every stored session lies
    between them. *)
Theorem getStats_oldest_and_newest_bound_every_session :
  forall w : World,
    heap_ok w = true ->
    exists st : Stats,
      getStats w = (Ok st, w) /\
      (sessions w = [] -> st = mkStats 0 0 0 None None) /\
      (sessions w <> [] ->
       exists lo hi : Z,
         oldestSession st = Some lo /\ newestSession st = Some hi /\
         lo ∈ map v_lastActivity (views w) /\
         hi ∈ map v_lastActivity (views w) /\
         forall v, v ∈ views w -> lo <= v_lastActivity v <= hi).
Proof.
  intros w Hheap.
  destruct (getAllSessions_ok w Hheap) as (objs & E & F & Hs & V).
  unfold getStats.
  destruct objs as [|o objs].
  - run E. eexists. split; [reflexivity|]. split; [done|].
    intros Hne. exfalso. apply Hne. by apply Forall2_nil_inv_r in F.
  - run E. run (read_summary_lengths w _ Hs).
    eexists. split; [reflexivity|]. split.
    { intros Hnil. rewrite Hnil in F. by apply Forall2_nil_inv_l in F. }
    intros _. cbn [oldestSession newestSession].
    destruct (math_min_spec (lastActivity o) (map lastActivity objs)) as [Hmin_in Hmin].
    destruct (math_max_spec (lastActivity o) (map lastActivity objs)) as [Hmax_in Hmax].
    assert (Hacts : map v_lastActivity (views w) = lastActivity o :: map lastActivity objs).
    { rewrite V. cbn [map]. f_equal. rewrite map_map. reflexivity. }
    eexists _, _. split; [reflexivity|]. split; [reflexivity|].
    rewrite Hacts. split; [exact Hmin_in|]. split; [exact Hmax_in|].
    intros v Hv.
    assert (Hin : v_lastActivity v ∈ lastActivity o :: map lastActivity objs).
    { rewrite <- Hacts. apply list_elem_of_In, in_map. by apply list_elem_of_In. }
    split; [by apply Hmin|by apply Hmax].
Qed.

Lemma getStats_oldest_and_newest_bound_every_session_scenario :
  heap_ok world_four = true /\
  exists st : Stats,
    getStats world_four = (Ok st, world_four) /\
    oldestSession st = Some 1000 /\ newestSession st = Some 1003.
Proof.
  split; [vm_compute; reflexivity|].
  destruct (getStats_oldest_and_newest_bound_every_session world_four) as (st & E & _).
  - vm_compute; reflexivity.
  - exists st. split; [exact E|].
    assert (Hrun : (getStats world_four).1 = Ok (mkStats 4 0 0 (Some 1000) (Some 1003)))
      by (vm_compute; reflexivity).
    rewrite E in Hrun. cbn [fst] in Hrun. injection Hrun as ->. by split.
Defined.

(** ** Deleting a session *)

Lemma map_delete_absent {V : Type} (k : string) (m : list (string * V)) :
  map_get k m = None -> map_delete k m = m.
Proof.
  induction m as [|[k' v'] m IH]; cbn [map_get map_delete]; [done|].
  destruct (String.eqb k k'); [discriminate|]. intros H. by rewrite IH.
Qed.

(** X9.  [deleteSession] on a store in order answers whether the id was
    known.  Afterwards the id is unknown, exactly one key is gone when it
    was known and the state is unchanged when it was not, and every other
    session reads as before. *)
Theorem deleteSession_forgets_one_session :
  forall (w : World) (sid : string),
    store_ok w = true ->
    exists w' : World,
      deleteSession sid w = (Ok (map_has sid (sessions w)), w') /\
      hasSession sid w' = (Ok false, w') /\
      stored w' sid = None /\
      (forall sid', sid' <> sid -> stored w' sid' = stored w sid') /\
      (map_has sid (sessions w) = true -> S (length (sessions w')) = length (sessions w)) /\
      (map_has sid (sessions w) = false -> w' = w).
Proof.
  intros w sid Hstore.
  pose proof (store_ok_NoDup w Hstore) as Hnd.
  exists (set_sessions (map_delete sid (sessions w)) w).
  split; [reflexivity|].
  assert (Hget : forall sid',
            map_get sid' (map_delete sid (sessions w))
            = if decide (sid' = sid) then None else map_get sid' (sessions w)).
  { intros sid'. rewrite (map_delete_filter _ _ Hnd).
    destruct (map_get_filter_keys (fun kv : string * nat => kv.1 <> sid) (fun k => k <> sid)
                sid' (sessions w)) as [Hkeep Hdrop]; [done|].
    destruct (decide (sid' = sid)) as [->|Hne]; [apply Hdrop; tauto|by apply Hkeep]. }
  split.
  { unfold hasSession, map_has. cbn [sessions set_sessions].
    rewrite Hget. by rewrite decide_True. }
  split.
  { unfold stored. cbn [sessions set_sessions]. rewrite Hget. by rewrite decide_True. }
  split.
  { intros sid' Hne. unfold stored. cbn [sessions set_sessions].
    rewrite Hget. by rewrite decide_False. }
  split.
  - unfold map_has. destruct (map_get sid (sessions w)) as [r|] eqn:E; [|discriminate].
    intros _. cbn [sessions set_sessions]. apply map_delete_length.
    eapply elem_of_keys. by apply map_get_elem_of.
  - unfold map_has. destruct (map_get sid (sessions w)) as [r|] eqn:E; [discriminate|].
    intros _. rewrite (map_delete_absent _ _ E). apply set_sessions_same.
Qed.

Lemma deleteSession_forgets_one_session_scenario :
  store_ok world_four = true /\
  exists w' : World,
    deleteSession "b" world_four = (Ok true, w') /\
    map fst (sessions w') = ["a"; "c"; "d"].
Proof.
  split; [vm_compute; reflexivity|].
  destruct (deleteSession_forgets_one_session world_four "b") as (w' & E & _).
  - vm_compute; reflexivity.
  - exists w'. split; [exact E|].
    assert (Hrun : map fst (sessions (deleteSession "b" world_four).2) = ["a"; "c"; "d"])
      by (vm_compute; reflexivity).
    by rewrite E in Hrun.
Defined.

(** ** The error log *)

(** X10.  [logError] stamps the entry with the time of the call and puts
    it last; whatever the log held, it then holds at most 100 entries, the
    oldest ones being dropped, and nothing else of the state changes but
    the clock. *)
Theorem logError_keeps_the_last_hundred :
  forall (t : ErrorType) (message : string) (sid : option string) (original : option JsError)
         (w : World),
    exists w' : World,
      logError t message sid original w = (Ok tt, w') /\
      (length (errors w') <= 100)%nat /\
      last (errors w') = Some (mkMemoryError t message sid original (wall w (ticks w))) /\
      errors w'
        = drop (length (errors w) + 1 - 100)
               (errors w ++ [mkMemoryError t message sid original (wall w (ticks w))]) /\
      w' = set_errors (errors w') (set_ticks (S (ticks w)) w).
Proof.
  intros t message sid original w.
  set (entry := mkMemoryError t message sid original (wall w (ticks w))).
  set (all := errors w ++ [entry]).
  assert (Hlen : length all = (length (errors w) + 1)%nat).
  { unfold all. rewrite length_app. reflexivity. }
  assert (E : logError t message sid original w
              = (Ok tt, set_errors (if (100 <? length all)%nat then js_slice (-100) None all else all)
                          (set_ticks (S (ticks w)) w))) by reflexivity.
  assert (Hkept : (if (100 <? length all)%nat then js_slice (-100) None all else all)
                  = drop (length (errors w) + 1 - 100) all).
  { destruct (100 <? length all)%nat eqn:Hfull.
    - apply Nat.ltb_lt in Hfull.
      change (-100) with (Z.opp 100). rewrite js_slice_last by lia. f_equal. lia.
    - apply Nat.ltb_ge in Hfull.
      replace (length (errors w) + 1 - 100)%nat with 0%nat by lia. by rewrite drop_0. }
  eexists. split; [exact E|]. cbn [errors set_errors]. rewrite Hkept.
  split; [rewrite length_drop; lia|].
  split; [|by split].
  rewrite last_drop_lt by lia. apply last_snoc.
Qed.

Lemma type_name_inj (t t' : ErrorType) : type_name t = type_name t' -> t = t'.
Proof. destruct t, t'; intros H; try reflexivity; discriminate H. Qed.

Lemma map_set_sum (k : string) (v : Z) (m : list (string * Z)) :
  sum_Z (map snd (map_set k v m)) = sum_Z (map snd m) - default 0 (map_get k m) + v.
Proof.
  unfold sum_Z. induction m as [|[k' n] m IH]; cbn [map_get map_set map snd foldr default].
  - lia.
  - destruct (String.eqb k k'); cbn [map snd foldr default].
    + unfold id. lia.
    + rewrite IH. lia.
Qed.

Lemma count_error_sum (acc : list (string * Z)) (e : MemoryError) :
  sum_Z (map snd (count_error acc e)) = sum_Z (map snd acc) + 1.
Proof. unfold count_error. rewrite map_set_sum. lia. Qed.

Lemma count_error_get (acc : list (string * Z)) (e : MemoryError) (t : ErrorType) :
  map_get (type_name t) (count_error acc e)
  = if decide (me_type e = t)
    then Some (default 0 (map_get (type_name t) acc) + 1)
    else map_get (type_name t) acc.
Proof.
  unfold count_error. destruct (decide (me_type e = t)) as [->|Hne].
  - apply map_get_set.
  - apply map_get_set_ne. intros H. apply Hne. symmetry. by apply type_name_inj.
Qed.

Lemma count_errors_get (errs : list MemoryError) (t : ErrorType) :
  forall acc : list (string * Z),
    map_get (type_name t) (foldl count_error acc errs)
    = if (length (filter (fun error => me_type error = t) errs) =? 0)%nat
      then map_get (type_name t) acc
      else Some (default 0 (map_get (type_name t) acc)
                 + Z.of_nat (length (filter (fun error => me_type error = t) errs))).
Proof.
  induction errs as [|e errs IH]; intros acc; cbn [foldl]; [done|].
  rewrite IH, count_error_get.
  destruct (decide (me_type e = t)) as [He|He].
  - rewrite filter_cons_True by done. cbn [length default].
    destruct (length (filter (fun error => me_type error = t) errs)) as [|n]; cbn [Nat.eqb];
      unfold id; f_equal; lia.
  - by rewrite filter_cons_False by done.
Qed.

Lemma count_errors_sum (errs : list MemoryError) :
  forall acc : list (string * Z),
    sum_Z (map snd (foldl count_error acc errs)) = sum_Z (map snd acc) + Z.of_nat (length errs).
Proof.
  induction errs as [|e errs IH]; intros acc; cbn [foldl length]; [lia|].
  rewrite IH, count_error_sum. lia.
Qed.

(** X11.  [MemoryErrorLogger.getStats] leaves the log as it is.  Its
    [errorsByType] has an entry for a type exactly when the log holds an
    error of that type, and the entry is the number of these errors, which
    is the length of what [getErrorsByType] returns; the entries add up to
    [totalErrors].  [recentErrors] are the last ten entries of the log (all
    of them when there are fewer) and [lastError] is the last one. *)
Theorem logger_getStats_counts_by_type :
  forall w : World,
    exists st : ErrorStats,
      logger_getStats w = (Ok st, w) /\
      totalErrors st = Z.of_nat (length (errors w)) /\
      (forall t : ErrorType,
         exists l : list MemoryError,
           getErrorsByType t w = (Ok l, w) /\
           map_get (type_name t) (errorsByType st)
           = if (length l =? 0)%nat then None else Some (Z.of_nat (length l))) /\
      sum_Z (map snd (errorsByType st)) = totalErrors st /\
      recentErrors st = drop (length (errors w) - 10) (errors w) /\
      (length (recentErrors st) <= 10)%nat /\
      lastError st = last (errors w).
Proof.
  intros w. eexists. split; [reflexivity|].
  cbn [totalErrors errorsByType recentErrors lastError].
  split; [done|]. split.
  { intros t. eexists. split; [reflexivity|].
    rewrite count_errors_get. cbn [map_get default].
    destruct (length (filter (fun error => me_type error = t) (errors w)) =? 0)%nat;
      [done|f_equal; lia]. }
  split; [rewrite count_errors_sum; cbn; lia|].
  assert (Hslice : js_slice (-10) None (errors w) = drop (length (errors w) - 10) (errors w)).
  { change (-10) with (Z.opp 10). rewrite js_slice_last by lia. f_equal. }
  rewrite Hslice. split; [done|]. split; [rewrite length_drop; lia|done].
Qed.

(** X12.  [isMemorySystemHealthy] counts the errors younger than ten
    minutes among the last ten of the log only, so its [errorRate], that
    count divided by 10, never exceeds 1 and the issue 'High error rate' is
    never reported: the answer is unhealthy exactly when more than three
    of these errors are of type storage or api. *)
Theorem isMemorySystemHealthy_never_reports_high_error_rate :
  forall w : World,
    exists (st : SystemHealth) (w' : World),
      isMemorySystemHealthy w = (Ok st, w') /\
      (sh_errorRate st <= 1)%Q /\
      (forall rate : Q, HighErrorRate rate ∉ sh_issues st) /\
      (sh_healthy st = false <->
       Nat.lt 3
         (length (filter (fun error => me_type error = ty_storage \/ me_type error = ty_api)
                    (filter (fun error => wall w (ticks w) - 10 * 60 * 1000 < me_timestamp error)
                       (drop (length (errors w) - 10) (errors w)))))).
Proof.
  intros w.
  assert (Hslice : js_slice (-10) None (errors w) = drop (length (errors w) - 10) (errors w)).
  { change (-10) with (Z.opp 10). rewrite js_slice_last by lia. f_equal. }
  set (recent := filter (fun error => wall w (ticks w) - 10 * 60 * 1000 < me_timestamp error)
                   (drop (length (errors w) - 10) (errors w))).
  assert (Hten : (length recent <= 10)%nat).
  { unfold recent. etransitivity; [apply length_filter|]. rewrite length_drop. lia. }
  assert (Hrate : Qle_bool (inject_Z (Z.of_nat (length recent)) / 10) 1 = true).
  { unfold Qle_bool. cbn. apply Z.leb_le. lia. }
  assert (E : isMemorySystemHealthy w
              = (Ok (mkSystemHealth
                       (length ((if negb (Qle_bool (inject_Z (Z.of_nat (length recent)) / 10) 1)
                                 then [HighErrorRate (inject_Z (Z.of_nat (length recent)) / 10)]
                                 else []) ++
                                (if (3 <? length (filter (fun error => me_type error = ty_storage
                                                            \/ me_type error = ty_api) recent))%nat
                                 then [MultipleCriticalErrors
                                         (Z.of_nat (length (filter (fun error =>
                                            me_type error = ty_storage \/ me_type error = ty_api)
                                            recent)))]
                                 else [])) =? 0)%nat
                       ((if negb (Qle_bool (inject_Z (Z.of_nat (length recent)) / 10) 1)
                         then [HighErrorRate (inject_Z (Z.of_nat (length recent)) / 10)]
                         else []) ++
                        (if (3 <? length (filter (fun error => me_type error = ty_storage
                                                    \/ me_type error = ty_api) recent))%nat
                         then [MultipleCriticalErrors
                                 (Z.of_nat (length (filter (fun error =>
                                    me_type error = ty_storage \/ me_type error = ty_api)
                                    recent)))]
                         else []))
                       (inject_Z (Z.of_nat (length recent)) / 10)),
                 set_ticks (S (ticks w)) w)).
  { unfold isMemorySystemHealthy, bind, logger_getStats, newDate, ret.
    cbn [recentErrors wall ticks]. rewrite Hslice. reflexivity. }
  eexists _, _. split; [exact E|].
  cbn [sh_errorRate sh_issues sh_healthy]. rewrite Hrate. cbn [negb app].
  split; [by apply Qle_bool_iff|].
  split.
  { intros rate. destruct (3 <? _)%nat; not_in_list. }
  destruct (3 <? length (filter (fun error => me_type error = ty_storage \/ me_type error = ty_api)
                           recent))%nat eqn:Hcrit.
  - apply Nat.ltb_lt in Hcrit. by split.
  - apply Nat.ltb_ge in Hcrit. split; [discriminate|lia].
Qed.

(** ** Clearing with confirmation *)

Lemma after_getContext_known_At cfg w sid r o ms ss :
  At w sid r o ms ss ->
  At (after_getContext_known cfg w r o ms ss) sid r
     (with_lastActivity (wall w (ticks w)) o) ms ss.
Proof.
  intros (H1 & H2 & H3 & H4). unfold At, after_getContext_known.
  cbn [sessions objects messageArrays stringArrays messages summaries with_lastActivity].
  split; [exact H1|].
  split; [apply list_lookup_insert_eq; by eapply lookup_lt_Some|].
  split; by apply lookup_app_l_Some.
Qed.

Lemma stored_session_ok w sid v : stored w sid = Some v -> session_ok w sid = true.
Proof.
  unfold stored, session_ok.
  destruct (map_get sid (sessions w)) as [r|]; [|discriminate].
  intros H. apply bool_decide_eq_true. by exists v.
Qed.

Lemma touched_touched t t' v : touched t (touched t' v) = touched t v.
Proof. reflexivity. Qed.

(** [getContext] and the reading of its two arrays, for a session that is
    stored. *)
Lemma getContext_read cfg w sid r o ms ss :
  At w sid r o ms ss ->
  exists (c : ConversationContext) (w' : World),
    getContext cfg sid w = (Ok c, w') /\
    totalMessages c = messageCount o /\
    readStrings (c_summaries c) w' = (Ok ss, w') /\
    readMessages (recentMessages c) w'
      = (Ok (js_slice (- recentMessagesLimit cfg) None ms), w') /\
    At w' sid r (with_lastActivity (wall w (ticks w)) o) ms ss /\
    (forall sid' v', stored w sid' = Some v' -> exists t, stored w' sid' = Some (touched t v')).
Proof.
  intros HAt.
  destruct (getContext_known_facts cfg _ _ _ _ _ _ HAt) as (F1 & F2 & _ & _ & F5).
  eexists _, _. split; [exact (getContext_known cfg _ _ _ _ _ _ HAt)|].
  split; [reflexivity|].
  split. { unfold readStrings. unfold context_summaries in F1. by rewrite F1. }
  split. { unfold readMessages. unfold context_messages in F2. by rewrite F2. }
  split; [by apply after_getContext_known_At|exact F5].
Qed.

(** The second half of [clearSessionWithConfirmation]: the session is
    cleared and read back. *)
Lemma clear_and_verify cfg w sid :
  exists (c : ConversationContext) (w' : World) (t : Z) (r : nat) (o : SessionData),
    (manager_clearSession sid ;; getContext cfg sid) w = (Ok c, w') /\
    totalMessages c = 0 /\
    readStrings (c_summaries c) w' = (Ok [], w') /\
    At w' sid r o [] [] /\ messageCount o = 0 /\ sessionId o = sid /\ lastActivity o = t /\
    (forall sid' v', sid' <> sid -> stored w sid' = Some v' ->
       exists t', stored w' sid' = Some (touched t' v')).
Proof.
  pose proof (after_clearSession_At w sid) as HAt.
  destruct (getContext_read cfg _ _ _ _ _ _ HAt) as (c & w' & E & T & Rs & _ & A & Hs).
  exists c, w', (wall (after_clearSession w sid) (ticks (after_clearSession w sid))).
  eexists _, _. split.
  { assert (Ec : manager_clearSession sid w = (Ok tt, after_clearSession w sid)) by reflexivity.
    run Ec. exact E. }
  split; [exact T|]. split; [exact Rs|]. split; [exact A|].
  split; [reflexivity|]. split; [reflexivity|]. split; [reflexivity|].
  intros sid' v' Hne Hv'. apply Hs.
  rewrite stored_after_clearSession; [done|done|by eapply stored_session_ok].
Qed.

(** X13.  [clearSessionWithConfirmation] on an id whose record, if any, is
    on the heap.  The empty id is refused and nothing changes.  For any
    other id the call succeeds: [previousStats] is absent when the id was
    unknown and otherwise carries the lifetime [messageCount] (not the
    number of messages still stored) and the number of summaries; the id
    then holds an empty record, and every other session keeps its content,
    [lastActivity] apart.  [resetSession] succeeds alike, with the same
    [previousStats]. *)
Theorem clearSessionWithConfirmation_clears_and_reports :
  forall (cfg : MemoryConfig) (w : World) (sid : string),
    session_ok w sid = true ->
    (sid = "" ->
     clearSessionWithConfirmation cfg sid w
       = (Ok (mkClearResult false "" InvalidSessionIdProvided None), w)) /\
    (sid <> "" ->
     let previous :=
       option_map (fun v => mkPreviousStats (v_messageCount v)
                              (Z.of_nat (length (v_summaries v)))) (stored w sid) in
     (exists (w' : World) (t : Z),
        clearSessionWithConfirmation cfg sid w
          = (Ok (mkClearResult true sid
                   match previous with
                   | Some p => ClearedRemoving (ps_messageCount p) (ps_summariesCount p)
                   | None => ClearedSuccessfully
                   end previous), w') /\
        stored w' sid = Some (mkView sid [] [] t 0) /\
        (forall sid' v', sid' <> sid -> stored w sid' = Some v' ->
           exists t', stored w' sid' = Some (touched t' v'))) /\
     (exists (w' : World) (t : Z),
        resetSession cfg sid w
          = (Ok (mkClearResult true sid
                   match previous with
                   | Some p => ResetRemoving (ps_messageCount p) (ps_summariesCount p)
                   | None => ResetSuccessfully
                   end previous), w') /\
        stored w' sid = Some (mkView sid [] [] t 0))).
Proof.
  intros cfg w sid Hok. split.
  { intros ->. reflexivity. }
  intros Hsid previous.
  assert (Htruthy : truthy_string sid = true) by (by destruct sid).
  (* the first half: the statistics of the session as it was *)
  assert (Hfirst : exists w1 : World,
            (known <- hasSession sid ;;
             if known : bool then
               context <- getContext cfg sid ;;
               sums <- readStrings (c_summaries context) ;;
               ret (Some (mkPreviousStats (totalMessages context) (Z.of_nat (length sums))))
             else ret None) w = (Ok previous, w1) /\
            (forall sid' v', stored w sid' = Some v' ->
               exists t, stored w1 sid' = Some (touched t v'))).
  { destruct (session_ok_cases _ _ Hok) as [Hnew|[v Hv]].
    - exists w. split.
      + assert (Eh : hasSession sid w = (Ok false, w)).
        { unfold hasSession, map_has. by rewrite Hnew. }
        run Eh. unfold previous, stored. by rewrite Hnew.
      + intros sid' v' Hv'. exists (v_lastActivity v'). by rewrite touched_same.
    - destruct (stored_At _ _ _ Hv) as (r & o & HAt & Hview).
      destruct (getContext_read cfg _ _ _ _ _ _ HAt) as (c & w1 & E & T & Rs & _ & _ & Hs).
      exists w1. split; [|exact Hs].
      assert (Eh : hasSession sid w = (Ok true, w)).
      { unfold hasSession, map_has. destruct HAt as (H1 & _). by rewrite H1. }
      run Eh. run E. run Rs. unfold previous. rewrite Hv, T, Hview. reflexivity. }
  destruct Hfirst as (w1 & E1 & Hs1).
  destruct (clear_and_verify cfg w1 sid) as (c & w2 & t & r & o & E2 & T2 & Rs2 & A2 & C2 & I2 & L2 & Hs2).
  assert (Eclear : clearSessionWithConfirmation cfg sid w
                   = (Ok (mkClearResult true sid
                            match previous with
                            | Some p => ClearedRemoving (ps_messageCount p) (ps_summariesCount p)
                            | None => ClearedSuccessfully
                            end previous), w2)).
  { unfold clearSessionWithConfirmation, try_catch. rewrite Htruthy. cbn [negb].
    assert (Hshape : forall (k : option PreviousStats -> M World SessionClearResult),
              (known <- hasSession sid ;;
               previousStats <-
                 (if known : bool then
                    context <- getContext cfg sid ;;
                    sums <- readStrings (c_summaries context) ;;
                    ret (Some (mkPreviousStats (totalMessages context) (Z.of_nat (length sums))))
                  else ret None) ;;
               k previousStats) w = k previous w1).
    { intros k. unfold bind in E1 |- *.
      destruct (hasSession sid w) as [[known|e] w0]; [|discriminate].
      destruct known.
      - destruct (getContext cfg sid w0) as [[context|e] w0']; [|discriminate].
        destruct (readStrings (c_summaries context) w0') as [[sums|e] w0'']; [|discriminate].
        unfold ret in E1. by injection E1 as -> ->.
      - unfold ret in E1. by injection E1 as -> ->. }
    rewrite Hshape.
    assert (Hshape2 : forall (k : ConversationContext -> M World SessionClearResult),
              (manager_clearSession sid ;; contextAfter <- getContext cfg sid ;; k contextAfter) w1
              = k c w2).
    { intros k. unfold bind in E2 |- *.
      destruct (manager_clearSession sid w1) as [[[]|e] w0]; [|discriminate].
      by rewrite E2. }
    rewrite Hshape2. run Rs2. rewrite T2. reflexivity. }
  assert (Hstored2 : stored w2 sid = Some (mkView sid [] [] t 0)).
  { rewrite (At_stored _ _ _ _ _ _ A2). unfold view_of. by rewrite C2, I2, L2. }
  split.
  - exists w2, t. split; [exact Eclear|]. split; [exact Hstored2|].
    intros sid' v' Hne Hv'.
    destruct (Hs1 sid' v' Hv') as (t1 & Hv1).
    destruct (Hs2 sid' _ Hne Hv1) as (t2 & Hv2).
    exists t2. by rewrite Hv2.
  - destruct (getContext_read cfg _ _ _ _ _ _ A2) as (c3 & w3 & E3 & T3 & Rs3 & Rm3 & A3 & _).
    exists w3, (wall w2 (ticks w2)). split.
    + unfold resetSession, try_catch. run Eclear. cbn [cr_success negb].
      run E3. run Rs3. run Rm3. rewrite T3, C2.
      assert (Hempty : js_slice (- recentMessagesLimit cfg) None (@nil Message) = [])
        by (unfold js_slice; by rewrite drop_nil, take_nil).
      rewrite Hempty. reflexivity.
    + rewrite (At_stored _ _ _ _ _ _ A3). unfold view_of.
      cbn [sessionId messageCount lastActivity with_lastActivity]. by rewrite C2, I2.
Qed.

Lemma clearSessionWithConfirmation_clears_and_reports_scenario :
  session_ok world_summarized "s1" = true /\
  exists (w' : World) (t : Z),
    clearSessionWithConfirmation (loadMemoryConfig env_unset) "s1" world_summarized
      = (Ok (mkClearResult true "s1" (ClearedRemoving 10 1) (Some (mkPreviousStats 10 1))), w') /\
    stored w' "s1" = Some (mkView "s1" [] [] t 0).
Proof.
  split; [vm_compute; reflexivity|].
  destruct (clearSessionWithConfirmation_clears_and_reports
              (loadMemoryConfig env_unset) world_summarized "s1") as [_ Hclear].
  - vm_compute; reflexivity.
  - destruct Hclear as [(w' & t & E & S & _) _]; [discriminate|].
    exists w', t. split; [|exact S].
    assert (Hv : stored world_summarized "s1"
                 = Some (mkView "s1" (map sample_message (seq 5 6)) ["SUMMARY-1"] 1030 10))
      by (vm_compute; reflexivity).
    rewrite Hv in E. exact E.
Defined.

(** ** Validating the state of a session *)

Lemma with_local_run {S L A : Type} (m : M S A) (s s' : S) (l : L) (x : Res A) :
  m s = (x, s') -> with_local m (s, l) = (x, (s', l)).
Proof. intros H. unfold with_local. cbn [fst snd]. by rewrite H. Qed.

Lemma push_if_run {S L A : Type} (b : bool) (x : L) (k : M (S * list L) A) (s : S)
    (l : list L) :
  ((if b then modify_local (fun issues => issues ++ [x]) else ret tt) ;; k) (s, l)
  = k (s, l ++ (if b then [x] else [])).
Proof. destruct b; [reflexivity|]. unfold bind, ret. by rewrite app_nil_r. Qed.

(** [validateSessionState], once [getContext] and the two arrays of its
    context are known. *)
Lemma validateSessionState_run cfg w sid c w1 sums recent :
  getContext cfg sid w = (Ok c, w1) ->
  readStrings (c_summaries c) w1 = (Ok sums, w1) ->
  readMessages (recentMessages c) w1 = (Ok recent, w1) ->
  let issues :=
    ((((([] ++ (if negb (truthy_string sid) then [SessionIdIsEmpty] else []))
        ++ (if negb (map_has sid (sessions w)) then [SessionNotExisting] else []))
       ++ (if totalMessages c <? 0 then [InvalidTotalCount] else []))
      ++ (if existsb (fun s => negb (truthy_string s) || (String.length (js_trim s) =? 0)%nat) sums
          then [EmptySummariesFound] else []))
     ++ (if existsb (fun m => negb (truthy_string (msg_id m)) || negb (truthy_string (content m)))
                    recent
         then [InvalidMessagesFound] else [])) in
  validateSessionState cfg sid w
    = (Ok (mkStateReport (length issues =? 0)%nat issues
             (mkStateStats (totalMessages c) (Z.of_nat (length sums)) (Z.of_nat (length recent)))),
       w1).
Proof.
  intros E Rs Rm issues.
  unfold validateSessionState, run_local, try_catch.
  rewrite push_if_run.
  assert (Eh : hasSession sid w = (Ok (map_has sid (sessions w)), w)) by reflexivity.
  run (with_local_run _ _ _ ([] ++ (if negb (truthy_string sid) then [SessionIdIsEmpty] else []))
         _ Eh).
  rewrite push_if_run.
  run (with_local_run _ _ _
         (([] ++ (if negb (truthy_string sid) then [SessionIdIsEmpty] else []))
          ++ (if negb (map_has sid (sessions w)) then [SessionNotExisting] else [])) _ E).
  rewrite push_if_run.
  run (with_local_run _ _ _
         ((([] ++ (if negb (truthy_string sid) then [SessionIdIsEmpty] else []))
           ++ (if negb (map_has sid (sessions w)) then [SessionNotExisting] else []))
          ++ (if totalMessages c <? 0 then [InvalidTotalCount] else [])) _ Rs).
  rewrite push_if_run.
  match goal with
  | |- context [bind (with_local (readMessages (recentMessages c))) _ (w1, ?l)] =>
      run (with_local_run _ _ _ l _ Rm)
  end.
  rewrite push_if_run.
  reflexivity.
Qed.

(** X14.  [validateSessionState] reads the session through [getContext],
    which creates it.  For an id the store does not know, the report is
    invalid with the issue 'Session does not exist' (after 'Session ID is
    empty' for the empty id), and the call leaves an empty record under
    that id; asked again, it no longer reports the session as missing, and
    for an id that is not empty the second report is valid. *)
Theorem validateSessionState_creates_the_session_it_misses :
  forall (cfg : MemoryConfig) (w : World) (sid : string),
    map_has sid (sessions w) = false ->
    exists w' w'' : World,
      validateSessionState cfg sid w
        = (Ok (mkStateReport false
                 ((if truthy_string sid then [] else [SessionIdIsEmpty]) ++ [SessionNotExisting])
                 (mkStateStats 0 0 0)), w') /\
      map_has sid (sessions w') = true /\
      stored w' sid = Some (mkView sid [] [] (wall w (ticks w)) 0) /\
      validateSessionState cfg sid w'
        = (Ok (mkStateReport (truthy_string sid)
                 (if truthy_string sid then [] else [SessionIdIsEmpty])
                 (mkStateStats 0 0 0)), w'').
Proof.
  intros cfg w sid Hunseen.
  assert (Hnew : map_get sid (sessions w) = None).
  { unfold map_has in Hunseen. by destruct (map_get sid (sessions w)). }
  destruct (getContext_unseen_facts w sid Hnew) as (F1 & F2 & _ & F4 & _).
  pose proof (getContext_unseen cfg w sid Hnew) as E.
  set (w1 := after_getContext_unseen w sid) in *.
  set (c := mkContext (S (length (stringArrays w))) (S (S (length (messageArrays w)))) 0) in *.
  assert (Rs : readStrings (c_summaries c) w1 = (Ok [], w1)).
  { unfold readStrings. unfold context_summaries in F1. by rewrite F1. }
  assert (Rm : readMessages (recentMessages c) w1 = (Ok [], w1)).
  { unfold readMessages. unfold context_messages in F2. by rewrite F2. }
  destruct (stored_At _ _ _ F4) as (r & o & HAt & Hview).
  cbn [v_messages v_summaries] in HAt.
  destruct (getContext_read cfg _ _ _ _ _ _ HAt) as (c2 & w2 & E2 & T2 & Rs2 & Rm2 & _).
  assert (Hcount : messageCount o = 0).
  { apply (f_equal v_messageCount) in Hview. by cbn in Hview. }
  assert (Hknown : map_has sid (sessions w1) = true).
  { unfold map_has. destruct HAt as (H1 & _). by rewrite H1. }
  exists w1, w2.
  split.
  { rewrite (validateSessionState_run cfg w sid c w1 [] [] E Rs Rm).
    rewrite Hunseen. cbn [negb totalMessages c existsb length app].
    destruct (truthy_string sid); reflexivity. }
  split; [exact Hknown|]. split; [exact F4|].
  assert (Hempty : js_slice (- recentMessagesLimit cfg) None (@nil Message) = [])
    by (unfold js_slice; by rewrite drop_nil, take_nil).
  rewrite Hempty in Rm2.
  rewrite (validateSessionState_run cfg w1 sid c2 w2 [] [] E2 Rs2 Rm2).
  rewrite Hknown, T2, Hcount. cbn [negb existsb length app].
  destruct (truthy_string sid); reflexivity.
Qed.

Lemma validateSessionState_creates_the_session_it_misses_scenario :
  map_has "s9" (sessions world_summarized) = false /\
  exists w' w'' : World,
    validateSessionState (loadMemoryConfig env_unset) "s9" world_summarized
      = (Ok (mkStateReport false [SessionNotExisting] (mkStateStats 0 0 0)), w') /\
    map_has "s9" (sessions w') = true /\
    validateSessionState (loadMemoryConfig env_unset) "s9" w'
      = (Ok (mkStateReport true [] (mkStateStats 0 0 0)), w'').
Proof.
  split; [reflexivity|].
  destruct (validateSessionState_creates_the_session_it_misses
              (loadMemoryConfig env_unset) world_summarized "s9")
    as (w' & w'' & E1 & Hk & _ & E2).
  - reflexivity.
  - exists w', w''. split; [exact E1|]. split; [exact Hk|exact E2].
Defined.

(** ** The repair of a record *)

Lemma repairSessionData_steps (o : Obj) (s : Guard.State) :
  Guard.repairSessionData o s
  = (step1 <- repair_sessionId o ;;
     let '(o1, a1) := step1 in
     let '(o2, a2) := repair_messages o1 in
     let '(o3, a3) := repair_summaries o2 in
     let '(o4, a4) := repair_messageCount o3 in
     step5 <- repair_lastActivity o4 ;;
     let '(o5, a5) := step5 in
     ret (o5, a1 ++ a2 ++ a3 ++ a4 ++ a5)) s.
Proof. reflexivity. Qed.

Lemma forallb_filter_true {A : Type} (ok : A -> bool) (l : list A) :
  forallb ok (filter (fun x => ok x = true) l) = true.
Proof.
  induction l as [|x l IH]; [done|].
  destruct (ok x) eqn:E.
  - rewrite filter_cons_True by done. cbn [forallb]. by rewrite E.
  - rewrite filter_cons_False by (by rewrite E). exact IH.
Qed.

Lemma failing_from_nil {A : Type} (ok : A -> bool) (l : list A) (i : nat) :
  failing_from ok l i = [] -> forallb ok l = true.
Proof.
  revert i. induction l as [|x l IH]; intros i; cbn [failing_from forallb]; [done|].
  destruct (ok x); cbn [app]; [apply IH|discriminate].
Qed.

Lemma repair_sessionId_facts (o : Obj) (s : Guard.State) :
  exists (o1 : Obj) (a1 : list Action) (s1 : Guard.State),
    repair_sessionId o s = (Ok (o1, a1), s1) /\
    Guard.sessions s1 = Guard.sessions s /\
    (forall name, name <> "sessionId" -> field (VObj o1) name = field (VObj o) name) /\
    (truthy (field (VObj o) "sessionId") = true -> o1 = o /\ a1 = [] /\ s1 = s) /\
    (truthy (field (VObj o) "sessionId") = false ->
     exists id, field (VObj o1) "sessionId" = VStr id /\ truthy (VStr id) = true) /\
    (forall n, RemovedInvalidMessages n ∉ a1) /\ (forall n, RemovedInvalidSummaries n ∉ a1).
Proof.
  unfold repair_sessionId.
  destruct (truthy (field (VObj o) "sessionId")) eqn:Hid; cbn [negb].
  - exists o, [], s. split; [reflexivity|]. split; [done|]. split; [done|].
    split; [done|]. split; [discriminate|]. split; intros n; apply not_elem_of_nil.
  - eexists _, _, _. split; [reflexivity|]. cbn. split; [done|].
    split; [intros name Hne; by apply field_set_other|].
    split; [discriminate|].
    split; [intros _; eexists; split; [apply field_set_same|reflexivity]|].
    split; intros n; not_in_list.
Qed.

Lemma repair_messages_facts (o : Obj) :
  exists (msgs : list JsVal),
    field (VObj (repair_messages o).1) "messages" = VArr msgs /\
    forallb Guard.validateMessage msgs = true /\
    (forall name, name <> "messages" ->
       field (VObj (repair_messages o).1) name = field (VObj o) name) /\
    (forall l, field (VObj o) "messages" = VArr l -> forallb Guard.validateMessage l = true ->
       repair_messages o = (o, [])) /\
    (forall n, RemovedInvalidMessages n ∈ (repair_messages o).2 -> n = 0) /\
    (forall n, RemovedInvalidSummaries n ∉ (repair_messages o).2).
Proof.
  unfold repair_messages.
  destruct (field (VObj o) "messages") as [| | | | | |l|] eqn:Hm;
    try (exists []; cbn [fst snd]; split; [apply field_set_same|]; split; [done|];
         split; [intros name Hne; by apply field_set_other|];
         split; [discriminate|]; split; [intros ? Hn; exfalso; revert Hn|intros ?];
         not_in_list).
  cbn zeta.
  destruct (negb (length (filter (fun m => Guard.validateMessage m = true) l) =? length l)%nat)
    eqn:Hlen; cbn [fst snd].
  - exists (filter (fun m => Guard.validateMessage m = true) l).
    split; [apply field_set_same|]. split; [apply forallb_filter_true|].
    split; [intros name Hne; by apply field_set_other|].
    split.
    { intros l' [= <-] Hall. rewrite (filter_all_valid _ _ Hall), Nat.eqb_refl in Hlen.
      discriminate. }
    split.
    { intros n Hn. apply list_elem_of_singleton in Hn. injection Hn as ->. lia. }
    intros n. not_in_list.
  - apply negb_false_iff, Nat.eqb_eq in Hlen.
    exists l. split; [exact Hm|].
    split.
    { assert (Hf : filter (fun m => Guard.validateMessage m = true) l = l).
      { clear Hm. induction l as [|x l IH]; [done|].
        destruct (decide (Guard.validateMessage x = true)) as [Hx|Hx].
        - rewrite filter_cons_True in Hlen |- * by done. cbn [length] in Hlen.
          f_equal. apply IH. lia.
        - rewrite filter_cons_False in Hlen by done.
          pose proof (length_filter (fun m => Guard.validateMessage m = true) l) as Hle.
          cbn [length] in Hlen. lia. }
      rewrite <- Hf. apply forallb_filter_true. }
    split; [done|]. split; [done|].
    split; [intros n Hn; by apply elem_of_nil in Hn|intros n; apply not_elem_of_nil].
Qed.

Lemma repair_summaries_facts (o : Obj) :
  exists (sums : list JsVal),
    field (VObj (repair_summaries o).1) "summaries" = VArr sums /\
    forallb Guard.validSummary sums = true /\
    (forall name, name <> "summaries" ->
       field (VObj (repair_summaries o).1) name = field (VObj o) name) /\
    (forall l, field (VObj o) "summaries" = VArr l -> forallb Guard.validSummary l = true ->
       repair_summaries o = (o, [])) /\
    (forall n, RemovedInvalidSummaries n ∈ (repair_summaries o).2 -> n = 0) /\
    (forall n, RemovedInvalidMessages n ∉ (repair_summaries o).2).
Proof.
  unfold repair_summaries.
  destruct (field (VObj o) "summaries") as [| | | | | |l|] eqn:Hm;
    try (exists []; cbn [fst snd]; split; [apply field_set_same|]; split; [done|];
         split; [intros name Hne; by apply field_set_other|];
         split; [discriminate|]; split; [intros ? Hn; exfalso; revert Hn|intros ?];
         not_in_list).
  cbn zeta.
  destruct (negb (length (filter (fun x => Guard.validSummary x = true) l) =? length l)%nat)
    eqn:Hlen; cbn [fst snd].
  - exists (filter (fun x => Guard.validSummary x = true) l).
    split; [apply field_set_same|]. split; [apply forallb_filter_true|].
    split; [intros name Hne; by apply field_set_other|].
    split.
    { intros l' [= <-] Hall. rewrite (filter_all_valid _ _ Hall), Nat.eqb_refl in Hlen.
      discriminate. }
    split.
    { intros n Hn. apply list_elem_of_singleton in Hn. injection Hn as ->. lia. }
    intros n. not_in_list.
  - apply negb_false_iff, Nat.eqb_eq in Hlen.
    exists l. split; [exact Hm|].
    split.
    { assert (Hf : filter (fun x => Guard.validSummary x = true) l = l).
      { clear Hm. induction l as [|x l IH]; [done|].
        destruct (decide (Guard.validSummary x = true)) as [Hx|Hx].
        - rewrite filter_cons_True in Hlen |- * by done. cbn [length] in Hlen.
          f_equal. apply IH. lia.
        - rewrite filter_cons_False in Hlen by done.
          pose proof (length_filter (fun x => Guard.validSummary x = true) l) as Hle.
          cbn [length] in Hlen. lia. }
      rewrite <- Hf. apply forallb_filter_true. }
    split; [done|]. split; [done|].
    split; [intros n Hn; by apply elem_of_nil in Hn|intros n; apply not_elem_of_nil].
Qed.

Lemma strict_eq_number (a : JsVal) (n : Z) :
  strict_eq a (VNum (Num n)) = true -> a = VNum (Num n).
Proof.
  destruct a as [| | |[|z]| | | |]; cbn [strict_eq]; try discriminate.
  intros H. apply Z.eqb_eq in H. by subst.
Qed.

Lemma strict_eq_number_refl (n : Z) : strict_eq (VNum (Num n)) (VNum (Num n)) = true.
Proof. cbn [strict_eq]. apply Z.eqb_refl. Qed.

Lemma repair_messageCount_facts (o : Obj) (msgs : list JsVal) :
  field (VObj o) "messages" = VArr msgs ->
  field (VObj (repair_messageCount o).1) "messageCount" = VNum (Num (Z.of_nat (length msgs))) /\
  (forall name, name <> "messageCount" ->
     field (VObj (repair_messageCount o).1) name = field (VObj o) name) /\
  (field (VObj o) "messageCount" = VNum (Num (Z.of_nat (length msgs))) ->
   repair_messageCount o = (o, [])) /\
  (forall n, RemovedInvalidMessages n ∉ (repair_messageCount o).2) /\
  (forall n, RemovedInvalidSummaries n ∉ (repair_messageCount o).2).
Proof.
  intros Hm. unfold repair_messageCount. rewrite Hm. cbn [js_length].
  destruct (strict_eq (field (VObj o) "messageCount") (VNum (Num (Z.of_nat (length msgs)))))
    eqn:Heq; cbn [negb fst snd].
  - apply strict_eq_number in Heq.
    split; [exact Heq|]. split; [done|]. split; [done|].
    split; intros n; apply not_elem_of_nil.
  - split; [apply field_set_same|].
    split; [intros name Hne; by apply field_set_other|].
    split; [intros H; rewrite H, strict_eq_number_refl in Heq; discriminate|].
    split; intros n; not_in_list.
Qed.

Lemma repair_lastActivity_facts (o : Obj) (s : Guard.State) :
  exists (o5 : Obj) (a5 : list Action) (s5 : Guard.State) (t : Z),
    repair_lastActivity o s = (Ok (o5, a5), s5) /\
    Guard.sessions s5 = Guard.sessions s /\
    field (VObj o5) "lastActivity" = VDate (Num t) /\
    (forall name, name <> "lastActivity" -> field (VObj o5) name = field (VObj o) name) /\
    (forall t0, field (VObj o) "lastActivity" = VDate (Num t0) -> o5 = o /\ a5 = [] /\ s5 = s) /\
    (forall n, RemovedInvalidMessages n ∉ a5) /\ (forall n, RemovedInvalidSummaries n ∉ a5).
Proof.
  unfold repair_lastActivity.
  destruct (negb (is_date (field (VObj o) "lastActivity"))
            || time_isNaN (field (VObj o) "lastActivity")) eqn:Hbad.
  - eexists _, _, _, _. split; [reflexivity|]. split; [reflexivity|].
    split; [apply field_set_same|].
    split; [intros name Hne; by apply field_set_other|].
    split; [intros t0 H; rewrite H in Hbad; discriminate|].
    split; intros n; not_in_list.
  - destruct (field (VObj o) "lastActivity") as [| | | | |[|t]| |] eqn:Hl; try discriminate.
    exists o, [], s, t. split; [reflexivity|]. split; [done|]. split; [exact Hl|].
    split; [done|]. split; [done|]. split; intros n; apply not_elem_of_nil.
Qed.

(** The verdict of the guard on a record with repaired fields goes by
    its id alone. *)
Lemma integrity_of_repaired_fields (o : Obj) :
  repaired_fields o ->
  Guard.validateSessionIntegrity (VObj o)
  = if is_string (field (VObj o) "sessionId")
    then if truthy (field (VObj o) "sessionId")
         then mkIntegrity true [] else mkIntegrity false [InvalidSessionId]
    else mkIntegrity false [InvalidStructure].
Proof.
  intros (msgs & sums & t & Hm & Hmv & Hs & Hsv & Hc & Hl).
  unfold Guard.validateSessionIntegrity, Guard.validateSessionData.
  rewrite Hm, Hs, Hc, Hl.
  cbn [truthy is_array is_date is_number time_isNaN js_length strict_eq negb orb andb].
  rewrite (failing_from_none _ _ _ Hmv), (failing_from_none _ _ _ Hsv), Z.eqb_refl.
  destruct (is_string (field (VObj o) "sessionId")); cbn [negb andb orb]; [|reflexivity].
  by destruct (truthy (field (VObj o) "sessionId")).
Qed.

(** What the guard accepts has repaired fields and a non-empty string as
    its id. *)
Lemma valid_has_repaired_fields (o : Obj) :
  isValid (Guard.validateSessionIntegrity (VObj o)) = true ->
  repaired_fields o /\
  truthy (field (VObj o) "sessionId") = true /\
  is_string (field (VObj o) "sessionId") = true.
Proof.
  unfold Guard.validateSessionIntegrity.
  destruct (Guard.validateSessionData (VObj o)) eqn:Hdata; cbn [negb isValid]; [|discriminate].
  intros Hlen. apply Nat.eqb_eq, nil_length_inv in Hlen.
  apply app_eq_nil in Hlen as [H1 Hlen]. apply app_eq_nil in Hlen as [H2 Hlen].
  apply app_eq_nil in Hlen as [H3 Hlen]. apply app_eq_nil in Hlen as [H4 H5].
  destruct (truthy (field (VObj o) "sessionId")) eqn:Hid; cbn [negb orb] in H1.
  2:{ discriminate. }
  destruct (is_string (field (VObj o) "sessionId")) eqn:Hstr; cbn [negb] in H1; [|discriminate].
  destruct (field (VObj o) "messages") as [| | | | | |msgs|] eqn:Hm; try discriminate.
  destruct (field (VObj o) "summaries") as [| | | | | |sums|] eqn:Hs; try discriminate.
  apply map_eq_nil, failing_from_nil in H2. apply map_eq_nil, failing_from_nil in H3.
  cbn [js_length] in H4.
  destruct (strict_eq (field (VObj o) "messageCount") (VNum (Num (Z.of_nat (length msgs)))))
    eqn:Hc; cbn [negb] in H4; [|discriminate].
  apply strict_eq_number in Hc.
  destruct (field (VObj o) "lastActivity") as [| | | | |[|t]| |] eqn:Hl; try discriminate.
  split; [|by split].
  exists msgs, sums, t. by repeat split.
Qed.

(** X15.  [repairSessionData] always returns and leaves the store alone.
    The record it returns passes [validateSessionIntegrity] unless the
    field [sessionId] of the input was a truthy value that is not a string,
    which the repair does not touch and the guard refuses as an invalid
    structure.  A record that is valid already comes back unchanged with
    no action.  The number in 'Removed n invalid messages' and 'Removed n
    invalid summaries' is always 0, because it is computed after the array
    has been replaced by the filtered one. *)
Theorem repairSessionData_yields_a_valid_record :
  forall (o : Obj) (s : Guard.State),
    exists (repaired : Obj) (actions : list Action) (s' : Guard.State),
      Guard.repairSessionData o s = (Ok (repaired, actions), s') /\
      Guard.sessions s' = Guard.sessions s /\
      Guard.validateSessionIntegrity (VObj repaired)
        = (if negb (truthy (field (VObj o) "sessionId")) || is_string (field (VObj o) "sessionId")
           then mkIntegrity true [] else mkIntegrity false [InvalidStructure]) /\
      (forall n, RemovedInvalidMessages n ∈ actions -> n = 0) /\
      (forall n, RemovedInvalidSummaries n ∈ actions -> n = 0) /\
      (isValid (Guard.validateSessionIntegrity (VObj o)) = true ->
       repaired = o /\ actions = [] /\ s' = s).
Proof.
  intros o s. rewrite repairSessionData_steps.
  destruct (repair_sessionId_facts o s) as (o1 & a1 & s1 & E1 & S1 & O1 & K1 & G1 & R1 & R1').
  run E1. cbn beta iota zeta.
  destruct (repair_messages_facts o1) as (msgs & M2 & V2 & O2 & K2 & R2 & R2').
  destruct (repair_messages o1) as [o2 a2]. cbn [fst snd] in M2, O2, R2, R2'.
  cbn beta iota zeta.
  destruct (repair_summaries_facts o2) as (sums & M3 & V3 & O3 & K3 & R3 & R3').
  destruct (repair_summaries o2) as [o3 a3]. cbn [fst snd] in M3, O3, R3, R3'.
  cbn beta iota zeta.
  assert (Hm3 : field (VObj o3) "messages" = VArr msgs) by (rewrite O3 by done; exact M2).
  destruct (repair_messageCount_facts o3 msgs Hm3) as (M4 & O4 & K4 & R4 & R4').
  destruct (repair_messageCount o3) as [o4 a4]. cbn [fst snd] in M4, O4, R4, R4'.
  cbn beta iota zeta.
  destruct (repair_lastActivity_facts o4 s1) as (o5 & a5 & s5 & t & E5 & S5 & M5 & O5 & K5 & R5 & R5').
  run E5. cbn beta iota zeta.
  exists o5, (a1 ++ a2 ++ a3 ++ a4 ++ a5), s5.
  split; [reflexivity|]. split; [congruence|].
  assert (Hfields : repaired_fields o5).
  { exists msgs, sums, t.
    split; [rewrite O5, O4 by done; exact Hm3|]. split; [exact V2|].
    split; [rewrite O5, O4 by done; exact M3|]. split; [exact V3|].
    split; [rewrite O5 by done; exact M4|exact M5]. }
  assert (Hid5 : field (VObj o5) "sessionId" = field (VObj o1) "sessionId").
  { by rewrite O5, O4, O3, O2 by done. }
  split.
  { rewrite (integrity_of_repaired_fields o5 Hfields), Hid5.
    destruct (truthy (field (VObj o) "sessionId")) eqn:Hid; cbn [negb orb].
    - destruct (K1 eq_refl) as (-> & _ & _). rewrite Hid.
      by destruct (is_string (field (VObj o) "sessionId")).
    - destruct (G1 eq_refl) as (id & -> & Hid'). by rewrite Hid'. }
  split.
  { intros n Hn. rewrite !elem_of_app in Hn.
    destruct Hn as [Hn|[Hn|[Hn|[Hn|Hn]]]];
      [by apply R1 in Hn|by apply R2|by apply R3' in Hn|by apply R4 in Hn|by apply R5 in Hn]. }
  split.
  { intros n Hn. rewrite !elem_of_app in Hn.
    destruct Hn as [Hn|[Hn|[Hn|[Hn|Hn]]]];
      [by apply R1' in Hn|by apply R2' in Hn|by apply R3|by apply R4' in Hn|by apply R5' in Hn]. }
  intros Hvalid.
  destruct (valid_has_repaired_fields o Hvalid)
    as ((msgs0 & sums0 & t0 & Hm0 & Hmv0 & Hs0 & Hsv0 & Hc0 & Hl0) & Hid & _).
  destruct (K1 Hid) as (-> & -> & ->).
  pose proof (K2 _ Hm0 Hmv0) as [= -> ->].
  pose proof (K3 _ Hs0 Hsv0) as [= -> ->].
  assert (msgs = msgs0) as -> by congruence.
  pose proof (K4 Hc0) as [= -> ->].
  destruct (K5 _ Hl0) as (-> & -> & ->). by repeat split.
Qed.

(** ** The check of the whole store *)

Lemma map_set_set {V : Type} (k : string) (v v' : V) (m : list (string * V)) :
  map_set k v (map_set k v' m) = map_set k v m.
Proof.
  induction m as [|[k0 v0] m IH]; cbn [map_set].
  - by rewrite String.eqb_refl.
  - destruct (String.eqb k k0) eqn:E; cbn [map_set].
    + by rewrite String.eqb_refl.
    + by rewrite E, IH.
Qed.

(** One run of the guard on a known id that is not empty: it returns,
    only the record of that id is replaced, what replaces it is valid, and
    a session is reported recovered exactly when it is reported
    corrupted. *)
Lemma detect_known (s : Guard.State) (sid : string) (rec : Obj) :
  map_get sid (Guard.sessions s) = Some rec ->
  sid <> "" ->
  exists (report : CorruptionReport) (s1 : Guard.State) (rec1 : Obj),
    Guard.detectAndRecoverCorruption sid s = (Ok report, s1) /\
    Guard.sessions s1 = map_set sid rec1 (Guard.sessions s) /\
    isValid (Guard.validateSessionIntegrity (VObj rec1)) = true /\
    recovered report = isCorrupted report /\
    (isValid (Guard.validateSessionIntegrity (VObj rec)) = true -> isCorrupted report = false).
Proof.
  intros Hknown Hsid.
  destruct (isValid (Guard.validateSessionIntegrity
                       (VObj (touch (Guard.wall s (Guard.ticks s)) rec)))) eqn:Hv.
  - exists (mkReport sid false [] false []), (guard_touched sid rec s),
           (touch (Guard.wall s (Guard.ticks s)) rec).
    split; [by apply detect_valid|]. by repeat split.
  - set (t0 := touch (Guard.wall s (Guard.ticks s)) rec) in *.
    set (s1 := guard_touched sid rec s).
    destruct (guard_repair_returns s1 t0) as ([rep acts] & s2 & Erep & Hsess).
    assert (Hs1 : Guard.sessions s1 = map_set sid t0 (Guard.sessions s)) by reflexivity.
    unfold Guard.detectAndRecoverCorruption, Guard.detect_body, try_catch.
    run (lift_run s (mkReport sid false [] false []) _ _ _ (guard_hasSession s sid rec Hknown)).
    cbn [negb].
    run (lift_run s (mkReport sid false [] false []) _ _ _ (guard_getSession s sid rec Hknown)).
    fold t0 s1. cbn zeta. rewrite Hv. cbn [negb].
    unfold bind at 1 2. unfold Guard.modify_report at 1. cbn [fst snd].
    unfold bind at 1. unfold Guard.modify_report at 1. cbn [fst snd].
    unfold bind at 1. rewrite (lift_run s1 _ _ _ _ Erep). cbn [fst snd].
    destruct (isValid (Guard.validateSessionIntegrity (VObj rep))) eqn:Hrv.
    + unfold bind at 1.
      rewrite (lift_run s2 _ _ _ _ (guard_updateSession s2 sid rep (valid_structure _ Hrv))).
      cbn. eexists _, _, _. split; [reflexivity|]. cbn.
      split; [by rewrite Hsess, Hs1, map_set_set|].
      split; [by rewrite valid_touch|].
      split; [done|]. intros Hvalid. unfold t0 in Hv. rewrite valid_touch in Hv by done.
      congruence.
    + unfold bind at 1.
      rewrite (lift_run s2 _ _ _ _ (guard_createEmptySession s2 sid)).
      unfold bind at 1.
      rewrite (lift_run (guard_tick s2) _ _ _ _
                 (guard_updateSession (guard_tick s2) sid
                    (empty_record sid (Guard.wall s2 (Guard.ticks s2))) eq_refl)).
      cbn. eexists _, _, _. split; [reflexivity|]. cbn.
      split; [by rewrite Hsess, Hs1, map_set_set|].
      split.
      { pose proof (empty_record_valid sid (Guard.wall s2 (S (Guard.ticks s2))) Hsid) as Hev.
        unfold empty_record in Hev. by rewrite Hev. }
      split; [done|]. intros Hvalid. unfold t0 in Hv. rewrite valid_touch in Hv by done.
      congruence.
Qed.

Lemma check_loop (ids : list string) :
  forall (s : Guard.State) (reports : list SystemReport) (c r : Z),
    NoDup ids ->
    (forall k, k ∈ ids -> k <> "" /\ is_Some (map_get k (Guard.sessions s))) ->
    exists (reports' : list SystemReport) (c' : Z) (s' : Guard.State),
      foldM check_one ids (reports, c, r) s = (Ok (reports ++ reports', c + c', r + c'), s') /\
      length reports' = length ids /\
      0 <= c' <= Z.of_nat (length ids) /\
      map fst (Guard.sessions s') = map fst (Guard.sessions s) /\
      (forall k, k ∈ ids ->
         exists rec, map_get k (Guard.sessions s') = Some rec /\
                     isValid (Guard.validateSessionIntegrity (VObj rec)) = true) /\
      (forall k, k ∉ ids -> map_get k (Guard.sessions s') = map_get k (Guard.sessions s)) /\
      ((forall k rec, k ∈ ids -> map_get k (Guard.sessions s) = Some rec ->
          isValid (Guard.validateSessionIntegrity (VObj rec)) = true) -> c' = 0).
Proof.
  induction ids as [|sid ids IH]; intros s reports c r Hnd Hids.
  - exists [], 0, s. cbn [foldM length]. rewrite app_nil_r, !Z.add_0_r.
    split; [reflexivity|]. split; [done|]. split; [lia|]. split; [done|].
    split; [intros k Hk; by apply elem_of_nil in Hk|]. by split.
  - apply NoDup_cons in Hnd as [Hfresh Hnd].
    destruct (Hids sid (list_elem_of_here _ _)) as [Hsid [rec Hrec]].
    destruct (detect_known s sid rec Hrec Hsid) as (report & s1 & rec1 & E & S1 & V1 & RC & Hclean).
    set (b := if isCorrupted report then 1 else 0).
    assert (E1 : check_one (reports, c, r) sid s
                 = (Ok (reports ++ [system_report report], c + b, r + b), s1)).
    { unfold check_one, try_catch. run E. unfold ret, b. rewrite RC.
      destruct (isCorrupted report); repeat f_equal; lia. }
    assert (Hother : forall k, k <> sid ->
              map_get k (Guard.sessions s1) = map_get k (Guard.sessions s)).
    { intros k Hne. rewrite S1. by apply map_get_set_ne. }
    destruct (IH s1 (reports ++ [system_report report]) (c + b) (r + b) Hnd)
      as (reports' & c' & s' & E2 & L2 & B2 & K2 & V2 & O2 & Z2).
    { intros k Hk. destruct (Hids k (list_elem_of_further _ _ _ Hk)) as [Hk1 Hk2].
      split; [done|]. rewrite Hother; [done|]. intros ->. by apply Hfresh. }
    exists (system_report report :: reports'), (b + c'), s'.
    split.
    { cbn [foldM]. run E1. rewrite E2. rewrite <- app_assoc. cbn [app].
      by rewrite !Z.add_assoc. }
    split; [cbn [length]; by rewrite L2|].
    split; [cbn [length]; unfold b; destruct (isCorrupted report); lia|].
    split.
    { rewrite K2, S1. by eapply map_set_keys_known. }
    split.
    { intros k Hk. apply elem_of_cons in Hk as [->|Hk]; [|by apply V2].
      exists rec1. split; [|exact V1]. rewrite (O2 sid Hfresh), S1. apply map_get_set. }
    split.
    { intros k Hk. apply not_elem_of_cons in Hk as [Hne Hk].
      rewrite (O2 k Hk). by apply Hother. }
    intros Hall.
    assert (Hb : b = 0).
    { unfold b. rewrite Hclean; [done|]. apply (Hall sid rec); [left|done]. }
    rewrite Hb, Z2; [done|].
    intros k rec' Hk Hrec'. apply (Hall k rec'); [by right|].
    rewrite <- Hother; [done|]. intros ->. by apply Hfresh.
Qed.

Lemma system_check_facts (s : Guard.State) :
  NoDup (map fst (Guard.sessions s)) ->
  (forall k, k ∈ map fst (Guard.sessions s) -> k <> "") ->
  exists (result : SystemCheck) (s' : Guard.State),
    performSystemCorruptionCheck s = (Ok result, s') /\
    chk_totalSessions result = Z.of_nat (length (Guard.sessions s)) /\
    length (reports result) = length (Guard.sessions s) /\
    recoveredSessions result = corruptedSessions result /\
    0 <= corruptedSessions result <= chk_totalSessions result /\
    map fst (Guard.sessions s') = map fst (Guard.sessions s) /\
    all_valid s' /\
    (all_valid s -> corruptedSessions result = 0).
Proof.
  intros Hnd Hkeys.
  destruct (check_loop (map fst (Guard.sessions s)) s [] 0 0 Hnd)
    as (reports' & c' & s' & E & L & B & K & V & _ & Z0).
  { intros k Hk. split; [by apply Hkeys|].
    destruct (map_get k (Guard.sessions s)) eqn:Hg; [by eexists|].
    by apply map_get_None in Hg. }
  assert (Ei : guard_getAllSessionIds s = (Ok (map fst (Guard.sessions s)), s)) by reflexivity.
  eexists _, s'. split.
  { unfold performSystemCorruptionCheck. run Ei. run E. reflexivity. }
  cbn [chk_totalSessions reports recoveredSessions corruptedSessions app].
  rewrite length_map in *.
  split; [done|]. split; [done|]. split; [done|]. split; [lia|]. split; [exact K|].
  split.
  - intros k rec Hrec.
    destruct (V k) as (rec' & Hrec' & Hvalid); [|congruence].
    rewrite <- K. eapply elem_of_keys. by apply map_get_elem_of.
  - intros Hall. rewrite Z0; [done|]. intros k rec _ Hrec. by apply (Hall k rec).
Qed.

(** X16.  [performSystemCorruptionCheck] on a store whose ids are not
    empty: it returns one report for each session, every session reported
    as corrupted is reported as recovered, the store keeps its keys, and
    every record it then holds passes [validateSessionIntegrity].  A
    second check right after finds no corrupted session. *)
Theorem performSystemCorruptionCheck_heals_every_session :
  forall s : Guard.State,
    NoDup (map fst (Guard.sessions s)) ->
    (forall k, k ∈ map fst (Guard.sessions s) -> k <> "") ->
    exists (result : SystemCheck) (s' : Guard.State),
      performSystemCorruptionCheck s = (Ok result, s') /\
      chk_totalSessions result = Z.of_nat (length (Guard.sessions s)) /\
      length (reports result) = length (Guard.sessions s) /\
      recoveredSessions result = corruptedSessions result /\
      0 <= corruptedSessions result <= chk_totalSessions result /\
      map fst (Guard.sessions s') = map fst (Guard.sessions s) /\
      all_valid s' /\
      exists (again : SystemCheck) (s'' : Guard.State),
        performSystemCorruptionCheck s' = (Ok again, s'') /\
        corruptedSessions again = 0 /\
        recoveredSessions again = 0 /\
        all_valid s''.
Proof.
  intros s Hnd Hkeys.
  destruct (system_check_facts s Hnd Hkeys) as (result & s' & E & T & L & R & B & K & V & _).
  exists result, s'.
  split; [exact E|]. split; [exact T|]. split; [exact L|]. split; [exact R|].
  split; [exact B|]. split; [exact K|]. split; [exact V|].
  destruct (system_check_facts s') as (again & s'' & E2 & _ & _ & R2 & _ & _ & V2 & Z2).
  { by rewrite K. }
  { intros k Hk. apply Hkeys. by rewrite <- K. }
  exists again, s''. split; [exact E2|]. rewrite R2, (Z2 V). by repeat split.
Qed.

Lemma performSystemCorruptionCheck_heals_every_session_scenario :
  NoDup (map fst (Guard.sessions guard_state_corrupted)) /\
  exists (result : SystemCheck) (s' : Guard.State),
    performSystemCorruptionCheck guard_state_corrupted = (Ok result, s') /\
    corruptedSessions result = 1 /\
    recoveredSessions result = 1 /\
    all_valid s'.
Proof.
  split; [apply NoDup_singleton|].
  destruct (performSystemCorruptionCheck_heals_every_session guard_state_corrupted)
    as (result & s' & E & _ & _ & R & _ & _ & V & _).
  - apply NoDup_singleton.
  - intros k Hk. apply list_elem_of_singleton in Hk. by subst k.
  - exists result, s'. split; [exact E|].
    assert (Hrun : option_map corruptedSessions
                     (match (performSystemCorruptionCheck guard_state_corrupted).1 with
                      | Ok x => Some x | Throw _ => None end) = Some 1)
      by (vm_compute; reflexivity).
    rewrite E in Hrun. cbn in Hrun. injection Hrun as Hc.
    rewrite R, Hc. by repeat split.
Defined.

(** ** The summary generator *)

Lemma trim_start_clean (s : string) : starts_clean (trim_start s) = true.
Proof.
  induction s as [|c s IH]; cbn [trim_start]; [done|].
  destruct (is_ws c) eqn:E; [exact IH|]. cbn [starts_clean]. by rewrite E.
Qed.

Lemma trim_start_of_clean (s : string) : starts_clean s = true -> trim_start s = s.
Proof.
  destruct s as [|c s]; [done|]. cbn [starts_clean trim_start].
  by destruct (is_ws c).
Qed.

Lemma trim_end_clean (s : string) : starts_clean s = true -> starts_clean (trim_end s) = true.
Proof.
  destruct s as [|c s]; [done|]. cbn [starts_clean trim_end]. intros Hc.
  destruct (is_ws c) eqn:E; cbn [negb] in Hc; [discriminate|].
  destruct (trim_end s); cbn [starts_clean]; by rewrite E.
Qed.

Lemma trim_end_idem (s : string) : trim_end (trim_end s) = trim_end s.
Proof.
  induction s as [|c s IH]; [done|]. cbn [trim_end].
  destruct (trim_end s) as [|c' t] eqn:E.
  - destruct (is_ws c) eqn:Hc; [done|]. cbn [trim_end]. by rewrite Hc.
  - cbn [trim_end] in IH |- *. cbn [trim_end]. by rewrite IH.
Qed.

Lemma js_trim_idem (s : string) : js_trim (js_trim s) = js_trim s.
Proof.
  unfold js_trim.
  rewrite (trim_start_of_clean (trim_end (trim_start s)))
    by apply trim_end_clean, trim_start_clean.
  apply trim_end_idem.
Qed.

Lemma prefix_append (p s : string) : String.prefix p (p +:+ s) = true.
Proof.
  induction p as [|c p IH]; [by destruct s|].
  change (String c p +:+ s) with (String c (p +:+ s)). cbn [String.prefix].
  destruct (Ascii.ascii_dec c c); [exact IH|done].
Qed.

(** X17.  The generator of the repository behind the interface of the
    manager.  It is available exactly when the API key is set, not empty,
    and the client could be built.  When it is not available,
    [generateSummary] throws; for no messages it answers the empty string
    without calling the model.  Otherwise a summary it returns is the
    trimmed text of the model, is not empty and is trimmed, so that the
    test of [triggerSummarization] accepts it; and every error it throws,
    also the one for an empty text of the model, carries a message that
    begins with 'Summary generation failed: '. *)
Theorem class_generateSummary_answers_are_accepted :
  forall (cfg : MemoryConfig) (newClient : string -> Res unit)
         (generateContent : list Message -> Res string) (messages : list Message),
    let gen := class_summaryGenerator cfg newClient generateContent in
    (isAvailable gen = true <->
     exists key, geminiApiKey cfg = Some key /\ key <> "" /\ exists u, newClient key = Ok u) /\
    (isAvailable gen = false ->
     generateSummary gen messages
       = Throw (Error "SummaryGenerator is not available - API key not configured or initialization failed")) /\
    (isAvailable gen = true -> messages = [] -> generateSummary gen messages = Ok "") /\
    (isAvailable gen = true -> messages <> [] ->
     (forall summary, generateSummary gen messages = Ok summary ->
        (exists text, generateContent messages = Ok text /\ summary = js_trim text) /\
        js_trim summary = summary /\
        summary <> "" /\
        truthy_string summary && (0 <? String.length (js_trim summary))%nat = true) /\
     (forall e, generateSummary gen messages = Throw e ->
        String.prefix "Summary generation failed: " (error_message e) = true)).
Proof.
  intros cfg newClient generateContent messages gen.
  cbn [isAvailable generateSummary gen class_summaryGenerator].
  split.
  { unfold class_isAvailable, initialize.
    destruct (geminiApiKey cfg) as [key|].
    - destruct key as [|c key]; cbn [truthy_string].
      + split; [discriminate|]. by intros (k & [= <-] & Hk & _).
      + destruct (newClient (String c key)) as [u|e] eqn:En.
        * split; [|done]. intros _. exists (String c key). split; [done|]. split; [done|].
          by exists u.
        * split; [discriminate|]. intros (k & [= <-] & _ & u & Hu). congruence.
    - split; [discriminate|]. by intros (k & Hk & _). }
  split.
  { intros Hav. unfold class_generateSummary. by rewrite Hav. }
  split.
  { intros Hav ->. unfold class_generateSummary. by rewrite Hav. }
  intros Hav Hne.
  assert (Hlen : (length messages =? 0)%nat = false) by (by destruct messages).
  unfold class_generateSummary. rewrite Hav, Hlen. cbn [negb]. cbn zeta.
  destruct (generateContent messages) as [text|error].
  - destruct (negb (truthy_string text) || (String.length (js_trim text) =? 0)%nat) eqn:Hbad.
    + split; [intros summary H; revert H|intros e H; revert H];
        vm_compute; [discriminate|]. by intros [= <-].
    + apply orb_false_iff in Hbad as [_ Hlen']. apply Nat.eqb_neq in Hlen'.
      split; [|discriminate].
      intros summary [= <-].
      split; [by exists text|]. split; [apply js_trim_idem|].
      assert (Hne' : js_trim text <> "") by (by destruct (js_trim text)).
      split; [exact Hne'|]. rewrite js_trim_idem.
      destruct (js_trim text); [done|reflexivity].
  - split.
    { intros summary.
      destruct (js_includes (error_message error) "API key"); [discriminate|].
      destruct (js_includes (error_message error) "safety"); [discriminate|].
      destruct (js_includes (error_message error) "quota" ||
                js_includes (error_message error) "rate limit"); discriminate. }
    intros e.
    destruct (js_includes (error_message error) "API key"); [by intros [= <-]|].
    destruct (js_includes (error_message error) "safety"); [by intros [= <-]|].
    destruct (js_includes (error_message error) "quota" ||
              js_includes (error_message error) "rate limit"); [by intros [= <-]|].
    intros [= <-]. cbn [error_message]. apply prefix_append.
Qed.

(** ** Session ids *)

Lemma string_app_nil_r (s : string) : s +:+ "" = s.
Proof. induction s as [|c s IH]; [reflexivity|]. change (String c (s +:+ "") = String c s). by rewrite IH. Qed.

Lemma string_app_assoc (a b c : string) : (a +:+ b) +:+ c = a +:+ (b +:+ c).
Proof.
  induction a as [|x a IH]; [reflexivity|].
  change (String x ((a +:+ b) +:+ c) = String x (a +:+ (b +:+ c))). by rewrite IH.
Qed.

Lemma string_app_cons_inv (a b : string) (c : ascii) (s : string) :
  a +:+ b = String c s ->
  (a = "" /\ b = String c s) \/ exists a', a = String c a' /\ s = a' +:+ b.
Proof.
  destruct a as [|x a]; [by left|].
  intros H. change (String x (a +:+ b) = String c s) in H.
  injection H as -> <-. right. by exists a.
Qed.

Lemma string_app_nil_inv (a b : string) : a +:+ b = "" -> a = "" /\ b = "".
Proof.
  destruct a as [|x a]; intros H.
  - change (b = "") in H. by subst.
  - change (String x (a +:+ b) = "") in H. discriminate.
Qed.

Lemma string_length_app (a b : string) :
  String.length (a +:+ b) = (String.length a + String.length b)%nat.
Proof.
  induction a as [|x a IH]; [reflexivity|].
  change (S (String.length (a +:+ b)) = S (String.length a + String.length b)). by rewrite IH.
Qed.

Lemma all_chars_app (p : ascii -> bool) (a b : string) :
  all_chars p (a +:+ b) = all_chars p a && all_chars p b.
Proof.
  induction a as [|x a IH]; [reflexivity|].
  change (p x && all_chars p (a +:+ b) = p x && all_chars p a && all_chars p b).
  by rewrite IH, andb_assoc.
Qed.

Lemma all_chars_impl (p q : ascii -> bool) (s : string) :
  (forall c, p c = true -> q c = true) -> all_chars p s = true -> all_chars q s = true.
Proof.
  intros Hpq. induction s as [|c s IH]; [done|]. cbn [all_chars].
  intros [Hc Hs]%andb_true_iff. by rewrite (Hpq c Hc), (IH Hs).
Qed.

Lemma count_char_app (c : ascii) (a b : string) :
  count_char c (a +:+ b) = (count_char c a + count_char c b)%nat.
Proof.
  induction a as [|x a IH]; [reflexivity|].
  change ((if Ascii.eqb c x then 1 else 0) + count_char c (a +:+ b)
          = (if Ascii.eqb c x then 1 else 0) + count_char c a + count_char c b)%nat.
  rewrite IH. lia.
Qed.

Lemma count_char_absent (p : ascii -> bool) (c : ascii) (s : string) :
  p c = false -> all_chars p s = true -> count_char c s = 0%nat.
Proof.
  intros Hc. induction s as [|x s IH]; [done|]. cbn [all_chars count_char].
  intros [Hx Hs]%andb_true_iff. rewrite (IH Hs).
  destruct (Ascii.eqb_spec c x) as [->|_]; [congruence|done].
Qed.

(** The derivative-based test decides the language of the expression. *)
Lemma nullable_matches (r : Regex) : nullable r = true <-> matches r "".
Proof.
  split.
  - induction r as [| |p|r1 IH1 r2 IH2|r1 IH1 r2 IH2|r IH]; cbn [nullable]; intros H.
    + discriminate.
    + constructor.
    + discriminate.
    + apply andb_true_iff in H as [H1 H2].
      change "" with ("" +:+ ""). constructor; auto.
    + apply orb_true_iff in H as [H|H]; [apply matches_alt_l|apply matches_alt_r]; auto.
    + constructor.
  - intros H. remember "" as s eqn:Es. revert Es.
    induction H as [|p c Hc|r1 r2 s1 s2 H1 IH1 H2 IH2|r1 r2 s H IH|r1 r2 s H IH|r
                   |r s1 s2 H1 IH1 H2 IH2]; intros Es; cbn [nullable]; try done.
    + apply string_app_nil_inv in Es as [-> ->]. by rewrite IH1, IH2.
    + by rewrite IH.
    + rewrite IH by done. apply orb_true_r.
Qed.

Lemma deriv_matches (c : ascii) (r : Regex) (s : string) :
  matches (deriv c r) s <-> matches r (String c s).
Proof.
  split.
  - revert s.
    induction r as [| |p|r1 IH1 r2 IH2|r1 IH1 r2 IH2|r IH]; cbn [deriv]; intros s H.
    + inversion H.
    + inversion H.
    + destruct (p c) eqn:Hc; inversion H; subst. by constructor.
    + destruct (nullable r1) eqn:Hn.
      * inversion H as [| | | ? ? ? H'| ? ? ? H'| |]; subst.
        -- inversion H' as [| |? ? s1 s2 Ha Hb| | | |]; subst.
           change (String c (s1 +:+ s2)) with (String c s1 +:+ s2).
           constructor; auto.
        -- change (String c s) with ("" +:+ String c s).
           constructor; [by apply nullable_matches|auto].
      * inversion H as [| |? ? s1 s2 Ha Hb| | | |]; subst.
        change (String c (s1 +:+ s2)) with (String c s1 +:+ s2).
        constructor; auto.
    + inversion H; subst; [apply matches_alt_l|apply matches_alt_r]; auto.
    + inversion H as [| |? ? s1 s2 Ha Hb| | | |]; subst.
      change (String c (s1 +:+ s2)) with (String c s1 +:+ s2).
      constructor; auto.
  - intros H. remember (String c s) as cs eqn:Es. revert s Es.
    induction H as [|p x Hx|r1 r2 s1 s2 H1 IH1 H2 IH2|r1 r2 s0 H IH|r1 r2 s0 H IH|r
                   |r s1 s2 H1 IH1 H2 IH2]; intros s Es; cbn [deriv].
    + discriminate.
    + injection Es as -> <-. rewrite Hx. constructor.
    + apply string_app_cons_inv in Es as [[-> ->]|(s1' & -> & ->)].
      * rewrite (proj2 (nullable_matches r1) H1). apply matches_alt_r. by apply IH2.
      * destruct (nullable r1).
        -- apply matches_alt_l. constructor; auto.
        -- constructor; auto.
    + apply matches_alt_l. by apply IH.
    + apply matches_alt_r. by apply IH.
    + discriminate.
    + apply string_app_cons_inv in Es as [[-> ->]|(s1' & -> & ->)].
      * by apply IH2.
      * constructor; auto.
Qed.

Lemma regex_test_matches (r : Regex) (s : string) :
  regex_test r s = true <-> matches r s.
Proof.
  revert r. induction s as [|c s IH]; intros r; cbn [regex_test].
  - apply nullable_matches.
  - rewrite IH. apply deriv_matches.
Qed.

Lemma matches_lit (s t : string) : matches (re_lit s) t <-> t = s.
Proof.
  revert t. induction s as [|c s IH]; intros t; cbn [re_lit].
  - split; [by inversion 1|intros ->; constructor].
  - split.
    + inversion 1 as [| |? ? s1 s2 Ha Hb| | | |]; subst.
      inversion Ha as [|? x Hx| | | | |]; subst.
      apply Ascii.eqb_eq in Hx as <-. apply IH in Hb as ->. reflexivity.
    + intros ->. change (String c s) with (String c "" +:+ s).
      constructor; [constructor; apply Ascii.eqb_refl|by apply IH].
Qed.

Lemma matches_star_class (p : ascii -> bool) (s : string) :
  matches (re_star (re_class p)) s <-> all_chars p s = true.
Proof.
  split.
  - intros H. remember (re_star (re_class p)) as r eqn:Er. revert Er.
    induction H as [|q x Hx|r1 r2 s1 s2 H1 IH1 H2 IH2|r1 r2 s0 H IH|r1 r2 s0 H IH|r
                   |r s1 s2 H1 IH1 H2 IH2]; intros Er; try discriminate.
    + done.
    + injection Er as ->. inversion H1 as [|? x Hx| | | | |]; subst.
      change (String x "" +:+ s2) with (String x s2). cbn [all_chars].
      by rewrite Hx, IH2.
  - induction s as [|c s IH]; cbn [all_chars].
    + constructor.
    + intros [Hc Hs]%andb_true_iff. change (String c s) with (String c "" +:+ s).
      constructor; [by constructor|auto].
Qed.

Lemma matches_plus_class (p : ascii -> bool) (s : string) :
  matches (re_plus (re_class p)) s <-> s <> "" /\ all_chars p s = true.
Proof.
  unfold re_plus. split.
  - inversion 1 as [| |? ? s1 s2 Ha Hb| | | |]; subst.
    inversion Ha as [|? x Hx| | | | |]; subst.
    apply matches_star_class in Hb.
    change (String x "" +:+ s2) with (String x s2). cbn [all_chars].
    by rewrite Hx, Hb.
  - intros [Hne Hs]. destruct s as [|c s]; [done|]. cbn [all_chars] in Hs.
    apply andb_true_iff in Hs as [Hc Hs].
    change (String c s) with (String c "" +:+ s).
    constructor; [by constructor|by apply matches_star_class].
Qed.

(** What [sessionIdPattern] accepts. *)
Lemma sessionIdPattern_spec (s : string) :
  regex_test sessionIdPattern s = true <->
  exists digits rest : string,
    s = "session_" +:+ digits +:+ "_" +:+ rest /\
    digits <> "" /\ all_chars is_digit digits = true /\
    rest <> "" /\ all_chars is_lower_alnum rest = true.
Proof.
  rewrite regex_test_matches. unfold sessionIdPattern. split.
  - inversion 1 as [| |? ? s1 s2 Ha Hb| | | |]; subst.
    inversion Hb as [| |? ? s3 s4 Hc Hd| | | |]; subst.
    inversion Hd as [| |? ? s5 s6 He Hf| | | |]; subst.
    apply (matches_lit "session_") in Ha as ->. apply (matches_lit "_") in He as ->.
    apply matches_plus_class in Hc as [? ?]. apply matches_plus_class in Hf as [? ?].
    by exists s3, s6.
  - intros (digits & rest & -> & ? & ? & ? & ?).
    constructor; [by apply matches_lit|].
    constructor; [by apply matches_plus_class|].
    constructor; [by apply matches_lit|by apply matches_plus_class].
Qed.

Lemma all_chars_substring (p : ascii -> bool) (n m : nat) (s : string) :
  all_chars p s = true -> all_chars p (substring n m s) = true.
Proof.
  revert n m. induction s as [|c s IH]; intros n m; [by destruct n, m|].
  cbn [all_chars]. intros [Hc Hs]%andb_true_iff.
  destruct n as [|n]; cbn [substring].
  - destruct m as [|m]; [done|]. cbn [all_chars]. by rewrite Hc, IH.
  - by apply IH.
Qed.

Lemma js_includes_all_chars (p : ascii -> bool) (s sub : string) :
  js_includes s sub = true -> all_chars p s = true -> all_chars p sub = true.
Proof.
  unfold js_includes. destruct (index 0 sub s) as [m|] eqn:E; [|discriminate].
  intros _ Hs. apply index_correct1 in E. rewrite <- E. by apply all_chars_substring.
Qed.

Lemma is_id_char_not_ws (c : ascii) : is_id_char c = true -> negb (is_ws c) = true.
Proof. destruct c as [[] [] [] [] [] [] [] []]; vm_compute; congruence. Qed.

Lemma no_ws_trim (s : string) :
  all_chars (fun c => negb (is_ws c)) s = true -> js_trim s = s.
Proof.
  intros H. unfold js_trim.
  assert (Hstart : trim_start s = s).
  { destruct s as [|c s]; [done|]. cbn [all_chars] in H.
    apply andb_true_iff in H as [Hc _]. apply negb_true_iff in Hc.
    cbn [trim_start]. by rewrite Hc. }
  rewrite Hstart. clear Hstart.
  induction s as [|c s IH]; [done|]. cbn [all_chars] in H.
  apply andb_true_iff in H as [Hc Hs]. apply negb_true_iff in Hc.
  cbn [trim_end]. rewrite (IH Hs), Hc. by destruct s.
Qed.

Lemma well_formed_id_chars (s : string) :
  regex_test sessionIdPattern s = true -> all_chars is_id_char s = true.
Proof.
  intros (digits & rest & -> & _ & Hd & _ & Hr)%sessionIdPattern_spec.
  rewrite !all_chars_app.
  assert (Hd' : all_chars is_id_char digits = true).
  { apply (all_chars_impl is_digit); [|done].
    intros c Hc. unfold is_id_char, is_lower_alnum. rewrite Hc. by rewrite orb_true_r. }
  assert (Hr' : all_chars is_id_char rest = true).
  { apply (all_chars_impl is_lower_alnum); [|done].
    intros c Hc. unfold is_id_char. by rewrite Hc. }
  by rewrite Hd', Hr'.
Qed.

Lemma well_formed_id_underscores (s : string) :
  regex_test sessionIdPattern s = true -> count_char "_" s = 2%nat.
Proof.
  intros (digits & rest & -> & _ & Hd & _ & Hr)%sessionIdPattern_spec.
  rewrite !count_char_app.
  rewrite (count_char_absent is_digit "_" digits) by done.
  rewrite (count_char_absent is_lower_alnum "_" rest) by done.
  reflexivity.
Qed.

(** The three tests of [validateSessionId] come down to two: an id is
    valid when it has the format and the length. *)
Lemma validateSessionId_valid (s : string) :
  sv_isValid (validateSessionId s) = true <->
  regex_test sessionIdPattern s = true /\ (20 <= String.length s <= 50)%nat.
Proof.
  unfold validateSessionId.
  destruct s as [|c s]; [by split; [|intros [? _]]|].
  cbn [truthy_string negb]. set (id := String c s).
  destruct (regex_test sessionIdPattern id) eqn:Hre; cbn [negb].
  - pose proof (well_formed_id_chars id Hre) as Hchars.
    assert (Hno : forall sub, all_chars is_id_char sub = false -> js_includes id sub = false).
    { intros sub Hsub. destruct (js_includes id sub) eqn:E; [|done].
      by rewrite (js_includes_all_chars is_id_char id sub E Hchars) in Hsub. }
    rewrite !Hno by reflexivity. cbn [orb].
    destruct (String.length id <? 20)%nat eqn:Hlo; cbn [orb].
    { apply Nat.ltb_lt in Hlo. split; [done|]. intros [_ ?]. lia. }
    destruct (50 <? String.length id)%nat eqn:Hhi.
    { apply Nat.ltb_lt in Hhi. split; [done|]. intros [_ ?]. lia. }
    apply Nat.ltb_ge in Hlo, Hhi. by split.
  - split; [|by intros [? _]]. cbn [sv_isValid].
    change ([IdInvalidFormat] ++ ?l) with (IdInvalidFormat :: l). done.
Qed.

(** X18.  [validateSessionId] accepts exactly the strings
    'session_', digits, '_', lower-case letters or digits (at least one of
    each kind) that are 20 to 50 characters long.  An id is valid exactly
    when no error is listed, and the error 'Session ID contains invalid
    characters' never comes alone: whenever it is listed, so is 'Session
    ID has invalid format'. *)
Theorem validateSessionId_accepts_exactly_the_id_format :
  forall sessionId : string,
    (sv_isValid (validateSessionId sessionId) = true <->
     exists digits rest : string,
       sessionId = "session_" +:+ digits +:+ "_" +:+ rest /\
       digits <> "" /\ all_chars is_digit digits = true /\
       rest <> "" /\ all_chars is_lower_alnum rest = true /\
       (20 <= String.length sessionId <= 50)%nat) /\
    (sv_isValid (validateSessionId sessionId) = true <->
     sv_errors (validateSessionId sessionId) = []) /\
    (IdInvalidCharacters ∈ sv_errors (validateSessionId sessionId) ->
     IdInvalidFormat ∈ sv_errors (validateSessionId sessionId)).
Proof.
  intros sessionId. split; [|split].
  - rewrite validateSessionId_valid, sessionIdPattern_spec. split.
    + intros [(digits & rest & E & ? & ? & ? & ?) Hlen]. by exists digits, rest.
    + intros (digits & rest & E & ? & ? & ? & ? & Hlen). split; [|done].
      by exists digits, rest.
  - unfold validateSessionId. cbn [sv_isValid sv_errors].
    match goal with |- ((length ?l =? 0)%nat = true <-> _) => destruct l end; by split.
  - unfold validateSessionId. cbn [sv_errors].
    destruct sessionId as [|c s]; cbn [truthy_string negb].
    { intros H. apply list_elem_of_singleton in H. discriminate. }
    set (id := String c s).
    destruct (regex_test sessionIdPattern id) eqn:Hre; cbn [negb].
    + pose proof (well_formed_id_chars id Hre) as Hchars.
      assert (Hno : forall sub, all_chars is_id_char sub = false -> js_includes id sub = false).
      { intros sub Hsub. destruct (js_includes id sub) eqn:E; [|done].
        by rewrite (js_includes_all_chars is_id_char id sub E Hchars) in Hsub. }
      rewrite !Hno by reflexivity. cbn [orb]. rewrite app_nil_r.
      destruct (_ || _); cbn [app]; intros H.
      * apply list_elem_of_singleton in H. discriminate.
      * by apply elem_of_nil in H.
    + intros _. apply list_elem_of_here.
Qed.

(** X19.  [normalizeSessionId] leaves a valid id as it is, and what it
    returns is always a valid id, namely the trimmed input, which it
    returns again when asked again. *)
Theorem normalizeSessionId_keeps_exactly_the_valid_ids :
  forall input : option string,
    (forall sessionId : string,
       input = Some sessionId ->
       sv_isValid (validateSessionId sessionId) = true ->
       normalizeSessionId input = Some sessionId) /\
    (forall normalized : string,
       normalizeSessionId input = Some normalized ->
       sv_isValid (validateSessionId normalized) = true /\
       normalizeSessionId (Some normalized) = Some normalized /\
       exists raw : string, input = Some raw /\ normalized = js_trim raw).
Proof.
  assert (Hkeep : forall s, sv_isValid (validateSessionId s) = true ->
                            normalizeSessionId (Some s) = Some s).
  { intros s Hv. unfold normalizeSessionId.
    pose proof Hv as [Hre _]%validateSessionId_valid.
    assert (Htrim : js_trim s = s).
    { apply no_ws_trim. apply (all_chars_impl is_id_char); [apply is_id_char_not_ws|].
      by apply well_formed_id_chars. }
    destruct s as [|c s]; [done|]. cbn [truthy_string negb]. cbn zeta.
    by rewrite Htrim, Hv. }
  intros input. split.
  - intros sessionId -> Hv. by apply Hkeep.
  - intros normalized H. destruct input as [raw|]; [|done].
    unfold normalizeSessionId in H.
    destruct (negb (truthy_string raw)); [done|]. cbn zeta in H.
    destruct (sv_isValid (validateSessionId (js_trim raw))) eqn:Hv; [|done].
    injection H as <-. split; [done|]. split; [by apply Hkeep|]. by exists raw.
Qed.

(** The decimal numeral of a number that is not negative. *)
Lemma pretty_N_char_digit (m : N) : (m < 10)%N -> is_digit (pretty_N_char m) = true.
Proof.
  intros Hm.
  assert (m = 0 \/ m = 1 \/ m = 2 \/ m = 3 \/ m = 4 \/ m = 5 \/ m = 6 \/ m = 7 \/
          m = 8 \/ m = 9)%N as Hc by lia.
  destruct Hc as [->|[->|[->|[->|[->|[->|[->|[->|[->| ->]]]]]]]]]; reflexivity.
Qed.

Lemma pretty_N_go_digits (x : N) (s : string) :
  all_chars is_digit s = true ->
  all_chars is_digit (pretty_N_go x s) = true /\
  (String.length s <= String.length (pretty_N_go x s))%nat.
Proof.
  revert s. induction (N.lt_wf_0 x) as [x _ IH]; intros s Hs.
  destruct (decide (x = 0)%N) as [->|Hx]; [by rewrite pretty_N_go_0|].
  rewrite pretty_N_go_step by lia.
  destruct (IH (x `div` 10)%N) with (s := String (pretty_N_char (x `mod` 10)) s)
    as [Hd Hl].
  - apply N.div_lt; lia.
  - cbn [all_chars]. rewrite Hs, andb_true_r.
    apply pretty_N_char_digit, N.mod_lt. lia.
  - split; [exact Hd|]. cbn [String.length] in Hl. lia.
Qed.

Lemma pretty_Z_digits (z : Z) :
  0 <= z -> pretty z <> "" /\ all_chars is_digit (pretty z) = true.
Proof.
  intros Hz. destruct z as [|p|p]; [done| |lia].
  change (pretty (Z.pos p)) with (pretty (N.pos p)).
  unfold pretty, pretty_N. destruct (decide (N.pos p = 0%N)) as [|_]; [done|].
  rewrite pretty_N_go_step by lia.
  destruct (pretty_N_go_digits (N.pos p `div` 10)
              (String (pretty_N_char (N.pos p `mod` 10)) ""))
    as [Hd Hl].
  - cbn [all_chars]. rewrite andb_true_r.
    apply pretty_N_char_digit, N.mod_lt. lia.
  - split; [|exact Hd]. intros E. rewrite E in Hl. cbn [String.length] in Hl. lia.
Qed.

(** Two strings cut at their first '_' agree part by part. *)
Lemma split_at_underscore (p : ascii -> bool) (a a' b b' : string) :
  p "_"%char = false ->
  all_chars p a = true -> all_chars p a' = true ->
  a +:+ "_" +:+ b = a' +:+ "_" +:+ b' -> a = a' /\ b = b'.
Proof.
  intros Hp. revert a'. induction a as [|x a IH]; intros [|x' a'] Ha Ha' E.
  - change (String "_" b = String "_" b') in E. by injection E as ->.
  - change (String "_" b = String x' (a' +:+ "_" +:+ b')) in E. injection E as <- _.
    cbn [all_chars] in Ha'. by rewrite Hp in Ha'.
  - change (String x (a +:+ "_" +:+ b) = String "_" b') in E. injection E as -> _.
    cbn [all_chars] in Ha. by rewrite Hp in Ha.
  - change (String x (a +:+ "_" +:+ b) = String x' (a' +:+ "_" +:+ b')) in E.
    injection E as -> E. cbn [all_chars] in Ha, Ha'.
    apply andb_true_iff in Ha as [_ Ha]. apply andb_true_iff in Ha' as [_ Ha'].
    destruct (IH a' Ha Ha' E) as [-> ->]. done.
Qed.

Lemma after_attempts_S (k : nat) (s : Guard.State) :
  after_attempts k (after_attempts 1 s) = after_attempts (S k) s.
Proof. unfold after_attempts. cbn. f_equal; lia. Qed.

Lemma attempt_id_S (k : nat) (s : Guard.State) :
  attempt_id (after_attempts 1 s) k = attempt_id s (S k).
Proof.
  unfold attempt_id, after_attempts. cbn.
  replace (Guard.ticks s + 1 + k)%nat with (Guard.ticks s + S k)%nat by lia.
  by replace (Guard.draws s + 1 + k)%nat with (Guard.draws s + S k)%nat by lia.
Qed.

Lemma generateSessionId_run (s : Guard.State) :
  generateSessionId s = (Ok (attempt_id s 0), after_attempts 1 s).
Proof.
  unfold generateSessionId, bind, Guard.newDate, Guard.randomSuffix, ret,
    attempt_id, after_attempts.
  cbn. by rewrite !Nat.add_0_r, !Nat.add_1_r.
Qed.

Lemma unique_attempts_run (n : nat) (s : Guard.State) :
  (exists k : nat,
     (k < n)%nat /\
     unique_attempts n s = (Ok (Some (attempt_id s k)), after_attempts (S k) s) /\
     map_has (attempt_id s k) (Guard.sessions s) = false /\
     forall j, (j < k)%nat -> map_has (attempt_id s j) (Guard.sessions s) = true)
  \/
  (unique_attempts n s = (Ok None, after_attempts n s) /\
   forall j, (j < n)%nat -> map_has (attempt_id s j) (Guard.sessions s) = true).
Proof.
  revert s. induction n as [|n IH]; intros s.
  { right. split; [|intros j Hj; lia].
    destruct s. unfold after_attempts. cbn. by rewrite !Nat.add_0_r. }
  cbn [unique_attempts]. run (generateSessionId_run s).
  assert (Ehas : Guard.hasSession (attempt_id s 0) (after_attempts 1 s)
                 = (Ok (map_has (attempt_id s 0) (Guard.sessions s)), after_attempts 1 s))
    by reflexivity.
  run Ehas.
  destruct (map_has (attempt_id s 0) (Guard.sessions s)) eqn:Hknown; cbn [negb].
  - destruct (IH (after_attempts 1 s)) as [(k & Hk & E & Hnew & Hold)|[E Hold]].
    + left. exists (S k). split; [lia|]. rewrite E, after_attempts_S, attempt_id_S.
      split; [done|]. split; [by rewrite <- attempt_id_S|].
      intros [|j] Hj; [done|]. rewrite <- attempt_id_S. apply Hold. lia.
    + right. rewrite E, after_attempts_S. split; [done|].
      intros [|j] Hj; [done|]. rewrite <- attempt_id_S. apply Hold. lia.
  - left. exists 0%nat. split; [lia|]. split; [done|]. split; [done|]. intros j Hj; lia.
Qed.

Lemma fallback_has_no_id_format (t e : string) :
  regex_test sessionIdPattern ("session_" +:+ t +:+ "_" +:+ e +:+ "_fallback") = false.
Proof.
  destruct (regex_test _ _) eqn:E; [|done].
  apply well_formed_id_underscores in E. rewrite !count_char_app in E.
  change (count_char "_" "session_") with 1%nat in E.
  change (count_char "_" "_") with 1%nat in E.
  change (count_char "_" "_fallback") with 1%nat in E. lia.
Qed.

Lemma invalid_format_listed (s : string) :
  s <> "" -> regex_test sessionIdPattern s = false ->
  sv_isValid (validateSessionId s) = false /\
  IdInvalidFormat ∈ sv_errors (validateSessionId s).
Proof.
  intros Hs Hre. unfold validateSessionId. destruct s as [|c s]; [done|].
  cbn [truthy_string negb]. rewrite Hre. cbn [negb sv_isValid sv_errors].
  split; [done|]. apply list_elem_of_here.
Qed.

(** X20.  [generateUniqueSessionId] always returns and leaves the store
    as it is.  Either it returns the id of the first attempt that the
    store does not know, and all earlier attempts were known; or every
    attempt was known (or none was allowed) and it returns the fallback
    id, which it does not look up and which [validateSessionId] refuses
    for its format, so that [isSessionActive] is false for it in every
    store.  Hence an id it returns that is valid is new. *)
Theorem generateUniqueSessionId_is_new_or_a_refused_fallback :
  forall (maxAttempts : Z) (s : Guard.State),
    exists (id : string) (s' : Guard.State),
      generateUniqueSessionId maxAttempts s = (Ok id, s') /\
      Guard.sessions s' = Guard.sessions s /\
      ((exists k : nat,
          (k < Z.to_nat maxAttempts)%nat /\
          id = attempt_id s k /\
          map_has id (Guard.sessions s) = false /\
          forall j, (j < k)%nat -> map_has (attempt_id s j) (Guard.sessions s) = true)
       \/
       ((forall j, (j < Z.to_nat maxAttempts)%nat ->
                   map_has (attempt_id s j) (Guard.sessions s) = true) /\
        id = "session_"
               +:+ pretty (Guard.wall s (Guard.ticks s + Z.to_nat maxAttempts)%nat)
               +:+ "_" +:+ Guard.random s (Guard.draws s + Z.to_nat maxAttempts)%nat
               +:+ "_fallback" /\
        sv_isValid (validateSessionId id) = false /\
        IdInvalidFormat ∈ sv_errors (validateSessionId id) /\
        forall s0 : Guard.State, isSessionActive id s0 = (Ok false, s0))) /\
      (sv_isValid (validateSessionId id) = true -> map_has id (Guard.sessions s) = false).
Proof.
  intros maxAttempts s. unfold generateUniqueSessionId.
  destruct (unique_attempts_run (Z.to_nat maxAttempts) s)
    as [(k & Hk & E & Hnew & Hold)|[E Hold]]; run E.
  - exists (attempt_id s k), (after_attempts (S k) s).
    split; [done|]. split; [done|]. split; [|done].
    left. by exists k.
  - set (n := Z.to_nat maxAttempts) in *.
    set (id := "session_" +:+ pretty (Guard.wall s (Guard.ticks s + n)%nat)
               +:+ "_" +:+ Guard.random s (Guard.draws s + n)%nat +:+ "_fallback").
    assert (Hid : id <> "") by done.
    destruct (invalid_format_listed id Hid (fallback_has_no_id_format _ _)) as [Hinv Hfmt].
    exists id, (after_attempts (S n) s).
    split.
    { unfold bind, Guard.newDate, Guard.randomSuffix, ret, after_attempts. cbn.
      by rewrite <- !Nat.add_succ_r. }
    split; [done|]. split; [|by rewrite Hinv].
    right. split; [exact Hold|]. split; [done|]. split; [done|]. split; [done|].
    intros s0. unfold isSessionActive. cbn zeta. by rewrite Hinv.
Qed.

(** X21.  An id made by [generateSessionId] at a time that is not
    negative passes [validateSessionId] exactly when the random suffix is
    not empty, consists of lower-case letters and digits, and the decimal
    numeral of the time and the suffix together have 11 to 41
    characters.  So the id of a time of 13 digits with a suffix of 1 to 9
    such characters is valid, and an id whose suffix came out empty is
    refused. *)
Theorem generateSessionId_is_valid_for_a_proper_suffix :
  forall s : Guard.State,
    let now := Guard.wall s (Guard.ticks s) in
    let suffix := Guard.random s (Guard.draws s) in
    exists (id : string) (s' : Guard.State),
      generateSessionId s = (Ok id, s') /\
      id = "session_" +:+ pretty now +:+ "_" +:+ suffix /\
      Guard.sessions s' = Guard.sessions s /\
      (0 <= now ->
       (sv_isValid (validateSessionId id) = true <->
        suffix <> "" /\ all_chars is_lower_alnum suffix = true /\
        (11 <= String.length (pretty now) + String.length suffix <= 41)%nat)).
Proof.
  intros s now suffix.
  exists (attempt_id s 0), (after_attempts 1 s).
  split; [apply generateSessionId_run|].
  assert (Eid : attempt_id s 0 = "session_" +:+ pretty now +:+ "_" +:+ suffix).
  { unfold attempt_id, now, suffix. by rewrite !Nat.add_0_r. }
  split; [exact Eid|]. split; [done|].
  intros Hnow. rewrite Eid. clear Eid.
  destruct (pretty_Z_digits now Hnow) as [Hne Hdigits].
  assert (Hlen : String.length ("session_" +:+ pretty now +:+ "_" +:+ suffix)
                 = (9 + (String.length (pretty now) + String.length suffix))%nat).
  { rewrite !string_length_app. cbn [String.length]. lia. }
  rewrite validateSessionId_valid, sessionIdPattern_spec, Hlen. split.
  - intros [(digits & rest & E & _ & Hd & Hr & Hrest) Hl].
    apply String.app_inj in E.
    destruct (split_at_underscore is_digit _ _ _ _ eq_refl Hdigits Hd E) as [<- <-].
    split; [done|]. split; [done|]. lia.
  - intros (Hs & Halnum & Hl). split; [|lia].
    by exists (pretty now), suffix.
Qed.
